(** * Kill-feed ingestion pipeline: parser, store, aggregator, orchestrators

    A shallow embedding of
      - [bot/parsers/killfeed_parser.py]   (class [KillfeedParser]),
      - [attached_assets/Ekfv10-main/bot/parsers/historical_parser.py]
                                           (class [HistoricalParser]),
      - [attached_assets/Ekfv10-main/bot/models/database.py]
                                           (class [DatabaseManager]),
    and the properties of the ingestion pipeline that follow from them.
    [HistoricalParser] imports [KillfeedParser] from the module next to it
    and both reach the store through [bot.db_manager]: the one copy of each
    module is the one embedded here.

    Conventions.  Python [str] is [string] (a sequence of bytes; [lower] and
    [strip] act on the ASCII range).  Python [int] is [Z].  Python [float] is
    a rational [Q] kept in lowest terms.  A raised exception is the [Raise]
    branch of [exc]; [try]/[except] is [try_except].  Calls that leave the
    process (the document store, the file transport) read their outcome from
    the world they run in. *)

From Stdlib Require Import QArith Qminmax.
From Stdlib Require Import Ascii String.
From stdpp Require Import gmap strings list fin_maps pretty.

Local Open Scope string_scope.
Local Open Scope Z_scope.

(** ** Exceptions *)

Inductive exn :=
| ValueError
| TypeError
| KeyError
| ZeroDivisionError
| FileNotFoundError
| OtherError.

Inductive exc (A : Type) :=
| Ok (a : A)
| Raise (e : exn).
Arguments Ok {A} a.
Arguments Raise {A} e.

#[global] Instance exc_ret : MRet exc := fun A a => Ok a.

#[global] Instance exc_bind : MBind exc := fun A B k m =>
  match m with
  | Ok a => k a
  | Raise e => Raise e
  end.

#[global] Instance exc_fmap : FMap exc := fun A B f m =>
  match m with
  | Ok a => Ok (f a)
  | Raise e => Raise e
  end.

(** [try: m except handles: h] *)
Definition try_except {A} (m : exc A) (handles : exn -> bool) (h : exn -> exc A) : exc A :=
  match m with
  | Ok a => Ok a
  | Raise e => if handles e then h e else Raise e
  end.

Definition of_option {A} (e : exn) (o : option A) : exc A :=
  match o with
  | Some a => Ok a
  | None => Raise e
  end.

Definition except_Exception (e : exn) : bool := true.

Definition except_ValueError (e : exn) : bool :=
  match e with ValueError => true | _ => false end.

Definition except_FileNotFoundError (e : exn) : bool :=
  match e with FileNotFoundError => true | _ => false end.

(** ** The [str] methods the pipeline calls *)

Module Str.

(** [str.isspace] on one character of the ASCII range. *)
Definition is_space (c : ascii) : bool :=
  let n := nat_of_ascii c in
  ((9 <=? n)%nat && (n <=? 13)%nat) || ((28 <=? n)%nat && (n <=? 32)%nat).

Fixpoint lstrip (s : string) : string :=
  match s with
  | EmptyString => EmptyString
  | String c s' => if is_space c then lstrip s' else s
  end.

Fixpoint rev_onto (s acc : string) : string :=
  match s with
  | EmptyString => acc
  | String c s' => rev_onto s' (String c acc)
  end.

Definition reverse (s : string) : string := rev_onto s EmptyString.

Definition rstrip (s : string) : string := reverse (lstrip (reverse s)).

(** [s.strip()] *)
Definition strip (s : string) : string := rstrip (lstrip s).

(** [s.split(sep)] for a one-character separator: never empty. *)
Fixpoint split (sep : ascii) (s : string) : list string :=
  match s with
  | EmptyString => [EmptyString]
  | String c s' =>
      if Ascii.eqb c sep then EmptyString :: split sep s'
      else match split sep s' with
           | h :: t => String c h :: t
           | [] => [String c EmptyString]
           end
  end.

Definition lower_char (c : ascii) : ascii :=
  let n := nat_of_ascii c in
  if ((65 <=? n)%nat && (n <=? 90)%nat) then ascii_of_nat (n + 32) else c.

(** [s.lower()] *)
Fixpoint lower (s : string) : string :=
  match s with
  | EmptyString => EmptyString
  | String c s' => String (lower_char c) (lower s')
  end.

(** [s.startswith(p)] *)
Fixpoint startswith (p s : string) : bool :=
  match p, s with
  | EmptyString, _ => true
  | String a p', String b s' => Ascii.eqb a b && startswith p' s'
  | String _ _, EmptyString => false
  end.

(** [s.endswith(p)] *)
Definition endswith (p s : string) : bool :=
  startswith (reverse p) (reverse s).

(** [p in s] *)
Fixpoint contains (p s : string) : bool :=
  startswith p s ||
  match s with
  | EmptyString => false
  | String _ s' => contains p s'
  end.

(** [s.replace(c, r)] for a one-character pattern. *)
Fixpoint replace (c : ascii) (r : string) (s : string) : string :=
  match s with
  | EmptyString => EmptyString
  | String a s' =>
      if Ascii.eqb a c then r ++ replace c r s' else String a (replace c r s')
  end.

End Str.

(** ** Library functions reached by the parser

    [datetime.fromisoformat], [datetime.strptime] with the pattern
    ['%Y-%m-%d %H:%M:%S'], [float] and [int] are CPython's, not this repository's:
    they are taken as given.  [None] stands for the [ValueError] each of them
    raises on a string it does not accept.  An instant is a number of seconds
    on the UTC time line. *)

Class PyLib := {
  fromisoformat : string -> option Z;
  strptime_ymd_hms : string -> option Z;
  float_of_str : string -> option Q;
  int_of_str : string -> option Z
}.

(** ** Event Record Parser: [KillfeedParser.parse_csv_line] *)

Record kill_data := KillData {
  timestamp : Z;
  killer : string;
  victim : string;
  weapon : string;
  distance : Q;
  is_suicide : bool;
  raw_line : string
}.

Definition menu_suicide : string := "Menu Suicide".
Definition generic_suicide : string := "Suicide".

Section Parser.
Context {L : PyLib}.

(** [datetime.fromisoformat(timestamp_str.replace('Z', '+00:00'))], and on
    [ValueError] the fixed pattern read as UTC. *)
Definition parse_timestamp (timestamp_str : string) : exc Z :=
  try_except
    (of_option ValueError (fromisoformat (Str.replace "Z" "+00:00" timestamp_str)))
    except_ValueError
    (fun _ => of_option ValueError (strptime_ymd_hms timestamp_str)).

(** [is_suicide = killer == victim or weapon.lower().startswith('suicide')] *)
Definition detect_suicide (killer victim weapon : string) : bool :=
  String.eqb killer victim || Str.startswith "suicide" (Str.lower weapon).

Definition normalize_weapon (is_suicide : bool) (weapon : string) : string :=
  if is_suicide then
    if Str.contains "relocation" (Str.lower weapon) then menu_suicide
    else if String.eqb (Str.lower weapon) "suicide_by_relocation" then menu_suicide
    else generic_suicide
  else weapon.

(** [float(distance) if distance and distance != 'N/A' else 0.0], and [0.0]
    on [ValueError]. *)
Definition parse_distance (distance : string) : exc Q :=
  try_except
    (if negb (String.eqb distance "") && negb (String.eqb distance "N/A")
     then of_option ValueError (float_of_str distance)
     else Ok 0%Q)
    except_ValueError
    (fun _ => Ok 0%Q).

(** The body of the outer [try]. *)
Definition parse_csv_line_body (line : string) : exc (option kill_data) :=
  let parts := Str.split "," (Str.strip line) in
  if (length parts <? 5)%nat then Ok None
  else
    match parts with
    | timestamp_str :: killer :: victim :: weapon :: distance :: _ =>
        ts ← parse_timestamp timestamp_str;
        let is_suicide := detect_suicide killer victim weapon in
        let weapon := normalize_weapon is_suicide weapon in
        distance_float ← parse_distance distance;
        Ok (Some (KillData ts killer victim weapon distance_float
                           is_suicide (Str.strip line)))
    | _ => Raise ValueError
    end.

(** [except Exception: return None] *)
Definition parse_csv_line (line : string) : option kill_data :=
  match try_except (parse_csv_line_body line) except_Exception (fun _ => Ok None) with
  | Ok r => r
  | Raise _ => None
  end.

End Parser.

(** ** Documents and collections of the store *)

#[global] Instance Q_eq_dec : EqDecision Q.
Proof. solve_decision. Defined.

(** The values a field holds.  [VDoc] is a nested document; the only ones the
    pipeline builds are operator payloads such as [{"kills": 1}]. *)
Inductive value :=
| VNone
| VInt (n : Z)
| VFloat (q : Q)
| VStr (s : string)
| VBool (b : bool)
| VTime (t : Z)
| VDoc (fields : list (string * Z)).

#[global] Instance value_eq_dec : EqDecision value.
Proof. solve_decision. Defined.

(** A document, a Python [dict] with string keys, a query filter. *)
Abbreviation doc := (gmap string value).

(** A collection holds its documents in insertion order. *)
Abbreviation collection := (list (gmap string value)).

(** A filter of equalities selects the documents that carry each of its
    bindings. *)
Definition matches (flt d : doc) : bool :=
  bool_decide (map_Forall (fun k v => d !! k = Some v) flt).

Definition coll_find_one (flt : doc) (c : collection) : option doc :=
  List.find (matches flt) c.

(** [$set]: every listed field is written. *)
Definition apply_set (fields d : doc) : doc := fields ∪ d.

(** What an accepted
    [update_one(flt, {"$setOnInsert": on_insert, "$set": fields}, upsert=True)]
    does: the first match is rewritten in place; without a match a document
    is made of the filter's equalities, the insert-only fields and the
    written fields. *)
Fixpoint coll_update_first (flt fields : doc) (c : collection) : option collection :=
  match c with
  | [] => None
  | d :: c' =>
      if matches flt d then Some (apply_set fields d :: c')
      else (fun r => d :: r) <$> coll_update_first flt fields c'
  end.

Definition coll_upsert (flt on_insert fields : doc) (c : collection) : collection :=
  match coll_update_first flt fields c with
  | Some c' => c'
  | None => c ++ [apply_set fields (on_insert ∪ flt)]
  end.

(** The store checks an update before it applies it.  Two operators of one
    request must not name the same field; *)
Definition names_twice (on_insert fields : doc) : bool :=
  negb (bool_decide (map_Forall (fun k _ => on_insert !! k = None) fields)).

(** and [$set] takes field names only: a key spelled like an operator
    (["$inc"]) is not applied as one, it is a field name the store does not
    accept. *)
Definition names_operator (fields : doc) : bool :=
  negb (bool_decide (map_Forall (fun k _ => Str.startswith "$" k = false) fields)).

(** [update_one(flt, {"$setOnInsert": on_insert, "$set": fields}, upsert=True)]
    as the store answers it, [on_insert] being empty for a request without
    [$setOnInsert]: a request that fails a check is refused with a write
    error and nothing is written. *)
Definition update_one (flt on_insert fields : doc) (c : collection) : exc collection :=
  if names_twice on_insert fields || names_operator fields then Raise OtherError
  else Ok (coll_upsert flt on_insert fields c).

Definition coll_insert_one (d : doc) (c : collection) : collection := c ++ [d].

Definition coll_delete_many (flt : doc) (c : collection) : collection :=
  List.filter (fun d => negb (matches flt d)) c.

(** ** The process and what surrounds it *)

Record server_config := ServerConfig {
  cfg_server_id : option string;
  cfg_sftp_host : option string;
  cfg_sftp_port : option Z;
  cfg_sftp_username : option string;
  cfg_sftp_password : option string
}.

(** The far end of the file transport, as the adapter sees it. *)
Record remote := Remote {
  ssh_connect : string -> Z -> string -> string -> exc unit;
  listdir_attr : string -> exc (list (string * Z));
  read_lines : string -> exc (list string)
}.

(** The fixture directory [./dev_data/csv]: [glob] gives path names with
    their modification time, [aiofiles] their lines. *)
Record local_dir := LocalDir {
  glob_csv : exc (list (string * Z));
  local_lines : string -> exc (list string)
}.

(** What the bot posts or edits in a chat channel. *)
Inductive notice :=
| KillfeedEmbed (channel : Z) (title : string)
| StartingEmbed (channel : Z)
| ProgressEmbed (channel : Z) (current total : nat)
| CompleteEmbed (channel : Z) (processed_count : nat) (duration : Z).

(** The state of the process and of what it talks to: the two collections
    of the store the pipeline writes, [KillfeedParser.parsed_lines],
    [HistoricalParser.active_refreshes], what was posted to the chat, the
    outcomes of the calls still to be made and the readings of the clock
    still to come, [bot.dev_mode], the file sources, [os.environ], and the
    channel each guild has set for its feed. *)
Record world := World {
  pvp_data : collection;
  kill_events : collection;
  parsed_lines : gmap string (gset string);
  active_refreshes : gmap string bool;
  sent : list notice;
  outcomes : list bool;
  readings : list Z;
  dev_mode : bool;
  sftp : remote;
  dev_data : local_dir;
  environ : gmap string string;
  killfeed_channel : Z -> option Z
}.

Definition set_pvp_data (c : collection) (w : world) : world :=
  World c (kill_events w) (parsed_lines w) (active_refreshes w) (sent w)
        (outcomes w) (readings w) (dev_mode w) (sftp w) (dev_data w)
        (environ w) (killfeed_channel w).

Definition set_kill_events (c : collection) (w : world) : world :=
  World (pvp_data w) c (parsed_lines w) (active_refreshes w) (sent w)
        (outcomes w) (readings w) (dev_mode w) (sftp w) (dev_data w)
        (environ w) (killfeed_channel w).

Definition set_parsed_lines (p : gmap string (gset string)) (w : world) : world :=
  World (pvp_data w) (kill_events w) p (active_refreshes w) (sent w)
        (outcomes w) (readings w) (dev_mode w) (sftp w) (dev_data w)
        (environ w) (killfeed_channel w).

Definition set_active_refreshes (a : gmap string bool) (w : world) : world :=
  World (pvp_data w) (kill_events w) (parsed_lines w) a (sent w)
        (outcomes w) (readings w) (dev_mode w) (sftp w) (dev_data w)
        (environ w) (killfeed_channel w).

Definition set_sent (s : list notice) (w : world) : world :=
  World (pvp_data w) (kill_events w) (parsed_lines w) (active_refreshes w) s
        (outcomes w) (readings w) (dev_mode w) (sftp w) (dev_data w)
        (environ w) (killfeed_channel w).

Definition set_outcomes (o : list bool) (w : world) : world :=
  World (pvp_data w) (kill_events w) (parsed_lines w) (active_refreshes w) (sent w)
        o (readings w) (dev_mode w) (sftp w) (dev_data w)
        (environ w) (killfeed_channel w).

Definition set_readings (r : list Z) (w : world) : world :=
  World (pvp_data w) (kill_events w) (parsed_lines w) (active_refreshes w) (sent w)
        (outcomes w) r (dev_mode w) (sftp w) (dev_data w)
        (environ w) (killfeed_channel w).

(** A coroutine of the bot: it runs in a world, leaves a world, and returns
    or raises. *)
Definition io (A : Type) : Type := world -> exc A * world.

#[global] Instance io_ret : MRet io := fun A a w => (Ok a, w).

#[global] Instance io_bind : MBind io := fun A B k m w =>
  match m w with
  | (Ok a, w') => k a w'
  | (Raise e, w') => (Raise e, w')
  end.

Definition io_try {A} (m : io A) (handles : exn -> bool) (h : exn -> io A) : io A :=
  fun w =>
    match m w with
    | (Ok a, w') => (Ok a, w')
    | (Raise e, w') => if handles e then h e w' else (Raise e, w')
    end.

Definition io_lift {A} (m : exc A) : io A := fun w => (m, w).

Definition io_modify (f : world -> world) : io unit := fun w => (Ok tt, f w).

(** A call that leaves the process.  The next entry of [outcomes] tells
    whether it raises ([true]) instead of reaching the far end.  Past the end
    of the list every call goes through. *)
Definition external {A} (effect : world -> A * world) : io A :=
  fun w =>
    match outcomes w with
    | true :: o => (Raise OtherError, set_outcomes o w)
    | _ => let (a, w') := effect (set_outcomes (tail (outcomes w)) w) in (Ok a, w')
    end.

(** [datetime.now(...)]: the next reading of the clock, 0 once the readings
    are used up. *)
Definition now : io Z :=
  fun w => (Ok (hd 0 (readings w)), set_readings (tail (readings w)) w).

(** ** Python arithmetic on stored values *)

Definition as_number (v : value) : option Q :=
  match v with
  | VInt n => Some (inject_Z n)
  | VFloat q => Some q
  | VBool b => Some (if b then 1%Q else 0%Q)
  | _ => None
  end.

(** [max(a, b)]: [b] when [b > a], else [a]. *)
Definition py_max (a b : value) : exc value :=
  match as_number a, as_number b with
  | Some x, Some y => Ok (if Qle_bool y x then a else b)
  | _, _ => Raise TypeError
  end.

(** [a / b], true division. *)
Definition py_truediv (a b : value) : exc value :=
  match as_number a, as_number b with
  | Some x, Some y =>
      if Qeq_bool y 0 then Raise ZeroDivisionError
      else Ok (VFloat (Qred (x / y)))
  | _, _ => Raise TypeError
  end.

Definition doc_has (k : string) (d : doc) : bool :=
  match d !! k with
  | Some _ => true
  | None => false
  end.

(** ** Persistence: [DatabaseManager] *)

Definition pvp_filter (guild_id : Z) (server_id player_name : string) : doc :=
  <["guild_id" := VInt guild_id]>
  (<["server_id" := VStr server_id]>
  (<["player_name" := VStr player_name]> ∅)).

Definition server_filter (guild_id : Z) (server_id : string) : doc :=
  <["guild_id" := VInt guild_id]> (<["server_id" := VStr server_id]> ∅).

Definition default_stats (guild_id : Z) (server_id player_name : string) (t : Z) : doc :=
  <["guild_id" := VInt guild_id]>
  (<["server_id" := VStr server_id]>
  (<["player_name" := VStr player_name]>
  (<["kills" := VInt 0]>
  (<["deaths" := VInt 0]>
  (<["suicides" := VInt 0]>
  (<["kdr" := VFloat 0]>
  (<["longest_streak" := VInt 0]>
  (<["current_streak" := VInt 0]>
  (<["favorite_weapon" := VNone]>
  (<["total_distance" := VFloat 0]>
  (<["last_updated" := VTime t]> ∅))))))))))).

(** [current_doc[k] if current_doc else 0] *)
Definition current_or_zero (current_doc : option doc) (k : string) : exc value :=
  match current_doc with
  | Some d => of_option KeyError (d !! k)
  | None => Ok (VInt 0)
  end.

(** The block under [# Calculate KDR]: it runs when the update names [kills]
    or [deaths] at its top level, and stores [kdr] in the update. *)
Definition calculate_kdr (guild_id : Z) (server_id player_name : string)
    (stats_update : doc) : io doc :=
  if doc_has "kills" stats_update || doc_has "deaths" stats_update then
    current_doc ← external (fun w =>
      (coll_find_one (pvp_filter guild_id server_id player_name) (pvp_data w), w));
    kills_default ← io_lift (current_or_zero current_doc "kills");
    let kills := default kills_default (stats_update !! "kills") in
    deaths_default ← io_lift (current_or_zero current_doc "deaths");
    let deaths := default deaths_default (stats_update !! "deaths") in
    kdr ← io_lift (m ← py_max deaths (VInt 1); py_truediv kills m);
    mret (<["kdr" := kdr]> stats_update)
  else mret stats_update.

(** [DatabaseManager.update_pvp_stats].  The request reaches the store as
    the code builds it, [default_stats] under [$setOnInsert] and
    [stats_update] under [$set]; the driver raises what the store answers to
    a request it refuses. *)
Definition update_pvp_stats (guild_id : Z) (server_id player_name : string)
    (stats_update : doc) : io bool :=
  io_try
    (t0 ← now;
     let defaults := default_stats guild_id server_id player_name t0 in
     stats_update ← calculate_kdr guild_id server_id player_name stats_update;
     t1 ← now;
     let stats_update := <["last_updated" := VTime t1]> stats_update in
     answer ← external (fun w =>
       match update_one (pvp_filter guild_id server_id player_name)
                        defaults stats_update (pvp_data w) with
       | Ok c => (Ok tt, set_pvp_data c w)
       | Raise e => (Raise e, w)
       end);
     _ ← io_lift answer;
     mret true)
    except_Exception
    (fun _ => mret false).

(** [DatabaseManager.get_pvp_stats], read off a world. *)
Definition get_pvp_stats (w : world) (guild_id : Z) (server_id player_name : string)
    : option doc :=
  coll_find_one (pvp_filter guild_id server_id player_name) (pvp_data w).

(** The parsed event as the [dict] it is in the source. *)
Definition kill_data_doc (kd : kill_data) : doc :=
  <["timestamp" := VTime (timestamp kd)]>
  (<["killer" := VStr (killer kd)]>
  (<["victim" := VStr (victim kd)]>
  (<["weapon" := VStr (weapon kd)]>
  (<["distance" := VFloat (distance kd)]>
  (<["is_suicide" := VBool (is_suicide kd)]>
  (<["raw_line" := VStr (raw_line kd)]> ∅)))))).

(** [DatabaseManager.add_kill_event]: the event's own fields come last in the
    literal and win over the three written before them. *)
Definition add_kill_event (guild_id : Z) (server_id : string) (kd : kill_data) : io bool :=
  io_try
    (t ← now;
     let kill_event :=
       kill_data_doc kd ∪
       (<["guild_id" := VInt guild_id]>
        (<["server_id" := VStr server_id]>
        (<["timestamp" := VTime t]> ∅))) in
     _ ← external (fun w =>
       (tt, set_kill_events (coll_insert_one kill_event (kill_events w)) w));
     mret true)
    except_Exception
    (fun _ => mret false).

(** The two [$inc] requests the parsers hand to [update_pvp_stats]. *)
Definition inc_request (counter : string) : doc :=
  <["$inc" := VDoc [(counter, 1)]]> ∅.

(** ** Remote Source Adapter *)

(** Truth value of a credential inside [all([...])]. *)
Definition truthy (o : option string) : bool :=
  match o with
  | Some s => negb (String.eqb s "")
  | None => false
  end.

Definition csv_only (items : list (string * Z)) : list (string * Z) :=
  List.filter (fun item => Str.endswith ".csv" item.1) items.

(** [list.sort] is stable; with [reverse=True] equal keys keep their order
    too. *)
Fixpoint insert_mtime_desc (x : string * Z) (l : list (string * Z)) : list (string * Z) :=
  match l with
  | [] => [x]
  | y :: l' => if (x.2 <? y.2) then y :: insert_mtime_desc x l' else x :: l
  end.

Definition sort_mtime_desc (l : list (string * Z)) : list (string * Z) :=
  foldr insert_mtime_desc [] l.

Fixpoint insert_mtime_asc (x : string * Z) (l : list (string * Z)) : list (string * Z) :=
  match l with
  | [] => [x]
  | y :: l' => if (y.2 <? x.2) then y :: insert_mtime_asc x l' else x :: l
  end.

Definition sort_mtime_asc (l : list (string * Z)) : list (string * Z) :=
  foldr insert_mtime_asc [] l.

Fixpoint insert_name (x : string * Z) (l : list (string * Z)) : list (string * Z) :=
  match l with
  | [] => [x]
  | y :: l' => if String.ltb y.1 x.1 then y :: insert_name x l' else x :: l
  end.

Definition sort_name (l : list (string * Z)) : list (string * Z) :=
  foldr insert_name [] l.

(** [max(csv_files, key=mtime)]: the first of the largest. *)
Fixpoint max_mtime (best : string * Z) (l : list (string * Z)) : string * Z :=
  match l with
  | [] => best
  | y :: l' => max_mtime (if (best.2 <? y.2) then y else best) l'
  end.

Definition deathlogs_path (sftp_host server_id : string) : string :=
  "./" +:+ sftp_host +:+ "_" +:+ server_id +:+ "/actual1/deathlogs/".

(** Reading files one after the other into [all_lines]; what was read stays
    read when a later file raises. *)
Fixpoint read_each (read : string -> exc (list string)) (paths : list string)
    (all_lines : list string) : list string * option exn :=
  match paths with
  | [] => (all_lines, None)
  | p :: ps =>
      match read p with
      | Ok ls => read_each read ps (all_lines ++ ls)
      | Raise e => (all_lines, Some e)
      end
  end.

Module KillfeedParser.

(** The body of the [try] of [get_sftp_csv_files]. *)
Definition get_sftp_csv_files_body (r : remote) (cfg : server_config)
    : exc (list string) :=
  let sftp_host := cfg_sftp_host cfg in
  let sftp_port := default 22 (cfg_sftp_port cfg) in
  let sftp_username := cfg_sftp_username cfg in
  let sftp_password := cfg_sftp_password cfg in
  match sftp_host, sftp_username, sftp_password with
  | Some host, Some username, Some password =>
      if negb (truthy sftp_host && truthy sftp_username && truthy sftp_password)
      then Ok []
      else
        _ ← ssh_connect r host sftp_port username password;
        let server_id := default "unknown" (cfg_server_id cfg) in
        let remote_path := deathlogs_path host server_id in
        listed ← try_except (Some <$> listdir_attr r remote_path)
                            except_FileNotFoundError (fun _ => Ok None);
        match listed with
        | None => Ok []
        | Some items =>
            match sort_mtime_desc (csv_only items) with
            | (most_recent, _) :: _ =>
                read_lines r (remote_path +:+ "/" +:+ most_recent)
            | [] => Ok []
            end
        end
  | _, _, _ => Ok []
  end.

(** [KillfeedParser.get_sftp_csv_files] *)
Definition get_sftp_csv_files (r : remote) (cfg : server_config) : exc (list string) :=
  try_except (get_sftp_csv_files_body r cfg) except_Exception (fun _ => Ok []).

(** [KillfeedParser.get_dev_csv_files] *)
Definition get_dev_csv_files (d : local_dir) : exc (list string) :=
  try_except
    (csv_files ← glob_csv d;
     match csv_files with
     | [] => Ok []
     | f :: fs => local_lines d (max_mtime f fs).1
     end)
    except_Exception (fun _ => Ok []).

(** [f"{guild_id}_{server_id}"] *)
Definition server_key (guild_id : Z) (server_id : string) : string :=
  pretty guild_id +:+ "_" +:+ server_id.

Definition embed_title (kd : kill_data) : string :=
  let weapon := Str.lower (weapon kd) in
  if is_suicide kd then
    if Str.contains "falling" weapon || Str.contains "fall" weapon
    then "Falling Death" else "Player Reset"
  else "Kill".

(** [KillfeedParser.send_killfeed_embed].  Whether the guild has a channel
    for the feed ([get_guild], its [channels.killfeed] entry,
    [bot.get_channel]) is read from [killfeed_channel]. *)
Definition send_killfeed_embed (guild_id : Z) (kd : kill_data) : io unit :=
  io_try
    (channel ← external (fun w => (killfeed_channel w guild_id, w));
     match channel with
     | None => mret tt
     | Some ch =>
         external (fun w => (tt, set_sent (sent w ++ [KillfeedEmbed ch (embed_title kd)]) w))
     end)
    except_Exception
    (fun _ => mret tt).

(** [KillfeedParser.process_kill_event] *)
Definition process_kill_event (guild_id : Z) (server_id : string) (kd : kill_data)
    : io unit :=
  io_try
    (_ ← add_kill_event guild_id server_id kd;
     _ ← (if is_suicide kd then
            update_pvp_stats guild_id server_id (victim kd) (inc_request "suicides")
          else
            _ ← update_pvp_stats guild_id server_id (killer kd) (inc_request "kills");
            update_pvp_stats guild_id server_id (victim kd) (inc_request "deaths"));
     send_killfeed_embed guild_id kd)
    except_Exception
    (fun _ => mret tt).

(** [self.parsed_lines[key]] *)
Definition parsed_for (key : string) : io (gset string) :=
  fun w => (of_option KeyError (parsed_lines w !! key), w).

(** [self.parsed_lines[key].add(line)] *)
Definition mark_parsed (key line : string) : io unit :=
  fun w =>
    match parsed_lines w !! key with
    | Some seen => (Ok tt, set_parsed_lines (<[key := {[line]} ∪ seen]> (parsed_lines w)) w)
    | None => (Raise KeyError, w)
    end.

Section Ingest.
Context {L : PyLib}.

(** The [for line in lines] loop of [parse_server_killfeed]; it yields
    [new_events]. *)
Fixpoint killfeed_loop (guild_id : Z) (server_id key : string)
    (lines : list string) (new_events : nat) : io nat :=
  match lines with
  | [] => mret new_events
  | line :: rest =>
      skip ← (if String.eqb (Str.strip line) "" then mret true
              else seen ← parsed_for key; mret (bool_decide (line ∈ seen)));
      if (skip : bool) then killfeed_loop guild_id server_id key rest new_events
      else
        match parse_csv_line line with
        | Some kd =>
            _ ← process_kill_event guild_id server_id kd;
            _ ← mark_parsed key line;
            killfeed_loop guild_id server_id key rest (S new_events)
        | None => killfeed_loop guild_id server_id key rest new_events
        end
  end.

(** From [# Track processed lines for this server] to the end of the
    loop. *)
Definition ingest_lines (guild_id : Z) (server_id : string) (lines : list string)
    : io nat :=
  let key := server_key guild_id server_id in
  _ ← io_modify (fun w =>
         match parsed_lines w !! key with
         | Some _ => w
         | None => set_parsed_lines (<[key := ∅]> (parsed_lines w)) w
         end);
  killfeed_loop guild_id server_id key lines 0.

Definition fetch_latest (cfg : server_config) : io (list string) :=
  fun w =>
    (if dev_mode w then get_dev_csv_files (dev_data w)
     else get_sftp_csv_files (sftp w) cfg, w).

(** [KillfeedParser.parse_server_killfeed] *)
Definition parse_server_killfeed (guild_id : Z) (cfg : server_config) : io unit :=
  io_try
    (let server_id := default "unknown" (cfg_server_id cfg) in
     lines ← fetch_latest cfg;
     match lines with
     | [] => mret tt
     | _ => _ ← ingest_lines guild_id server_id lines; mret tt
     end)
    except_Exception
    (fun _ => mret tt).

End Ingest.

End KillfeedParser.

Module HistoricalParser.

Section Adapter.
Context {L : PyLib}.

(** [os.getenv(name, fallback)] *)
Definition getenv (env : gmap string string) (name : string)
    (fallback : option string) : option string :=
  match env !! name with
  | Some v => Some v
  | None => fallback
  end.

(** [int(os.getenv('SFTP_PORT', server_config.get('sftp_port', 22)))] *)
Definition sftp_port_of (env : gmap string string) (cfg : server_config) : exc Z :=
  match env !! "SFTP_PORT" with
  | Some s => of_option ValueError (int_of_str s)
  | None => Ok (default 22 (cfg_sftp_port cfg))
  end.

(** The body of the [try] of [get_sftp_csv_files]. *)
Definition get_sftp_csv_files_body (env : gmap string string) (r : remote)
    (cfg : server_config) : exc (list string) :=
  let sftp_host := getenv env "SFTP_HOST" (cfg_sftp_host cfg) in
  sftp_port ← sftp_port_of env cfg;
  let sftp_username := getenv env "SFTP_USERNAME" (cfg_sftp_username cfg) in
  let sftp_password := getenv env "SFTP_PASSWORD" (cfg_sftp_password cfg) in
  match sftp_host, sftp_username, sftp_password with
  | Some host, Some username, Some password =>
      if negb (truthy sftp_host && truthy sftp_username && truthy sftp_password)
      then Ok []
      else
        _ ← ssh_connect r host sftp_port username password;
        let server_id := default "unknown" (cfg_server_id cfg) in
        let remote_path := deathlogs_path host server_id in
        let '(all_lines, raised) :=
          match listdir_attr r remote_path with
          | Raise e => ([], Some e)
          | Ok items =>
              read_each (read_lines r)
                ((fun item => remote_path +:+ "/" +:+ item.1)
                   <$> sort_mtime_asc (csv_only items))
                []
          end in
        match raised with
        | None => Ok all_lines
        | Some e => if except_FileNotFoundError e then Ok all_lines else Raise e
        end
  | _, _, _ => Ok []
  end.

(** [HistoricalParser.get_sftp_csv_files] *)
Definition get_sftp_csv_files (env : gmap string string) (r : remote)
    (cfg : server_config) : exc (list string) :=
  try_except (get_sftp_csv_files_body env r cfg) except_Exception (fun _ => Ok []).

(** [HistoricalParser.get_dev_csv_files] *)
Definition get_dev_csv_files (d : local_dir) : exc (list string) :=
  try_except
    (csv_files ← glob_csv d;
     match csv_files with
     | [] => Ok []
     | _ =>
         let '(all_lines, raised) :=
           read_each (local_lines d) (fst <$> sort_name csv_files) [] in
         match raised with
         | None => Ok all_lines
         | Some e => Raise e
         end
     end)
    except_Exception (fun _ => Ok []).

(** [HistoricalParser.get_all_csv_files] *)
Definition get_all_csv_files (w : world) (cfg : server_config) : exc (list string) :=
  try_except
    (if dev_mode w then get_dev_csv_files (dev_data w)
     else get_sftp_csv_files (environ w) (sftp w) cfg)
    except_Exception (fun _ => Ok []).

End Adapter.

(** [HistoricalParser.clear_server_data] *)
Definition clear_server_data (guild_id : Z) (server_id : string) : io unit :=
  io_try
    (_ ← external (fun w =>
       (tt, set_pvp_data
              (coll_delete_many (server_filter guild_id server_id) (pvp_data w)) w));
     external (fun w =>
       (tt, set_kill_events
              (coll_delete_many (server_filter guild_id server_id) (kill_events w)) w)))
    except_Exception
    (fun _ => mret tt).

Definition post (n : notice) : io unit :=
  external (fun w => (tt, set_sent (sent w ++ [n]) w)).

(** [HistoricalParser.update_progress_embed] *)
Definition update_progress_embed (channel : Z) (current total : nat) : io unit :=
  io_try (post (ProgressEmbed channel current total)) except_Exception (fun _ => mret tt).

(** [HistoricalParser.complete_progress_embed] *)
Definition complete_progress_embed (channel : Z) (processed_count : nat)
    (duration : Z) : io unit :=
  io_try (post (CompleteEmbed channel processed_count duration))
         except_Exception (fun _ => mret tt).

Definition refresh_key (guild_id : Z) (cfg : server_config) : string :=
  pretty guild_id +:+ "_" +:+ default "unknown" (cfg_server_id cfg).

(** The stretch of [refresh_server_data] that runs before its first
    [await]: the test of the guard, its setting, the start time.  [None] is
    the early [return False]. *)
Definition refresh_enter (guild_id : Z) (cfg : server_config) : io (option Z) :=
  fun w =>
    let key := refresh_key guild_id cfg in
    if default false (active_refreshes w !! key) then (Ok None, w)
    else
      (start_time ← now; mret (Some start_time))
        (set_active_refreshes (<[key := true]> (active_refreshes w)) w).

Definition release_guard (key : string) : io unit :=
  io_modify (fun w => set_active_refreshes (<[key := false]> (active_refreshes w)) w).

Section Refresh.
Context {L : PyLib}.

(** Stats of one parsed line, written without the dedup map and without
    a feed embed. *)
Definition record_historical (guild_id : Z) (server_id : string) (kd : kill_data)
    : io unit :=
  _ ← add_kill_event guild_id server_id kd;
  _ ← (if negb (is_suicide kd) then
         _ ← update_pvp_stats guild_id server_id (killer kd) (inc_request "kills");
         mret tt
       else mret tt);
  _ ← update_pvp_stats guild_id server_id (victim kd)
        (inc_request (if negb (is_suicide kd) then "deaths" else "suicides"));
  mret tt.

(** The [for i, line in enumerate(lines)] loop; it yields
    [processed_count]. *)
Fixpoint refresh_loop (guild_id : Z) (server_id : string) (embed_message : option Z)
    (total_lines : nat) (lines : list string) (i processed_count : nat)
    (last_update_time : Z) : io nat :=
  match lines with
  | [] => mret processed_count
  | line :: rest =>
      if String.eqb (Str.strip line) "" then
        refresh_loop guild_id server_id embed_message total_lines rest (S i)
                     processed_count last_update_time
      else
        processed_count ←
          match parse_csv_line line with
          | Some kd =>
              _ ← record_historical guild_id server_id kd;
              mret (S processed_count)
          | None => mret processed_count
          end;
        current_time ← now;
        last_update_time ←
          match embed_message with
          | Some ch =>
              if (30 <=? current_time - last_update_time) then
                _ ← update_progress_embed ch (S i) total_lines;
                mret current_time
              else mret last_update_time
          | None => mret last_update_time
          end;
        refresh_loop guild_id server_id embed_message total_lines rest (S i)
                     processed_count last_update_time
  end.

(** [refresh_server_data] from its first [await] on, with its
    [except Exception] handler. *)
Definition refresh_run (guild_id : Z) (cfg : server_config) (channel : option Z)
    (start_time : Z) : io bool :=
  let server_id := default "unknown" (cfg_server_id cfg) in
  let key := refresh_key guild_id cfg in
  io_try
    (embed_message ←
       match channel with
       | Some ch => _ ← post (StartingEmbed ch); mret (Some ch)
       | None => mret None
       end;
     _ ← clear_server_data guild_id server_id;
     lines ← (fun w => (get_all_csv_files w cfg, w));
     match lines with
     | [] => _ ← release_guard key; mret false
     | _ =>
         let total_lines := length lines in
         last_update_time ← now;
         processed_count ←
           refresh_loop guild_id server_id embed_message total_lines lines
                        0 0 last_update_time;
         finish ← now;
         let duration := finish - start_time in
         _ ← match embed_message with
             | Some ch => complete_progress_embed ch processed_count duration
             | None => mret tt
             end;
         _ ← release_guard key;
         mret true
     end)
    except_Exception
    (fun _ =>
       _ ← io_modify (fun w =>
              match active_refreshes w !! key with
              | Some _ => set_active_refreshes (<[key := false]> (active_refreshes w)) w
              | None => w
              end);
       mret false).

(** [HistoricalParser.refresh_server_data] *)
Definition refresh_server_data (guild_id : Z) (cfg : server_config)
    (channel : option Z) : io bool :=
  entered ← refresh_enter guild_id cfg;
  match entered with
  | None => mret false
  | Some start_time => refresh_run guild_id cfg channel start_time
  end.

End Refresh.

End HistoricalParser.

(** ** Historical refreshes running side by side

    The bot runs its coroutines on one thread: a coroutine keeps the
    processor from one [await] to the next.  The guard map is read and
    written only in the first stretch of [refresh_server_data] (before its
    first [await]) and where a run leaves; a call is therefore followed in two
    moves, its entry and the rest of its run, and calls interleave between
    moves. *)

Inductive task :=
| Pending (guild_id : Z) (cfg : server_config) (channel : option Z)
| Running (guild_id : Z) (cfg : server_config) (channel : option Z) (start_time : Z)
| Finished (result : bool).

Section Tasks.
Context {L : PyLib}.

Definition task_step (t : task) (w : world) : task * world :=
  match t with
  | Pending g cfg ch =>
      match HistoricalParser.refresh_enter g cfg w with
      | (Ok (Some start_time), w') => (Running g cfg ch start_time, w')
      | (_, w') => (Finished false, w')
      end
  | Running g cfg ch start_time =>
      match HistoricalParser.refresh_run g cfg ch start_time w with
      | (Ok result, w') => (Finished result, w')
      | (Raise _, w') => (Finished false, w')
      end
  | Finished result => (Finished result, w)
  end.

(** One move of the event loop: some call advances, or some other
    coroutine of the bot runs, which leaves the guard map alone. *)
Inductive sched_step : world * list task -> world * list task -> Prop :=
| sched_task (w : world) (ts : list task) (i : nat) (t : task) :
    ts !! i = Some t ->
    sched_step (w, ts) ((task_step t w).2, <[i := (task_step t w).1]> ts)
| sched_other (w w' : world) (ts : list task) :
    active_refreshes w' = active_refreshes w ->
    sched_step (w, ts) (w', ts).

Inductive sched_steps : world * list task -> world * list task -> Prop :=
| sched_refl (c : world * list task) : sched_steps c c
| sched_trans (c1 c2 c3 : world * list task) :
    sched_steps c1 c2 -> sched_step c2 c3 -> sched_steps c1 c3.

End Tasks.

(** ** A stand-in for the CPython functions

    Used to run the parser on concrete lines.  It accepts
    [YYYY-MM-DD?HH:MM:SS] with an optional [+HH:MM] or [-HH:MM] for
    [fromisoformat], [YYYY-MM-DD HH:MM:SS] for the fixed pattern, and signed
    decimal numerals for [float] and [int]; on these shapes it gives what
    CPython gives for a valid calendar date. *)

Module Fixture.

Definition digit (c : ascii) : option Z :=
  let n := nat_of_ascii c in
  if ((48 <=? n)%nat && (n <=? 57)%nat) then Some (Z.of_nat (n - 48)) else None.

Fixpoint digits_from (s : string) (acc : Z) : option Z :=
  match s with
  | EmptyString => Some acc
  | String c s' =>
      match digit c with
      | Some d => digits_from s' (acc * 10 + d)
      | None => None
      end
  end.

Definition digits (s : string) : option Z :=
  match s with
  | EmptyString => None
  | _ => digits_from s 0
  end.

Definition signed (s : string) : option Z :=
  match s with
  | String "-" s' => Z.opp <$> digits s'
  | String "+" s' => digits s'
  | _ => digits s
  end.

(** Days from 1970-01-01 to the given civil date. *)
Definition days_from_civil (y m d : Z) : Z :=
  let y' := if m <=? 2 then y - 1 else y in
  let era := y' / 400 in
  let yoe := y' - era * 400 in
  let doy := (153 * (if 2 <? m then m - 3 else m + 9) + 2) / 5 + d - 1 in
  let doe := yoe * 365 + yoe / 4 - yoe / 100 + doy in
  era * 146097 + doe - 719468.

Definition in_range (lo hi x : Z) : bool := (lo <=? x) && (x <=? hi).

Definition date_time (sep_ok : ascii -> bool) (s : string) : option Z :=
  match digits (substring 0 4 s), digits (substring 5 2 s), digits (substring 8 2 s),
        digits (substring 11 2 s), digits (substring 14 2 s), digits (substring 17 2 s),
        String.get 10 s with
  | Some y, Some mo, Some d, Some h, Some mi, Some sec, Some sep =>
      if String.eqb (substring 4 1 s) "-" && String.eqb (substring 7 1 s) "-"
         && String.eqb (substring 13 1 s) ":" && String.eqb (substring 16 1 s) ":"
         && sep_ok sep && (String.length s =? 19)%nat
         && in_range 1 12 mo && in_range 1 31 d
         && in_range 0 23 h && in_range 0 59 mi && in_range 0 59 sec
      then Some (((days_from_civil y mo d * 24 + h) * 60 + mi) * 60 + sec)
      else None
  | _, _, _, _, _, _, _ => None
  end.

Definition utc_offset (s : string) : option Z :=
  match digits (substring 1 2 s), digits (substring 4 2 s) with
  | Some h, Some mi =>
      if String.eqb (substring 3 1 s) ":" && (String.length s =? 6)%nat
         && in_range 0 23 h && in_range 0 59 mi
      then
        if String.eqb (substring 0 1 s) "+" then Some ((h * 60 + mi) * 60)
        else if String.eqb (substring 0 1 s) "-" then Some (- ((h * 60 + mi) * 60))
        else None
      else None
  | _, _ => None
  end.

Definition fromisoformat (s : string) : option Z :=
  if (String.length s =? 19)%nat then date_time (fun _ => true) s
  else
    match date_time (fun _ => true) (substring 0 19 s),
          utc_offset (substring 19 (String.length s - 19) s) with
    | Some t, Some off => Some (t - off)
    | _, _ => None
    end.

Definition strptime_ymd_hms (s : string) : option Z :=
  date_time (fun c => Ascii.eqb c " ") s.

Fixpoint split_point (s : string) : string * option string :=
  match s with
  | EmptyString => (EmptyString, None)
  | String "." s' => (EmptyString, Some s')
  | String c s' => let '(a, b) := split_point s' in (String c a, b)
  end.

Definition float_of_str (s : string) : option Q :=
  match split_point s with
  | (whole, None) => inject_Z <$> signed whole
  | (whole, Some frac) =>
      match signed whole, digits frac with
      | Some a, Some b =>
          let scale := 10 ^ Z.of_nat (String.length frac) in
          let n := if String.eqb (substring 0 1 whole) "-" then a * scale - b
                   else a * scale + b in
          Some (Qred (n # Z.to_pos scale))
      | _, _ => None
      end
  end.

Definition lib : PyLib :=
  Build_PyLib fromisoformat strptime_ymd_hms float_of_str signed.

End Fixture.


(** * Further parts of the program

    The progress bar of the historical refresh, the two collections of
    [DatabaseManager] the pipeline does not write, and the callers of the two
    parsers. *)

From Stdlib Require Import Sorting.Sorted.

Local Open Scope list_scope.

(** ** The progress bar of [HistoricalParser.update_progress_embed] *)

(** A cell of the bar: ['█'] or ['░']. *)
Inductive cell := Full | Blank.

(** [x * n] for a one-character string [x]: no copy when [n] is negative. *)
Definition py_repeat {A} (x : A) (n : Z) : list A := repeat x (Z.to_nat n).

Definition progress_bar_length : Z := 20.

(** [int(progress_bar_length * current // total) if total > 0 else 0] *)
Definition filled_length (current total : Z) : Z :=
  if 0 <? total then (progress_bar_length * current) / total else 0.

(** ['█' * filled_length + '░' * (progress_bar_length - filled_length)] *)
Definition progress_bar (current total : Z) : list cell :=
  py_repeat Full (filled_length current total)
  ++ py_repeat Blank (progress_bar_length - filled_length current total).

(** [(current / total * 100) if total > 0 else 0] *)
Definition progress_percent (current total : Z) : Q :=
  if 0 <? total then (inject_Z current / inject_Z total * 100)%Q else 0%Q.

(** ** Persistence: premium status and wallets

    [DatabaseManager] keeps two further collections the ingestion pipeline
    does not touch: [premium], one document per server, and [economy], one
    wallet per member of a guild.  The functions on them run in a state of
    their own: the two collections, the outcomes of the calls to the store
    still to be made ([true]: the call raises) and the readings of the clock
    still to come. *)

Record ledger := Ledger {
  premium : collection;
  economy : collection;
  faults : list bool;
  clock : list Z
}.

Definition set_premium (c : collection) (l : ledger) : ledger :=
  Ledger c (economy l) (faults l) (clock l).

Definition set_economy (c : collection) (l : ledger) : ledger :=
  Ledger (premium l) c (faults l) (clock l).

Definition set_faults (o : list bool) (l : ledger) : ledger :=
  Ledger (premium l) (economy l) o (clock l).

Definition set_clock (r : list Z) (l : ledger) : ledger :=
  Ledger (premium l) (economy l) (faults l) r.

Definition db (A : Type) : Type := ledger -> exc A * ledger.

#[global] Instance db_ret : MRet db := fun A a l => (Ok a, l).

#[global] Instance db_bind : MBind db := fun A B k m l =>
  match m l with
  | (Ok a, l') => k a l'
  | (Raise e, l') => (Raise e, l')
  end.

Definition db_try {A} (m : db A) (handles : exn -> bool) (h : exn -> db A) : db A :=
  fun l =>
    match m l with
    | (Ok a, l') => (Ok a, l')
    | (Raise e, l') => if handles e then h e l' else (Raise e, l')
    end.

Definition db_lift {A} (m : exc A) : db A := fun l => (m, l).

(** A call to the store.  The next entry of [faults] tells whether it
    raises instead of taking effect; a request the store takes may still be
    refused for what it asks, which is the [Raise] of [effect]. *)
Definition db_call {A} (effect : ledger -> exc A * ledger) : db A :=
  fun l =>
    match faults l with
    | true :: o => (Raise OtherError, set_faults o l)
    | _ => effect (set_faults (tail (faults l)) l)
    end.

(** [datetime.now(timezone.utc)] *)
Definition db_now : db Z :=
  fun l => (Ok (hd 0 (clock l)), set_clock (tail (clock l)) l).

(** Truth value of a stored value. *)
Definition value_truthy (v : value) : bool :=
  match v with
  | VNone => false
  | VInt n => negb (n =? 0)
  | VFloat q => negb (Qeq_bool q 0)
  | VStr s => negb (String.eqb s "")
  | VBool b => b
  | VTime _ => true
  | VDoc fields => match fields with [] => false | _ :: _ => true end
  end.

(** Truth value of [d.get(k)]. *)
Definition get_truthy (d : doc) (k : string) : bool :=
  match d !! k with
  | Some v => value_truthy v
  | None => false
  end.

(** [v < datetime.now(timezone.utc)] for a value read from the store.  The
    client is made without [tz_aware] ([AsyncIOMotorClient(mongo_uri)] in
    [main.py]), so a stored instant is read back as a [datetime] without a
    zone, which Python does not order against one that has a zone; nor does
    it order a number, a string or a document against a [datetime].  The
    comparison raises [TypeError] whatever was stored. *)
Definition py_lt_time (v : value) (t : Z) : exc bool :=
  match v with
  | VTime _ => Raise TypeError
  | _ => Raise TypeError
  end.

(** The [premium_doc] of [set_premium_status]. *)
Definition premium_doc (guild_id : Z) (server_id : string) (expires_at : option Z)
    (t : Z) : doc :=
  <["guild_id" := VInt guild_id]>
  (<["server_id" := VStr server_id]>
  (<["active" := VBool (bool_decide (is_Some expires_at))]>
  (<["expires_at" := from_option VTime VNone expires_at]>
  (<["updated_at" := VTime t]> ∅)))).

(** [DatabaseManager.set_premium_status] *)
Definition set_premium_status (guild_id : Z) (server_id : string)
    (expires_at : option Z) : db bool :=
  db_try
    (t ← db_now;
     let premium_doc := premium_doc guild_id server_id expires_at t in
     _ ← db_call (fun l =>
       match update_one (server_filter guild_id server_id) ∅ premium_doc (premium l) with
       | Ok c => (Ok tt, set_premium c l)
       | Raise e => (Raise e, l)
       end);
     mret true)
    except_Exception
    (fun _ => mret false).

(** [DatabaseManager.is_premium_server]; it has no [try] of its own.  A
    document the store finds carries the fields of the filter, so
    [not premium_doc] holds of [None] only. *)
Definition is_premium_server (guild_id : Z) (server_id : string) : db bool :=
  premium_doc ← db_call (fun l =>
    (Ok (coll_find_one (server_filter guild_id server_id) (premium l)), l));
  match premium_doc with
  | None => mret false
  | Some d =>
      if negb (get_truthy d "active") then mret false
      else
        expired ←
          (if get_truthy d "expires_at" then
             expires_at ← db_lift (of_option KeyError (d !! "expires_at"));
             t ← db_now;
             db_lift (py_lt_time expires_at t)
           else mret false);
        if (expired : bool) then
          _ ← set_premium_status guild_id server_id None;
          mret false
        else mret true
  end.

(** The filter of a wallet. *)
Definition wallet_filter (guild_id discord_id : Z) : doc :=
  <["guild_id" := VInt guild_id]> (<["discord_id" := VInt discord_id]> ∅).

(** The whole numbers of the store have 8 bytes. *)
Definition int64 (n : Z) : bool := (- 2 ^ 63 <=? n) && (n <? 2 ^ 63).

(** [$inc] of one field: a missing field is set to the amount, a number
    is added to, anything else is refused by the store; and so is a sum of
    whole numbers that does not fit 8 bytes. *)
Definition inc_field (k : string) (a : Z) (d : doc) : exc doc :=
  match d !! k with
  | None => Ok (<[k := VInt a]> d)
  | Some (VInt n) =>
      if int64 (n + a) then Ok (<[k := VInt (n + a)]> d) else Raise OtherError
  | Some (VFloat q) => Ok (<[k := VFloat (Qred (q + inject_Z a))]> d)
  | Some _ => Raise OtherError
  end.

Fixpoint inc_fields (incs : list (string * Z)) (d : doc) : exc doc :=
  match incs with
  | [] => Ok d
  | (k, a) :: rest => d' ← inc_field k a d; inc_fields rest d'
  end.

(** What the store does of
    [update_one(flt, {"$inc": incs, "$set": sets}, upsert=True)]: the first
    match is rewritten in place; without a match a document is made of the
    filter's equalities, the increments and the written fields. *)
Fixpoint coll_inc_first (flt : doc) (incs : list (string * Z)) (sets : doc)
    (c : collection) : exc (option collection) :=
  match c with
  | [] => Ok None
  | d :: c' =>
      if matches flt d then
        d' ← inc_fields incs d; Ok (Some (apply_set sets d' :: c'))
      else
        r ← coll_inc_first flt incs sets c'; Ok (option_map (cons d) r)
  end.

Definition coll_inc_upsert (flt : doc) (incs : list (string * Z)) (sets : doc)
    (c : collection) : exc collection :=
  r ← coll_inc_first flt incs sets c;
  match r with
  | Some c' => Ok c'
  | None => d ← inc_fields incs flt; Ok (c ++ [apply_set sets d])
  end.

(** The request as the driver sends it: an amount that does not fit 8
    bytes cannot be encoded, the driver raises [OverflowError] and the store
    is not asked. *)
Definition update_one_inc (flt : doc) (incs : list (string * Z)) (sets : doc)
    (c : collection) : exc collection :=
  if forallb (fun inc => int64 inc.2) incs then coll_inc_upsert flt incs sets c
  else Raise OtherError.

(** [DatabaseManager.update_wallet]; [transaction_type] is not used by
    it. *)
Definition update_wallet (guild_id discord_id amount : Z) (transaction_type : string)
    : db bool :=
  db_try
    (let incs :=
       [("balance", amount);
        (if 0 <? amount then ("total_earned", amount)
         else ("total_spent", Z.abs amount))] in
     t ← db_now;
     let sets : doc := <["last_updated" := VTime t]> ∅ in
     _ ← db_call (fun l =>
       match update_one_inc (wallet_filter guild_id discord_id) incs sets (economy l) with
       | Ok c => (Ok tt, set_economy c l)
       | Raise e => (Raise e, l)
       end);
     mret true)
    except_Exception
    (fun _ => mret false).

(** The wallet [get_wallet] makes for a member that has none. *)
Definition new_wallet (guild_id discord_id t : Z) : doc :=
  <["guild_id" := VInt guild_id]>
  (<["discord_id" := VInt discord_id]>
  (<["balance" := VInt 0]>
  (<["total_earned" := VInt 0]>
  (<["total_spent" := VInt 0]>
  (<["created_at" := VTime t]> ∅))))).

(** [DatabaseManager.get_wallet]; it has no [try] of its own. *)
Definition get_wallet (guild_id discord_id : Z) : db doc :=
  wallet ← db_call (fun l =>
    (Ok (coll_find_one (wallet_filter guild_id discord_id) (economy l)), l));
  match wallet with
  | Some d => mret d
  | None =>
      t ← db_now;
      let wallet := new_wallet guild_id discord_id t in
      _ ← db_call (fun l => (Ok tt, set_economy (coll_insert_one wallet (economy l)) l));
      mret wallet
  end.

(** ** The callers of the two parsers *)

Section Callers.
Context {L : PyLib}.

(** The [for server_config in servers] loop of [run_killfeed_parser]. *)
Fixpoint each_server (guild_id : Z) (servers : list server_config) : io unit :=
  match servers with
  | [] => mret tt
  | server_config :: rest =>
      _ ← KillfeedParser.parse_server_killfeed guild_id server_config;
      each_server guild_id rest
  end.

(** The [async for guild_doc in guilds_cursor] loop.  Of a guild document
    the loop reads [guild_doc['guild_id']], which raises [KeyError] when the
    field is missing, and [guild_doc.get('servers', [])]. *)
Fixpoint each_guild (guild_docs : list (option Z * list server_config)) : io unit :=
  match guild_docs with
  | [] => mret tt
  | (guild_id, servers) :: rest =>
      guild_id ← io_lift (of_option KeyError guild_id);
      _ ← each_server guild_id servers;
      each_guild rest
  end.

(** [KillfeedParser.run_killfeed_parser]; [guild_docs] is what
    [guilds.find({})] yields. *)
Definition run_killfeed_parser (guild_docs : list (option Z * list server_config))
    : io unit :=
  io_try
    (guilds_cursor ← external (fun w => (guild_docs, w));
     each_guild guilds_cursor)
    except_Exception
    (fun _ => mret tt).

(** [HistoricalParser.auto_refresh_after_server_add]; the wait of 30
    seconds before the refresh leaves the world as it is. *)
Definition auto_refresh_after_server_add (guild_id : Z) (cfg : server_config)
    : io unit :=
  io_try
    (_ ← HistoricalParser.refresh_server_data guild_id cfg None;
     mret tt)
    except_Exception
    (fun _ => mret tt).

End Callers.

(** * Properties *)

(** ** Notions used to state them *)

Local Open Scope list_scope.

(** What the parser makes of the distance field. *)
Definition distance_value {L : PyLib} (d : string) : Q :=
  if String.eqb d "" || String.eqb d "N/A" then 0%Q
  else match float_of_str d with
       | Some q => q
       | None => 0%Q
       end.

Definition carl_line : string :=
  "2024-01-01T00:00:00Z,Carl,Carl,Suicide_by_relocation,N/A".

(** [m] relates every world to the world it leaves, whether it returns or
    raises. *)
Definition io_rel {A} (R : world -> world -> Prop) (m : io A) : Prop :=
  forall w, R w (m w).2.

(** [m] returns, whatever the world. *)
Definition io_returns {A} (m : io A) : Prop :=
  forall w, exists a, (m w).1 = Ok a.

(** A relation that does not look at the outcomes still to come nor at the
    clock. *)
Class Stable (R : world -> world -> Prop) := {
  stable_pre :: PreOrder R;
  stable_outcomes : forall w o, R w (set_outcomes o w);
  stable_readings : forall w r, R w (set_readings r w)
}.

(** The fields a relation may leave alone. *)
Definition same_static (w w' : world) : Prop :=
  dev_mode w' = dev_mode w /\ sftp w' = sftp w /\ dev_data w' = dev_data w /\
  environ w' = environ w /\ killfeed_channel w' = killfeed_channel w.

Definition same_guards (w w' : world) : Prop :=
  active_refreshes w' = active_refreshes w.

Definition same_parsed (w w' : world) : Prop :=
  parsed_lines w' = parsed_lines w.

Definition same_pvp_data (w w' : world) : Prop :=
  pvp_data w' = pvp_data w.

Definition same_kill_events (w w' : world) : Prop :=
  kill_events w' = kill_events w.

(** A relation that, besides, does not look at the two collections nor at
    what was posted. *)
Class DbBlind (R : world -> world -> Prop) := {
  blind_stable :: Stable R;
  blind_pvp_data : forall w c, R w (set_pvp_data c w);
  blind_kill_events : forall w c, R w (set_kill_events c w);
  blind_sent : forall w s, R w (set_sent s w)
}.


(** A world to run examples in: empty store, nothing seen, no refresh under
    way, every call going through, the fixture directory holding one file
    with the given lines. *)
Definition unreachable_remote : remote :=
  Remote (fun _ _ _ _ => Raise OtherError) (fun _ => Raise OtherError)
         (fun _ => Raise OtherError).

Definition one_file (lines : list string) : local_dir :=
  LocalDir (Ok [("deathlog.csv", 1)]) (fun _ => Ok lines).

Definition empty_world (lines : list string) : world :=
  World [] [] ∅ ∅ [] [] [] true unreachable_remote (one_file lines) ∅ (fun _ => None).

Definition alice_bob_line : string := "2024-01-01T00:00:00Z,Alice,Bob,AK74,150.5".

Definition alice_kills_bob : kill_data :=
  KillData 1704067200 "Alice" "Bob" "AK74" (301 # 2) false alice_bob_line.

(** The dedup map with an entry for [key], made empty if there was none. *)
Definition with_key (key : string) (w : world) : world :=
  match parsed_lines w !! key with
  | Some _ => w
  | None => set_parsed_lines (<[key := ∅]> (parsed_lines w)) w
  end.

(** [line in self.parsed_lines[key]] *)
Definition seen (w : world) (key line : string) : Prop :=
  exists lines : gset string, parsed_lines w !! key = Some lines /\ line ∈ lines.

(** The world once [line] is added to the lines seen under [key]. *)
Definition marked (key line : string) (w : world) : world :=
  set_parsed_lines
    (<[key := {[line]} ∪ default ∅ (parsed_lines w !! key)]> (parsed_lines w)) w.

(** Lines once seen stay seen. *)
Definition seen_grows (w w' : world) : Prop :=
  forall key line, seen w key line -> seen w' key line.

(** A server whose credentials are all set. *)
Definition configured : server_config :=
  ServerConfig (Some "s1") (Some "game.example") (Some 22) (Some "bot") (Some "secret").

(** A far end that lists two logs and has lost the newer one by the time it
    is opened. *)
Definition rotating_remote : remote :=
  Remote
    (fun _ _ _ _ => Ok tt)
    (fun _ => Ok [("older.csv", 1); ("newer.csv", 2)])
    (fun path =>
       if Str.endswith "older.csv" path then Ok [alice_bob_line]
       else Raise FileNotFoundError).

(** The dedup map, the guard map and the surroundings are as they were. *)
Definition steady (w w' : world) : Prop :=
  parsed_lines w' = parsed_lines w /\ active_refreshes w' = active_refreshes w /\
  same_static w w'.

(** The document [add_kill_event] inserts for an event read at time [t]. *)
Definition event_doc (guild_id : Z) (server_id : string) (t : Z) (kd : kill_data) : doc :=
  kill_data_doc kd ∪
  (<["guild_id" := VInt guild_id]>
   (<["server_id" := VStr server_id]>
   (<["timestamp" := VTime t]> ∅))).

(** A server with records and a logged event left from before, next to
    another server of the guild. *)
Definition old_record (server_id player_name : string) (kills : Z) : doc :=
  <["kills" := VInt kills]> (default_stats 7 server_id player_name 0).

Definition stale_world (lines : list string) : world :=
  set_kill_events [event_doc 7 "s1" 0 alice_kills_bob]
    (set_pvp_data [old_record "s1" "Zed" 4; old_record "s2" "Yan" 2]
       (empty_world lines)).

(** Every guard but the one of [key] is as it was. *)
Definition guards_but (key : string) (w w' : world) : Prop :=
  forall k : string, k ≠ key -> active_refreshes w' !! k = active_refreshes w !! k.

(** At most one call runs under a key, and its guard is set. *)
Definition one_running (w : world) (ts : list task) : Prop :=
  (forall i g cfg ch st,
      ts !! i = Some (Running g cfg ch st) ->
      active_refreshes w !! HistoricalParser.refresh_key g cfg = Some true) /\
  (forall i j gi cfgi chi sti gj cfgj chj stj,
      ts !! i = Some (Running gi cfgi chi sti) ->
      ts !! j = Some (Running gj cfgj chj stj) ->
      HistoricalParser.refresh_key gi cfgi = HistoricalParser.refresh_key gj cfgj ->
      i = j).

Definition none_running (ts : list task) : Prop :=
  forall i g cfg ch st, ts !! i ≠ Some (Running g cfg ch st).

(** The events a historical run reads out of its lines, in file order. *)
Definition parsed_events {L : PyLib} (lines : list string) : list kill_data :=
  omap (fun line => if String.eqb (Str.strip line) "" then None else parse_csv_line line)
       lines.

(** [logged] holds one entry for each of [events], in order. *)
Definition logged_as (g : Z) (s : string) (events : list kill_data) (logged : collection)
    : Prop :=
  Forall2 (fun kd d => exists t, d = event_doc g s t kd) events logged.

(** A run on the way: every call has reached the far end, the store holds
    the records that were there of other servers, and its log what was there
    of other servers followed by what the run has logged. *)
Definition rebuilding (g : Z) (s : string) (others other_events : collection)
    (events : list kill_data) (w : world) : Prop :=
  outcomes w = [] /\
  pvp_data w = others /\
  (exists logged, kill_events w = other_events ++ logged /\ logged_as g s events logged).

(** The records of a server. *)
Definition server_records (g : Z) (s : string) (w : world) : collection :=
  List.filter (matches (server_filter g s)) (pvp_data w).

(** The records are the ones that were there, or those of them that are not
    of the server. *)
Definition kept_or_cleared (g : Z) (s : string) (w w' : world) : Prop :=
  pvp_data w' = pvp_data w \/
  pvp_data w' = coll_delete_many (server_filter g s) (pvp_data w).

(** ** Notions used by the further properties *)

(** No underscore occurs in [s]. *)
Fixpoint underscore_free (s : string) : Prop :=
  match s with
  | EmptyString => True
  | String c s' => c ≠ "_"%char /\ underscore_free s'
  end.

(** The lines of a file, none when it cannot be read. *)
Definition lines_of (read : string -> exc (list string)) (path : string) : list string :=
  match read path with
  | Ok ls => ls
  | Raise _ => []
  end.

(** The newer of two listed files, the first when they are as new. *)
Definition newer_of (a b : string * Z) : string * Z := if (a.2 <? b.2) then b else a.

(** One listed file is not newer than the other. *)
Definition not_newer (a b : string * Z) : Prop := a.2 <= b.2.

(** A far end with two logs and a file that is no log, listed out of
    order. *)
Definition archive_remote : remote :=
  Remote
    (fun _ _ _ _ => Ok tt)
    (fun _ => Ok [("late.csv", 9); ("notes.txt", 12); ("early.csv", 5)])
    (fun path =>
       if Str.endswith "late.csv" path then Ok [carl_line]
       else if Str.endswith "early.csv" path then Ok [alice_bob_line]
       else Raise FileNotFoundError).

(** The logged events of a server. *)
Definition server_events (g : Z) (s : string) (w : world) : collection :=
  List.filter (matches (server_filter g s)) (kill_events w).

(** Whatever the store holds that is not of server [s] of guild [g] is as
    it was, in the same order. *)
Definition others_kept (g : Z) (s : string) (w w' : world) : Prop :=
  coll_delete_many (server_filter g s) (pvp_data w')
    = coll_delete_many (server_filter g s) (pvp_data w) /\
  coll_delete_many (server_filter g s) (kill_events w')
    = coll_delete_many (server_filter g s) (kill_events w).

(** The records and the logged events of server [s] of guild [g] are as
    they were, and so is what [get_pvp_stats] finds of each of its players. *)
Definition untouched (g : Z) (s : string) (w w' : world) : Prop :=
  server_records g s w' = server_records g s w /\
  server_events g s w' = server_events g s w /\
  forall p, get_pvp_stats w' g s p = get_pvp_stats w g s p.

(** What the body of the [try] of [refresh_server_data] leaves of the guard
    map: the guard released when it returns, the map as it was when it
    raises. *)
Definition guard_after (key : string) (w0 : world) (r : exc bool) (w' : world) : Prop :=
  match r with
  | Ok _ => active_refreshes w' = <[key := false]> (active_refreshes w0)
  | Raise _ => active_refreshes w' = active_refreshes w0
  end.

(** The lines seen so far under [key]. *)
Definition seen_set (w : world) (key : string) : gset string :=
  default ∅ (parsed_lines w !! key).

(** The dedup map is as it was under every key but [key]. *)
Definition parsed_but (key : string) (w w' : world) : Prop :=
  forall k : string, k ≠ key -> parsed_lines w' !! k = parsed_lines w !! k.

(** The log of events holds what it held, followed by further entries. *)
Definition log_grows (w w' : world) : Prop :=
  kill_events w `prefix_of` kill_events w'.

(** The next call that leaves the process fails. *)
Definition next_fails (w : world) : bool :=
  match outcomes w with
  | true :: _ => true
  | _ => false
  end.

(** Leading white space dropped from a list of characters. *)
Fixpoint drop_spaces (l : list ascii) : list ascii :=
  match l with
  | [] => []
  | c :: l' => if Str.is_space c then drop_spaces l' else l
  end.

(** A suicide by falling, as the game logs it. *)
Definition dan_fall_line : string := "2024-01-01T00:00:00Z,Dan,Dan,Falling,0".

(** What a refresh called with [channel] may post: no feed embed, and
    progress that lies between one line and all the lines. *)
Definition refresh_notice (channel : option Z) (n : notice) : Prop :=
  match n with
  | KillfeedEmbed _ _ => False
  | StartingEmbed c => channel = Some c
  | ProgressEmbed c current total => channel = Some c /\ (1 <= current <= total)%nat
  | CompleteEmbed c _ _ => channel = Some c
  end.

(** What was posted is still there, followed by notices that satisfy
    [P]. *)
Definition posts (P : notice -> Prop) (w w' : world) : Prop :=
  exists new, sent w' = sent w ++ new /\ Forall P new.

(** What the live parser may post for guild [g]: feed embeds, in the
    channel the guild has set for them. *)
Definition feed_notice (channel : option Z) (n : notice) : Prop :=
  match n with
  | KillfeedEmbed c _ => channel = Some c
  | _ => False
  end.

(** The channel of the feed of each guild is as it was, and what was
    posted since is feed embeds in the channel of guild [g]. *)
Definition feed_posts (g : Z) (w w' : world) : Prop :=
  killfeed_channel w' = killfeed_channel w /\
  posts (feed_notice (killfeed_channel w g)) w w'.

(** The next call to the store fails. *)
Definition call_fails (l : ledger) : bool :=
  match faults l with
  | true :: _ => true
  | _ => false
  end.

(** The ledger once a call and a reading of the clock are used up. *)
Definition after_call (l : ledger) : ledger := set_faults (tail (faults l)) l.

Definition after_tick (l : ledger) : ledger := set_clock (tail (clock l)) l.

(** What [is_premium_server] finds for a server. *)
Definition premium_of (l : ledger) (g : Z) (s : string) : option doc :=
  coll_find_one (server_filter g s) (premium l).

(** A ledger to run examples in. *)
Definition empty_ledger (readings : list Z) : ledger := Ledger [] [] [] readings.

(** The wallet the store holds for a member, if any. *)
Definition wallet_of (l : ledger) (g u : Z) : option doc :=
  coll_find_one (wallet_filter g u) (economy l).

(** A counter of a wallet, read as 0 when the wallet or the field is
    missing. *)
Definition counter (o : option doc) (k : string) : Z :=
  match o ≫= (.!! k) with
  | Some (VInt n) => n
  | _ => 0
  end.

(** The field holds a whole number, or is missing. *)
Definition whole (o : option doc) (k : string) : Prop :=
  match o ≫= (.!! k) with
  | Some (VInt _) | None => True
  | Some _ => False
  end.

Definition whole_counters (o : option doc) : Prop :=
  whole o "balance" /\ whole o "total_earned" /\ whole o "total_spent".

(** The books of a wallet balance: what it holds is what was earned less
    what was spent. *)
Definition balanced (o : option doc) : Prop :=
  counter o "balance" = counter o "total_earned" - counter o "total_spent".

(** The world after the passes of the live parser over the servers of a
    guild, one after the other. *)
Definition server_passes {L : PyLib} (g : Z) (servers : list server_config) (w : world)
    : world :=
  foldl (fun w cfg => (KillfeedParser.parse_server_killfeed g cfg w).2) w servers.

(** The world after the passes over every server of every guild, in the
    order the store yields them. *)
Definition guild_passes {L : PyLib} (guild_docs : list (option Z * list server_config))
    (w : world) : world :=
  foldl (fun w gd => server_passes (default 0 gd.1) gd.2 w) w guild_docs.

(** ** Event Record Parser *)

Section ParserFacts.
Context {L : PyLib}.

Lemma parse_distance_total (d : string) : parse_distance d = Ok (distance_value d).
Proof.
  unfold parse_distance, distance_value.
  destruct (String.eqb d ""); simpl; [reflexivity|].
  destruct (String.eqb d "N/A"); simpl; [reflexivity|].
  destruct (float_of_str d); reflexivity.
Qed.

Lemma parse_timestamp_cases (ts : string) :
  (exists t, parse_timestamp ts = Ok t /\
     (fromisoformat (Str.replace "Z" "+00:00" ts) = Some t \/
      fromisoformat (Str.replace "Z" "+00:00" ts) = None /\ strptime_ymd_hms ts = Some t))
  \/ (parse_timestamp ts = Raise ValueError /\
      fromisoformat (Str.replace "Z" "+00:00" ts) = None /\ strptime_ymd_hms ts = None).
Proof.
  unfold parse_timestamp.
  destruct (fromisoformat _) as [t|] eqn:Hiso; simpl.
  - left. exists t. auto.
  - destruct (strptime_ymd_hms ts) as [t|] eqn:Hfix; simpl.
    + left. exists t. auto.
    + right. auto.
Qed.

Lemma parse_csv_line_short (line : string) :
  (length (Str.split "," (Str.strip line)) < 5)%nat ->
  parse_csv_line line = None.
Proof.
  intros Hlen. unfold parse_csv_line, parse_csv_line_body.
  apply Nat.ltb_lt in Hlen. rewrite Hlen. reflexivity.
Qed.

Lemma parse_csv_line_fields (line ts k v wp d : string) (rest : list string) :
  Str.split "," (Str.strip line) = ts :: k :: v :: wp :: d :: rest ->
  parse_csv_line line =
    match parse_timestamp ts with
    | Ok t => Some (KillData t k v (normalize_weapon (detect_suicide k v wp) wp)
                             (distance_value d) (detect_suicide k v wp)
                             (Str.strip line))
    | Raise _ => None
    end.
Proof.
  intros Hsplit. unfold parse_csv_line, parse_csv_line_body.
  rewrite Hsplit. simpl.
  destruct (parse_timestamp ts) as [t|e]; simpl; [|reflexivity].
  rewrite parse_distance_total. reflexivity.
Qed.

Lemma long_enough (parts : list string) :
  ~ (length parts < 5)%nat ->
  exists ts k v wp d rest, parts = ts :: k :: v :: wp :: d :: rest.
Proof.
  intros Hlen.
  destruct parts as [|ts [|k [|v [|wp [|d rest]]]]]; simpl in Hlen; try lia.
  eauto 10.
Qed.

Lemma relocation_token (wp : string) :
  Str.lower wp = "suicide_by_relocation" ->
  Str.contains "relocation" (Str.lower wp) = true.
Proof. intros ->. reflexivity. Qed.

Lemma normalize_weapon_spec (s : bool) (wp : string) :
  normalize_weapon s wp =
    if s then
      if Str.contains "relocation" (Str.lower wp) then menu_suicide else generic_suicide
    else wp.
Proof.
  unfold normalize_weapon. destruct s; [|reflexivity].
  destruct (Str.contains "relocation" (Str.lower wp)) eqn:Hc; [reflexivity|].
  destruct (String.eqb (Str.lower wp) "suicide_by_relocation") eqn:He; [|reflexivity].
  apply String.eqb_eq in He. apply relocation_token in He. congruence.
Qed.

(** C3.  On a line of five fields or more whose timestamp is accepted,
    [parse_csv_line] returns an event whose [is_suicide] is
    [killer == victim or weapon.lower().startswith('suicide')]; a suicide's
    weapon becomes the menu-suicide marker when the lowercased weapon
    contains "relocation" (the token "suicide_by_relocation" is such a
    weapon) and the generic marker otherwise, any other weapon is returned
    as it came.  The line of Carl gives a suicide with the menu-suicide
    marker and distance 0.0. *)
Theorem parse_csv_line_suicide :
  (forall (line ts k v wp d : string) (rest : list string) (t : Z),
      Str.split "," (Str.strip line) = ts :: k :: v :: wp :: d :: rest ->
      parse_timestamp ts = Ok t ->
      exists kd, parse_csv_line line = Some kd /\
        killer kd = k /\ victim kd = v /\
        is_suicide kd = (String.eqb k v || Str.startswith "suicide" (Str.lower wp)) /\
        weapon kd = (if is_suicide kd then
                       if Str.contains "relocation" (Str.lower wp)
                       then menu_suicide else generic_suicide
                     else wp) /\
        (Str.lower wp = "suicide_by_relocation" -> weapon kd = menu_suicide))
  /\ (forall t : Z,
      fromisoformat "2024-01-01T00:00:00+00:00" = Some t ->
      parse_csv_line carl_line =
        Some (KillData t "Carl" "Carl" menu_suicide 0 true carl_line)).
Proof.
  split.
  - intros line ts k v wp d rest t Hsplit Hts.
    rewrite (parse_csv_line_fields _ _ _ _ _ _ _ Hsplit), Hts.
    eexists. split; [reflexivity|]. simpl.
    repeat split; try reflexivity.
    + apply normalize_weapon_spec.
    + intros Htok. rewrite normalize_weapon_spec.
      unfold detect_suicide. rewrite (relocation_token _ Htok), Htok.
      simpl. rewrite orb_true_r. reflexivity.
  - intros t Hiso.
    rewrite (parse_csv_line_fields carl_line "2024-01-01T00:00:00Z" "Carl" "Carl"
               "Suicide_by_relocation" "N/A" []) by reflexivity.
    unfold parse_timestamp.
    change (Str.replace "Z" "+00:00" "2024-01-01T00:00:00Z")
      with "2024-01-01T00:00:00+00:00".
    rewrite Hiso. reflexivity.
Qed.

(** C8.  [parse_csv_line] returns no event exactly when the stripped line
    splits on commas into fewer than five fields, or when its first field
    is accepted neither by [fromisoformat] (after the zone letter is
    rewritten to the UTC offset) nor by the fixed pattern; when it returns
    an event, the distance is 0.0 for an empty, "N/A" or non-numeric fifth
    field and the parsed number otherwise. *)
Theorem parse_csv_line_failure (line : string) :
  (parse_csv_line line = None <->
     (length (Str.split "," (Str.strip line)) < 5)%nat \/
     exists ts, head (Str.split "," (Str.strip line)) = Some ts /\
       fromisoformat (Str.replace "Z" "+00:00" ts) = None /\
       strptime_ymd_hms ts = None)
  /\ (forall kd, parse_csv_line line = Some kd ->
        exists d, Str.split "," (Str.strip line) !! 4%nat = Some d /\
          distance kd = distance_value d /\
          (d = "" \/ d = "N/A" \/ float_of_str d = None -> distance kd = 0%Q)).
Proof.
  destruct (decide (length (Str.split "," (Str.strip line)) < 5)%nat) as [Hshort|Hlong].
  - rewrite (parse_csv_line_short _ Hshort). split; [tauto|discriminate].
  - destruct (long_enough _ Hlong) as (ts & k & v & wp & d & rest & Hsplit).
    rewrite (parse_csv_line_fields _ _ _ _ _ _ _ Hsplit), Hsplit. simpl.
    destruct (parse_timestamp_cases ts) as [(t & -> & Hacc)|(-> & Hiso & Hfix)].
    + split.
      * split; [discriminate|].
        intros [Hlen|(ts' & [= <-] & Hiso & Hfix)]; [simpl in Hlen; lia|].
        destruct Hacc as [Hacc|[_ Hacc]]; congruence.
      * intros kd [= <-]. exists d. simpl. repeat split.
        unfold distance_value.
        intros [->|[->|Hnum]]; [reflexivity|reflexivity|].
        rewrite Hnum. destruct (_ || _); reflexivity.
    + split; [|discriminate].
      split; [|reflexivity]. intros _. right. exists ts. auto.
Qed.

End ParserFacts.

Lemma parse_csv_line_suicide_witness :
  exists kd, @parse_csv_line Fixture.lib "2024-01-01T00:00:00Z,Alice,Bob,AK74,150.5" = Some kd /\
    killer kd = "Alice" /\ victim kd = "Bob" /\ is_suicide kd = false /\ weapon kd = "AK74".
Proof.
  destruct (proj1 (@parse_csv_line_suicide Fixture.lib)
              "2024-01-01T00:00:00Z,Alice,Bob,AK74,150.5"
              "2024-01-01T00:00:00Z" "Alice" "Bob" "AK74" "150.5" [] 1704067200
              eq_refl eq_refl) as (kd & Hp & Hk & Hv & Hs & Hw & _).
  exists kd. rewrite Hs in Hw. simpl in Hs, Hw. auto.
Defined.

(** ** Reasoning about coroutines *)

Section IoRel.
Context (R : world -> world -> Prop) `{!Stable R}.

Lemma io_rel_ret {A} (a : A) : io_rel R (mret a).
Proof. intros w. simpl. reflexivity. Qed.

Lemma io_rel_bind {A B} (m : io A) (k : A -> io B) :
  io_rel R m -> (forall a, io_rel R (k a)) -> io_rel R (m ≫= k).
Proof.
  intros Hm Hk w. unfold mbind, io_bind.
  specialize (Hm w). destruct (m w) as [[a|e] w1]; simpl in *; [|exact Hm].
  etransitivity; [exact Hm|apply Hk].
Qed.

Lemma io_rel_ret_bind {A B} (a : A) (k : A -> io B) :
  io_rel R (k a) -> io_rel R (mret a ≫= k).
Proof. intros Hk w. apply (Hk w). Qed.

Lemma io_rel_try {A} (m : io A) (handles : exn -> bool) (h : exn -> io A) :
  io_rel R m -> (forall e, io_rel R (h e)) -> io_rel R (io_try m handles h).
Proof.
  intros Hm Hh w. unfold io_try.
  specialize (Hm w). destruct (m w) as [[a|e] w1]; simpl in *; [exact Hm|].
  destruct (handles e); simpl; [|exact Hm].
  etransitivity; [exact Hm|apply Hh].
Qed.

Lemma io_rel_lift {A} (m : exc A) : io_rel R (io_lift m).
Proof. intros w. simpl. reflexivity. Qed.

Lemma io_rel_modify (f : world -> world) :
  (forall w, R w (f w)) -> io_rel R (io_modify f).
Proof. intros Hf w. apply Hf. Qed.

Lemma io_rel_external {A} (effect : world -> A * world) :
  (forall w, R w (effect w).2) -> io_rel R (external effect).
Proof.
  intros He w. unfold external.
  assert (Hthrough :
    R w (let (a, w') := effect (set_outcomes (tail (outcomes w)) w) in (Ok a, w')).2).
  { specialize (He (set_outcomes (tail (outcomes w)) w)).
    destruct (effect (set_outcomes (tail (outcomes w)) w)); simpl in *.
    etransitivity; [apply stable_outcomes|exact He]. }
  destruct (outcomes w) as [|[] o]; [exact Hthrough| |exact Hthrough].
  apply stable_outcomes.
Qed.

Lemma io_rel_now : io_rel R now.
Proof. intros w. unfold now. simpl. apply stable_readings. Qed.

Lemma io_rel_pure {A} (f : world -> exc A) : io_rel R (fun w => (f w, w)).
Proof. intros w. simpl. reflexivity. Qed.

End IoRel.

Lemma io_returns_ret {A} (a : A) : io_returns (mret a : io A).
Proof. intros w. exists a. reflexivity. Qed.

Lemma io_returns_try {A} (m : io A) (h : exn -> io A) :
  (forall e, io_returns (h e)) -> io_returns (io_try m except_Exception h).
Proof.
  intros Hh w. unfold io_try.
  destruct (m w) as [[a|e] w1]; simpl; [eauto|apply Hh].
Qed.

#[global] Instance same_static_stable : Stable same_static.
Proof.
  split; [split|..].
  - intros w. repeat split.
  - intros w1 w2 w3 (?&?&?&?&?) (?&?&?&?&?). repeat split; congruence.
  - intros w o. repeat split.
  - intros w r. repeat split.
Qed.

#[global] Instance same_guards_stable : Stable same_guards.
Proof.
  split; [split|..]; unfold same_guards.
  - intros w. reflexivity.
  - intros w1 w2 w3 ? ?. congruence.
  - reflexivity.
  - reflexivity.
Qed.

#[global] Instance same_parsed_stable : Stable same_parsed.
Proof.
  split; [split|..]; unfold same_parsed.
  - intros w. reflexivity.
  - intros w1 w2 w3 ? ?. congruence.
  - reflexivity.
  - reflexivity.
Qed.

#[global] Instance same_pvp_data_stable : Stable same_pvp_data.
Proof.
  split; [split|..]; unfold same_pvp_data.
  - intros w. reflexivity.
  - intros w1 w2 w3 ? ?. congruence.
  - reflexivity.
  - reflexivity.
Qed.

#[global] Instance same_kill_events_stable : Stable same_kill_events.
Proof.
  split; [split|..]; unfold same_kill_events.
  - intros w. reflexivity.
  - intros w1 w2 w3 ? ?. congruence.
  - reflexivity.
  - reflexivity.
Qed.

Create HintDb io_frame.

(** Splits a coroutine along its binds down to the calls it is made of. *)
Ltac io_rel_step :=
  lazymatch goal with
  | |- io_rel _ (mbind _ (mret _)) => apply io_rel_ret_bind
  | |- io_rel _ (mbind _ _) => apply io_rel_bind; [typeclasses eauto| |intros ?]
  | |- io_rel _ (io_try _ _ _) => apply io_rel_try; [typeclasses eauto| |intros ?]
  | |- io_rel _ (mret _) => apply io_rel_ret; typeclasses eauto
  | |- io_rel _ (io_lift _) => apply io_rel_lift; typeclasses eauto
  | |- io_rel _ now => apply io_rel_now; typeclasses eauto
  | |- io_rel _ (io_modify _) => apply io_rel_modify; intros ?
  | |- io_rel _ (external _) => apply io_rel_external; [typeclasses eauto|intros ?]
  | |- io_rel _ (if ?b then _ else _) => destruct b
  | |- io_rel _ (match ?x with _ => _ end) => destruct x
  end.

Ltac io_rel_tac :=
  repeat (first [ solve [auto with io_frame] | io_rel_step ]);
  try solve [ simpl; repeat split; reflexivity ].

(** A coroutine run step by step. *)
Lemma bind_run {A B} (m : io A) (k : A -> io B) (w : world) :
  (m ≫= k) w =
    match m w with
    | (Ok a, w') => k a w'
    | (Raise e, w') => (Raise e, w')
    end.
Proof. reflexivity. Qed.

Lemma try_run {A} (m : io A) (handles : exn -> bool) (h : exn -> io A) (w : world) :
  io_try m handles h w =
    match m w with
    | (Ok a, w') => (Ok a, w')
    | (Raise e, w') => if handles e then h e w' else (Raise e, w')
    end.
Proof. reflexivity. Qed.

Lemma ret_bind_run {A B} (a : A) (k : A -> io B) (w : world) :
  (mret a ≫= k) w = k a w.
Proof. reflexivity. Qed.

Lemma now_bind_run {A} (k : Z -> io A) (w : world) :
  (now ≫= k) w = k (hd 0 (readings w)) (set_readings (tail (readings w)) w).
Proof. reflexivity. Qed.

Lemma bind_assoc_run {A B C} (m : io A) (k1 : A -> io B) (k2 : B -> io C) (w : world) :
  ((m ≫= k1) ≫= k2) w = (m ≫= λ x, k1 x ≫= k2) w.
Proof. unfold mbind, io_bind. destruct (m w) as [[a|e] w']; reflexivity. Qed.

#[global] Instance same_static_blind : DbBlind same_static.
Proof. split; [typeclasses eauto|..]; intros; repeat split. Qed.

#[global] Instance same_guards_blind : DbBlind same_guards.
Proof. split; [typeclasses eauto|..]; intros; reflexivity. Qed.

#[global] Instance same_parsed_blind : DbBlind same_parsed.
Proof. split; [typeclasses eauto|..]; intros; reflexivity. Qed.

(** ** What the store calls leave alone *)

Section Frames.
Context (R : world -> world -> Prop) `{!DbBlind R}.

Lemma update_pvp_stats_blind (g : Z) (s p : string) (upd : doc) :
  io_rel R (update_pvp_stats g s p upd).
Proof.
  unfold update_pvp_stats, calculate_kdr. io_rel_tac.
  all: simpl; try destruct (update_one _ _ _ _); simpl;
    first [reflexivity | apply blind_pvp_data].
Qed.

Lemma add_kill_event_blind (g : Z) (s : string) (kd : kill_data) :
  io_rel R (add_kill_event g s kd).
Proof.
  unfold add_kill_event. io_rel_tac. simpl. apply blind_kill_events.
Qed.

Lemma send_killfeed_embed_blind (g : Z) (kd : kill_data) :
  io_rel R (KillfeedParser.send_killfeed_embed g kd).
Proof.
  unfold KillfeedParser.send_killfeed_embed. io_rel_tac.
  all: simpl; first [reflexivity | apply blind_sent].
Qed.

Hint Resolve update_pvp_stats_blind add_kill_event_blind
  send_killfeed_embed_blind : io_frame.

Lemma process_kill_event_blind (g : Z) (s : string) (kd : kill_data) :
  io_rel R (KillfeedParser.process_kill_event g s kd).
Proof. unfold KillfeedParser.process_kill_event. io_rel_tac. Qed.

Lemma clear_server_data_blind (g : Z) (s : string) :
  io_rel R (HistoricalParser.clear_server_data g s).
Proof.
  unfold HistoricalParser.clear_server_data. io_rel_tac.
  all: simpl; first [apply blind_pvp_data | apply blind_kill_events].
Qed.

Lemma post_blind (n : notice) : io_rel R (HistoricalParser.post n).
Proof. unfold HistoricalParser.post. io_rel_tac. simpl. apply blind_sent. Qed.

Hint Resolve post_blind : io_frame.

Lemma update_progress_embed_blind (ch : Z) (current total : nat) :
  io_rel R (HistoricalParser.update_progress_embed ch current total).
Proof. unfold HistoricalParser.update_progress_embed. io_rel_tac. Qed.

Lemma complete_progress_embed_blind (ch : Z) (n : nat) (d : Z) :
  io_rel R (HistoricalParser.complete_progress_embed ch n d).
Proof. unfold HistoricalParser.complete_progress_embed. io_rel_tac. Qed.

Hint Resolve update_progress_embed_blind complete_progress_embed_blind
  clear_server_data_blind process_kill_event_blind : io_frame.

Context {L : PyLib}.

Lemma record_historical_blind (g : Z) (s : string) (kd : kill_data) :
  io_rel R (HistoricalParser.record_historical g s kd).
Proof. unfold HistoricalParser.record_historical. io_rel_tac. Qed.

Hint Resolve record_historical_blind : io_frame.

Lemma refresh_loop_blind (g : Z) (s : string) (em : option Z) (total : nat)
    (lines : list string) :
  forall (i n : nat) (last : Z),
    io_rel R (HistoricalParser.refresh_loop g s em total lines i n last).
Proof.
  induction lines as [|line rest IH]; intros i n last; simpl.
  - io_rel_tac.
  - destruct (String.eqb (Str.strip line) ""); [apply IH|].
    io_rel_tac.
Qed.

End Frames.

#[global] Hint Extern 1 (io_rel _ (update_pvp_stats _ _ _ _)) =>
  apply update_pvp_stats_blind; typeclasses eauto : io_frame.
#[global] Hint Extern 1 (io_rel _ (add_kill_event _ _ _)) =>
  apply add_kill_event_blind; typeclasses eauto : io_frame.
#[global] Hint Extern 1 (io_rel _ (KillfeedParser.send_killfeed_embed _ _)) =>
  apply send_killfeed_embed_blind; typeclasses eauto : io_frame.
#[global] Hint Extern 1 (io_rel _ (KillfeedParser.process_kill_event _ _ _)) =>
  apply process_kill_event_blind; typeclasses eauto : io_frame.
#[global] Hint Extern 1 (io_rel _ (HistoricalParser.clear_server_data _ _)) =>
  apply clear_server_data_blind; typeclasses eauto : io_frame.
#[global] Hint Extern 1 (io_rel _ (HistoricalParser.post _)) =>
  apply post_blind; typeclasses eauto : io_frame.
#[global] Hint Extern 1 (io_rel _ (HistoricalParser.update_progress_embed _ _ _)) =>
  apply update_progress_embed_blind; typeclasses eauto : io_frame.
#[global] Hint Extern 1 (io_rel _ (HistoricalParser.complete_progress_embed _ _ _)) =>
  apply complete_progress_embed_blind; typeclasses eauto : io_frame.
#[global] Hint Extern 1 (io_rel _ (HistoricalParser.record_historical _ _ _)) =>
  apply record_historical_blind; typeclasses eauto : io_frame.
#[global] Hint Extern 1 (io_rel _ (HistoricalParser.refresh_loop _ _ _ _ _ _ _ _)) =>
  apply refresh_loop_blind; typeclasses eauto : io_frame.

(** ** Collections and the counters of a record *)

Lemma matches_pvp_filter (g : Z) (s p : string) (d : doc) :
  matches (pvp_filter g s p) d = true <->
  d !! "guild_id" = Some (VInt g) /\ d !! "server_id" = Some (VStr s) /\
  d !! "player_name" = Some (VStr p).
Proof.
  unfold matches, pvp_filter. rewrite bool_decide_eq_true.
  rewrite !map_Forall_insert by (by simplify_map_eq).
  split.
  - intros (Hg & Hs & Hp & _). auto.
  - intros (Hg & Hs & Hp). repeat split; auto. apply map_Forall_empty.
Qed.

Lemma matches_server_filter (g : Z) (s : string) (d : doc) :
  matches (server_filter g s) d = true <->
  d !! "guild_id" = Some (VInt g) /\ d !! "server_id" = Some (VStr s).
Proof.
  unfold matches, server_filter. rewrite bool_decide_eq_true.
  rewrite !map_Forall_insert by (by simplify_map_eq).
  split.
  - intros (Hg & Hs & _). auto.
  - intros (Hg & Hs). repeat split; auto. apply map_Forall_empty.
Qed.

Lemma find_app (flt : doc) (c1 c2 : collection) :
  coll_find_one flt (c1 ++ c2) =
    match coll_find_one flt c1 with
    | Some d => Some d
    | None => coll_find_one flt c2
    end.
Proof.
  unfold coll_find_one. induction c1 as [|d c1 IH]; simpl; [reflexivity|].
  destruct (matches flt d); [reflexivity|exact IH].
Qed.

Lemma find_in (flt : doc) (c : collection) (d : doc) :
  coll_find_one flt c = Some d -> d ∈ c /\ matches flt d = true.
Proof.
  unfold coll_find_one. intros H. apply find_some in H as [Hin Hm].
  split; [apply list_elem_of_In; exact Hin|exact Hm].
Qed.

Lemma external_inv {A} (effect : world -> A * world) (w : world) (r : exc A) (w' : world) :
  external effect w = (r, w') ->
  (r = Raise OtherError /\ exists o, w' = set_outcomes o w) \/
  exists a w0, r = Ok a /\ (exists o, w0 = set_outcomes o w) /\
    effect w0 = (a, w').
Proof.
  unfold external.
  assert (Hthrough :
    (let (a, w1) := effect (set_outcomes (tail (outcomes w)) w) in (Ok a, w1)) = (r, w') ->
    exists a w0, r = Ok a /\ (exists o, w0 = set_outcomes o w) /\ effect w0 = (a, w')).
  { destruct (effect (set_outcomes (tail (outcomes w)) w)) as [a w1] eqn:He.
    intros [= <- <-]. exists a, (set_outcomes (tail (outcomes w)) w). eauto. }
  destruct (outcomes w) as [|[] o]; [auto| |auto].
  intros [= <- <-]. left. eauto.
Qed.

Lemma now_inv (w : world) (r : exc Z) (w' : world) :
  now w = (r, w') -> exists t, r = Ok t /\ exists rd, w' = set_readings rd w.
Proof. unfold now. intros [= <- <-]. eauto. Qed.

(** *** What the store answers to [update_pvp_stats] *)

Lemma names_twice_shared (on_insert fields : doc) (k : string) (v v' : value) :
  on_insert !! k = Some v -> fields !! k = Some v' ->
  names_twice on_insert fields = true.
Proof.
  intros Ho Hf. unfold names_twice. apply negb_true_iff, bool_decide_eq_false.
  intros Hall. specialize (Hall k v' Hf). simpl in Hall. congruence.
Qed.

Lemma names_operator_inc (counter : string) (t : Z) :
  names_operator (<["last_updated" := VTime t]> (inc_request counter)) = true.
Proof.
  unfold names_operator. apply negb_true_iff, bool_decide_eq_false.
  intros Hall. specialize (Hall "$inc" (VDoc [(counter, 1)])).
  simpl in Hall. discriminate Hall. reflexivity.
Qed.

(** The request of [update_pvp_stats] carries [last_updated] under
    [$setOnInsert], with the defaults, and under [$set], with the update:
    the store refuses it, whatever the update and whatever it holds. *)
Lemma update_one_refused (g : Z) (s p : string) (t0 t1 : Z) (upd : doc) (c : collection) :
  update_one (pvp_filter g s p) (default_stats g s p t0)
             (<["last_updated" := VTime t1]> upd) c = Raise OtherError.
Proof.
  unfold update_one.
  rewrite (names_twice_shared (default_stats g s p t0) _ "last_updated"
             (VTime t0) (VTime t1)); [reflexivity|reflexivity|apply lookup_insert_eq].
Qed.

Lemma calculate_kdr_same_data (g : Z) (s p : string) (upd : doc) :
  io_rel same_pvp_data (calculate_kdr g s p upd).
Proof. unfold calculate_kdr. io_rel_tac; reflexivity. Qed.

Lemma calculate_kdr_same_events (g : Z) (s p : string) (upd : doc) :
  io_rel same_kill_events (calculate_kdr g s p upd).
Proof. unfold calculate_kdr. io_rel_tac; reflexivity. Qed.

(** So [update_pvp_stats] returns [False] and writes nothing. *)
Lemma update_pvp_stats_refused (g : Z) (s p : string) (upd : doc) (w : world) :
  (update_pvp_stats g s p upd w).1 = Ok false /\
  pvp_data (update_pvp_stats g s p upd w).2 = pvp_data w /\
  kill_events (update_pvp_stats g s p upd w).2 = kill_events w.
Proof.
  unfold update_pvp_stats. rewrite try_run, now_bind_run.
  set (w0 := set_readings (tail (readings w)) w).
  rewrite bind_run.
  pose proof (calculate_kdr_same_data g s p upd w0) as Hp.
  pose proof (calculate_kdr_same_events g s p upd w0) as Hk.
  unfold same_pvp_data, same_kill_events in Hp, Hk.
  destruct (calculate_kdr g s p upd w0) as [[upd1|e] w1]; simpl in Hp, Hk.
  - rewrite now_bind_run, bind_run. unfold external.
    destruct (outcomes (set_readings (tail (readings w1)) w1)) as [|[|] o];
      cbn [pvp_data set_outcomes set_readings];
      rewrite ?update_one_refused; simpl; rewrite Hp, Hk; auto.
  - simpl. rewrite Hp, Hk. auto.
Qed.

Lemma update_pvp_stats_same_data (g : Z) (s p : string) (upd : doc) :
  io_rel same_pvp_data (update_pvp_stats g s p upd).
Proof. intros w. apply (update_pvp_stats_refused g s p upd w). Qed.

Lemma add_kill_event_same_data (g : Z) (s : string) (kd : kill_data) :
  io_rel same_pvp_data (add_kill_event g s kd).
Proof. unfold add_kill_event. io_rel_tac; reflexivity. Qed.

Lemma send_killfeed_embed_same_data (g : Z) (kd : kill_data) :
  io_rel same_pvp_data (KillfeedParser.send_killfeed_embed g kd).
Proof. unfold KillfeedParser.send_killfeed_embed. io_rel_tac; reflexivity. Qed.

(** On either ingestion path the records are after an event what they were
    before it. *)
Lemma process_kill_event_same_data (g : Z) (s : string) (kd : kill_data) :
  io_rel same_pvp_data (KillfeedParser.process_kill_event g s kd).
Proof.
  unfold KillfeedParser.process_kill_event.
  pose proof update_pvp_stats_same_data.
  pose proof add_kill_event_same_data.
  pose proof send_killfeed_embed_same_data.
  io_rel_tac.
Qed.

Lemma record_historical_same_data (g : Z) (s : string) (kd : kill_data) :
  io_rel same_pvp_data (HistoricalParser.record_historical g s kd).
Proof.
  unfold HistoricalParser.record_historical.
  pose proof update_pvp_stats_same_data.
  pose proof add_kill_event_same_data.
  io_rel_tac.
Qed.

Lemma process_kill_event_counters_frozen (w : world) (g : Z) (s : string)
    (kd : kill_data) (g' : Z) (s' p : string) :
  get_pvp_stats (KillfeedParser.process_kill_event g s kd w).2 g' s' p =
  get_pvp_stats w g' s' p.
Proof.
  unfold get_pvp_stats. rewrite (process_kill_event_same_data g s kd w). reflexivity.
Qed.

(** C2 (the code departs from it).  A player-versus-player kill applied to
    an empty store, every call reaching the store: the event is logged, and
    neither the killer nor the victim has a record after it, where the spec
    has the killer's record made with [kills] 1 and the victim's with
    [deaths] 1.  Whatever the store holds and whatever the event, every
    record is after the event what it was before: no counter moves. *)
Theorem process_kill_event_alice_bob :
  (let r := KillfeedParser.process_kill_event 7 "s1" alice_kills_bob (empty_world []) in
   r.1 = Ok tt /\
   get_pvp_stats r.2 7 "s1" "Alice" = None /\
   get_pvp_stats r.2 7 "s1" "Bob" = None /\
   pvp_data r.2 = [] /\
   kill_events r.2 = [event_doc 7 "s1" 0 alice_kills_bob]) /\
  (forall (w : world) (g : Z) (s : string) (kd : kill_data) (g' : Z) (s' p : string),
     get_pvp_stats (KillfeedParser.process_kill_event g s kd w).2 g' s' p =
     get_pvp_stats w g' s' p).
Proof.
  split.
  - cbv zeta. split; [|split; [|split; [|split]]]; vm_compute; reflexivity.
  - intros. apply process_kill_event_counters_frozen.
Qed.

(** ** Stats Aggregator: the KDR block *)

Lemma floor_at_one (dv : value) (dth : Q) (m : value) :
  as_number dv = Some dth -> py_max dv (VInt 1) = Ok m ->
  exists y : Q, as_number m = Some y /\ (y == Qmax dth 1)%Q /\ Qeq_bool y 0 = false.
Proof.
  intros Hd. unfold py_max. rewrite Hd. simpl.
  change (inject_Z 1) with 1%Q.
  destruct (Qle_bool 1 dth) eqn:Hle; intros [= <-].
  - apply Qle_bool_iff in Hle. exists dth. split; [exact Hd|]. split.
    + symmetry. apply Q.max_l. exact Hle.
    + apply not_true_is_false. intros Hz. apply Qeq_bool_iff in Hz.
      rewrite Hz in Hle. unfold Qle in Hle. simpl in Hle. lia.
  - exists 1%Q. split; [reflexivity|]. split; [|reflexivity].
    symmetry. apply Q.max_r. apply Qlt_le_weak, Qnot_le_lt.
    intros Hle'. apply Qle_bool_iff in Hle'. congruence.
Qed.

Lemma py_max_number (dv m : value) :
  py_max dv (VInt 1) = Ok m -> exists dth, as_number dv = Some dth.
Proof.
  unfold py_max. destruct (as_number dv) as [dth|]; [eauto|discriminate].
Qed.


Lemma truediv_value (kv m : value) (y : Q) (r : value) :
  as_number m = Some y -> py_truediv kv m = Ok r ->
  exists k, as_number kv = Some k /\ r = VFloat (Qred (k / y)).
Proof.
  intros Hy. unfold py_truediv. rewrite Hy.
  destruct (as_number kv) as [k'|]; [|discriminate].
  destruct (Qeq_bool y 0); [discriminate|]. intros [= <-]. eauto.
Qed.

Lemma calculate_kdr_inv (g : Z) (s p : string) (upd upd1 : doc) (w w1 : world) :
  doc_has "kills" upd || doc_has "deaths" upd = true ->
  calculate_kdr g s p upd w = (Ok upd1, w1) ->
  pvp_data w1 = pvp_data w /\
  exists (kv dv : value) (k dth q : Q),
    current_or_zero (coll_find_one (pvp_filter g s p) (pvp_data w)) "kills" = Ok kv /\
    current_or_zero (coll_find_one (pvp_filter g s p) (pvp_data w)) "deaths" = Ok dv /\
    as_number (default kv (upd !! "kills")) = Some k /\
    as_number (default dv (upd !! "deaths")) = Some dth /\
    (q == k / Qmax dth 1)%Q /\
    upd1 = <["kdr" := VFloat q]> upd.
Proof.
  intros Hhas. unfold calculate_kdr. rewrite Hhas.
  unfold mbind, io_bind.
  destruct (external _ w) as [r w0] eqn:Hext.
  apply external_inv in Hext as [[-> _]|(cur & w00 & -> & Hw00 & Heff)]; [discriminate|].
  injection Heff as <- <-.
  assert (Hp : pvp_data w00 = pvp_data w) by (destruct Hw00 as [o ->]; reflexivity).
  rewrite Hp. unfold io_lift.
  destruct (current_or_zero _ "kills") as [kv|] eqn:Hkv; [|discriminate].
  destruct (current_or_zero _ "deaths") as [dv|] eqn:Hdv; [|discriminate].
  unfold exc_bind.
  destruct (py_max (default dv (upd !! "deaths")) (VInt 1)) as [m|] eqn:Hm; [|discriminate].
  destruct (py_truediv (default kv (upd !! "kills")) m) as [r|] eqn:Hr; [|discriminate].
  simpl. intros [= <- <-]. split; [exact Hp|].
  destruct (py_max_number _ _ Hm) as [dth Hd].
  destruct (floor_at_one _ _ _ Hd Hm) as (y & Hy & Hymax & _).
  destruct (truediv_value _ _ y _ Hy Hr) as (k & Hk & ->).
  exists kv, dv, k, dth, (Qred (k / y)). repeat split; auto.
  rewrite Qred_correct, Hymax. reflexivity.
Qed.

Lemma calculate_kdr_skipped (g : Z) (s p counter : string) :
  calculate_kdr g s p (inc_request counter) = mret (inc_request counter).
Proof. reflexivity. Qed.

(** ** Incremental ingestion and its dedup map *)

Lemma process_kill_event_returns (g : Z) (s : string) (kd : kill_data) (w : world) :
  exists w', KillfeedParser.process_kill_event g s kd w = (Ok tt, w') /\
    parsed_lines w' = parsed_lines w.
Proof.
  pose proof (process_kill_event_blind same_parsed g s kd w) as Hp.
  assert (Hr : io_returns (KillfeedParser.process_kill_event g s kd)).
  { apply io_returns_try. intros e. apply io_returns_ret. }
  destruct (Hr w) as [[] Ha].
  destruct (KillfeedParser.process_kill_event g s kd w) as [r w'].
  simpl in *. subst r. eauto.
Qed.

Section Incremental.
Context {L : PyLib}.

Lemma killfeed_loop_blank (g : Z) (s key line : string) (rest : list string)
    (n : nat) (w : world) :
  Str.strip line = "" ->
  KillfeedParser.killfeed_loop g s key (line :: rest) n w =
  KillfeedParser.killfeed_loop g s key rest n w.
Proof.
  intros Hb. simpl. rewrite Hb. reflexivity.
Qed.

Lemma killfeed_loop_seen (g : Z) (s key line : string) (rest : list string)
    (n : nat) (w : world) :
  seen w key line ->
  KillfeedParser.killfeed_loop g s key (line :: rest) n w =
  KillfeedParser.killfeed_loop g s key rest n w.
Proof.
  intros (lines & Hk & Hin). simpl.
  destruct (String.eqb (Str.strip line) ""); [reflexivity|].
  unfold mbind at 1, io_bind. unfold mbind at 1, io_bind.
  unfold KillfeedParser.parsed_for. rewrite Hk. simpl.
  rewrite bool_decide_eq_true_2 by exact Hin. reflexivity.
Qed.

Lemma killfeed_loop_unparsed (g : Z) (s key line : string) (rest : list string)
    (n : nat) (w : world) :
  is_Some (parsed_lines w !! key) ->
  parse_csv_line line = None ->
  KillfeedParser.killfeed_loop g s key (line :: rest) n w =
  KillfeedParser.killfeed_loop g s key rest n w.
Proof.
  intros [lines Hk] Hp. simpl.
  destruct (String.eqb (Str.strip line) ""); [reflexivity|].
  unfold mbind at 1, io_bind. unfold mbind at 1, io_bind.
  unfold KillfeedParser.parsed_for. rewrite Hk. simpl.
  destruct (bool_decide (line ∈ lines)); [reflexivity|].
  rewrite Hp. reflexivity.
Qed.

Lemma killfeed_loop_new (g : Z) (s key line : string) (rest : list string)
    (n : nat) (w : world) (kd : kill_data) :
  is_Some (parsed_lines w !! key) ->
  Str.strip line ≠ "" -> ~ seen w key line ->
  parse_csv_line line = Some kd ->
  KillfeedParser.killfeed_loop g s key (line :: rest) n w =
  KillfeedParser.killfeed_loop g s key rest (S n)
    (marked key line (KillfeedParser.process_kill_event g s kd w).2).
Proof.
  intros [lines Hk] Hb Hs Hp. simpl.
  apply String.eqb_neq in Hb. rewrite Hb.
  unfold mbind at 1, io_bind. unfold mbind at 1, io_bind.
  unfold KillfeedParser.parsed_for. rewrite Hk. simpl.
  rewrite bool_decide_eq_false_2 by (intros Hin; apply Hs; exists lines; auto).
  rewrite Hp.
  destruct (process_kill_event_returns g s kd w) as (w1 & Hrun & Hpl).
  unfold mbind at 1, io_bind. rewrite Hrun. simpl.
  unfold mbind at 1, io_bind. unfold KillfeedParser.mark_parsed, marked.
  rewrite Hpl, Hk. reflexivity.
Qed.

End Incremental.
#[global] Instance seen_grows_stable : Stable seen_grows.
Proof.
  split; [split|..]; unfold seen_grows, seen.
  - intros w key line H. exact H.
  - intros w1 w2 w3 H12 H23 key line H. auto.
  - intros w o key line H. exact H.
  - intros w r key line H. exact H.
Qed.

#[global] Instance seen_grows_blind : DbBlind seen_grows.
Proof. split; [typeclasses eauto|..]; intros w c key line H; exact H. Qed.

Lemma mark_parsed_grows (key line : string) :
  io_rel seen_grows (KillfeedParser.mark_parsed key line).
Proof.
  intros w k l (lines & Hk & Hin). unfold KillfeedParser.mark_parsed.
  destruct (parsed_lines w !! key) as [sn|] eqn:Hkey; simpl; [|exists lines; auto].
  unfold seen. simpl. destruct (decide (key = k)) as [<-|Hne].
  - rewrite lookup_insert_eq. eexists. split; [reflexivity|].
    rewrite Hk in Hkey. injection Hkey as <-. set_solver.
  - rewrite lookup_insert_ne by exact Hne. eauto.
Qed.

Lemma with_key_present (key : string) (w : world) :
  is_Some (parsed_lines (with_key key w) !! key).
Proof.
  unfold with_key. destruct (parsed_lines w !! key) eqn:Hk.
  - rewrite Hk. eauto.
  - simpl. rewrite lookup_insert_eq. eauto.
Qed.

Lemma with_key_idem (key : string) (w : world) :
  is_Some (parsed_lines w !! key) -> with_key key w = w.
Proof. intros [lines Hk]. unfold with_key. rewrite Hk. reflexivity. Qed.

Lemma with_key_seen (key k line : string) (w : world) :
  seen (with_key key w) k line <-> seen w k line.
Proof.
  unfold with_key. destruct (parsed_lines w !! key) as [sn|] eqn:Hk; [reflexivity|].
  unfold seen. simpl. destruct (decide (key = k)) as [<-|Hne].
  - rewrite lookup_insert_eq, Hk. split; intros (lines & Hl & Hin); [|discriminate].
    injection Hl as <-. set_solver.
  - rewrite lookup_insert_ne by exact Hne. reflexivity.
Qed.

Lemma with_key_fields (key : string) (w : world) :
  pvp_data (with_key key w) = pvp_data w /\
  kill_events (with_key key w) = kill_events w /\
  outcomes (with_key key w) = outcomes w.
Proof. unfold with_key. destruct (parsed_lines w !! key); auto. Qed.

Lemma marked_seen (key line : string) (w : world) : seen (marked key line w) key line.
Proof.
  unfold seen, marked. simpl. rewrite lookup_insert_eq.
  eexists. split; [reflexivity|]. set_solver.
Qed.

Lemma marked_present (key line : string) (w : world) :
  is_Some (parsed_lines (marked key line w) !! key).
Proof. unfold marked. simpl. rewrite lookup_insert_eq. eauto. Qed.

Section IncrementalRuns.
Context {L : PyLib}.

Lemma ingest_lines_eq (g : Z) (s : string) (lines : list string) (w : world) :
  KillfeedParser.ingest_lines g s lines w =
  KillfeedParser.killfeed_loop g s (KillfeedParser.server_key g s) lines 0
    (with_key (KillfeedParser.server_key g s) w).
Proof.
  unfold KillfeedParser.ingest_lines, mbind, io_bind, io_modify, with_key.
  destruct (parsed_lines w !! KillfeedParser.server_key g s); reflexivity.
Qed.

Lemma killfeed_loop_grows (g : Z) (s key : string) (lines : list string) :
  forall n, io_rel seen_grows (KillfeedParser.killfeed_loop g s key lines n).
Proof.
  pose proof mark_parsed_grows.
  induction lines as [|line rest IH]; intros n; simpl.
  - io_rel_tac.
  - unfold KillfeedParser.parsed_for. io_rel_tac.
    all: try (apply io_rel_pure; typeclasses eauto).
    all: destruct (parse_csv_line line); io_rel_tac.
Qed.

Lemma ingest_lines_grows (g : Z) (s : string) (lines : list string) (w : world)
    (key line : string) :
  seen w key line -> seen (KillfeedParser.ingest_lines g s lines w).2 key line.
Proof.
  intros Hs. rewrite ingest_lines_eq.
  apply (killfeed_loop_grows g s _ lines 0%nat (with_key _ w)).
  apply with_key_seen. exact Hs.
Qed.

(** Whether [line] is seen can be told. *)
Lemma seen_dec (w : world) (key line : string) : {seen w key line} + {~ seen w key line}.
Proof.
  unfold seen. destruct (parsed_lines w !! key) as [lines|].
  - destruct (decide (line ∈ lines)) as [Hin|Hout].
    + left. eauto.
    + right. intros (l & [= <-] & Hin). auto.
  - right. intros (l & Hl & _). discriminate.
Qed.



End IncrementalRuns.

(** A call that raises leaves the collections as they were. *)
Lemma add_kill_event_fault (g : Z) (s : string) (kd : kill_data) (w : world) (o : list bool) :
  outcomes w = true :: o ->
  kill_events (add_kill_event g s kd w).2 = kill_events w /\
  pvp_data (add_kill_event g s kd w).2 = pvp_data w /\
  outcomes (add_kill_event g s kd w).2 = o.
Proof.
  intros Ho. unfold add_kill_event, io_try, mbind, io_bind.
  destruct (now w) as [r0 w0] eqn:Hn0.
  apply now_inv in Hn0 as (t0 & -> & Hw0).
  assert (Ho0 : outcomes w0 = true :: o) by (destruct Hw0 as [rd ->]; exact Ho).
  unfold external. rewrite Ho0. simpl.
  destruct Hw0 as [rd ->]; auto.
Qed.

Lemma update_pvp_stats_inc_fault (g : Z) (s p counter : string) (w : world) (o : list bool) :
  outcomes w = true :: o ->
  kill_events (update_pvp_stats g s p (inc_request counter) w).2 = kill_events w /\
  pvp_data (update_pvp_stats g s p (inc_request counter) w).2 = pvp_data w /\
  outcomes (update_pvp_stats g s p (inc_request counter) w).2 = o.
Proof.
  intros Ho. unfold update_pvp_stats, calculate_kdr.
  replace (doc_has "kills" (inc_request counter) || doc_has "deaths" (inc_request counter))
    with false by reflexivity.
  unfold io_try, mbind, io_bind.
  destruct (now w) as [r0 w0] eqn:Hn0.
  apply now_inv in Hn0 as (t0 & -> & Hw0).
  cbn [mret io_ret].
  destruct (now w0) as [r1 w1] eqn:Hn1.
  apply now_inv in Hn1 as (t1 & -> & Hw1).
  assert (Ho1 : outcomes w1 = true :: o).
  { destruct Hw1 as [rd1 ->]; destruct Hw0 as [rd0 ->]; exact Ho. }
  unfold external. rewrite Ho1. simpl.
  destruct Hw1 as [rd1 ->]; destruct Hw0 as [rd0 ->]; auto.
Qed.

Lemma send_killfeed_embed_stores (g : Z) (kd : kill_data) (w : world) :
  kill_events (KillfeedParser.send_killfeed_embed g kd w).2 = kill_events w /\
  pvp_data (KillfeedParser.send_killfeed_embed g kd w).2 = pvp_data w.
Proof.
  split.
  - assert (H : io_rel same_kill_events (KillfeedParser.send_killfeed_embed g kd)).
    { unfold KillfeedParser.send_killfeed_embed. io_rel_tac; reflexivity. }
    apply H.
  - assert (H : io_rel same_pvp_data (KillfeedParser.send_killfeed_embed g kd)).
    { unfold KillfeedParser.send_killfeed_embed. io_rel_tac; reflexivity. }
    apply H.
Qed.

Lemma update_pvp_stats_events (g : Z) (s p : string) (upd : doc) :
  io_rel same_kill_events (update_pvp_stats g s p upd).
Proof. intros w. apply (update_pvp_stats_refused g s p upd w). Qed.

Lemma bool_result {A} (m : io bool) (w : world) (k : bool -> io A) :
  io_returns m -> (m ≫= k) w = k (default false (match (m w).1 with Ok b => Some b | _ => None end)) (m w).2.
Proof.
  intros Hr. unfold mbind, io_bind. destruct (Hr w) as [b Hb].
  destruct (m w) as [r w']. simpl in *. subst r. reflexivity.
Qed.

Lemma update_pvp_stats_returns (g : Z) (s p : string) (upd : doc) :
  io_returns (update_pvp_stats g s p upd).
Proof. apply io_returns_try. intros e. apply io_returns_ret. Qed.

Lemma add_kill_event_returns (g : Z) (s : string) (kd : kill_data) :
  io_returns (add_kill_event g s kd).
Proof. apply io_returns_try. intros e. apply io_returns_ret. Qed.

Lemma send_killfeed_embed_returns (g : Z) (kd : kill_data) :
  io_returns (KillfeedParser.send_killfeed_embed g kd).
Proof. apply io_returns_try. intros e. apply io_returns_ret. Qed.

(** The body of [process_kill_event] returns, so its handler never runs. *)
Lemma process_kill_event_unfold (g : Z) (s : string) (kd : kill_data) (w : world) :
  (KillfeedParser.process_kill_event g s kd w).2 =
  let w1 := (add_kill_event g s kd w).2 in
  let w2 := if is_suicide kd
            then (update_pvp_stats g s (victim kd) (inc_request "suicides") w1).2
            else (update_pvp_stats g s (victim kd) (inc_request "deaths")
                    (update_pvp_stats g s (killer kd) (inc_request "kills") w1).2).2 in
  (KillfeedParser.send_killfeed_embed g kd w2).2.
Proof.
  unfold KillfeedParser.process_kill_event, io_try.
  rewrite bool_result by apply add_kill_event_returns.
  destruct (is_suicide kd).
  - rewrite bool_result by apply update_pvp_stats_returns.
    destruct (send_killfeed_embed_returns g kd
                (update_pvp_stats g s (victim kd) (inc_request "suicides")
                   (add_kill_event g s kd w).2).2) as [a Ha].
    simpl. destruct (KillfeedParser.send_killfeed_embed _ _ _) as [r w']. simpl in *.
    subst r. reflexivity.
  - unfold mbind at 1, io_bind at 1.
    rewrite bool_result by apply update_pvp_stats_returns.
    destruct (update_pvp_stats_returns g s (victim kd) (inc_request "deaths")
                (update_pvp_stats g s (killer kd) (inc_request "kills")
                   (add_kill_event g s kd w).2).2) as [b Hb].
    destruct (update_pvp_stats g s (victim kd) (inc_request "deaths") _) as [r w2] eqn:Hu.
    simpl in Hb. subst r. cbn [snd].
    destruct (send_killfeed_embed_returns g kd w2) as [a Ha].
    destruct (KillfeedParser.send_killfeed_embed g kd w2) as [r w']. simpl in *.
    subst r. reflexivity.
Qed.
Lemma process_kill_event_write_fails (g : Z) (s : string) (kd : kill_data) (w : world)
    (o : list bool) :
  outcomes w = true :: o ->
  kill_events (KillfeedParser.process_kill_event g s kd w).2 = kill_events w.
Proof.
  intros Ho. rewrite process_kill_event_unfold. cbv zeta.
  destruct (add_kill_event_fault g s kd w o Ho) as (Hk & _ & _).
  rewrite (proj1 (send_killfeed_embed_stores g kd _)).
  destruct (is_suicide kd).
  - rewrite (update_pvp_stats_events g s (victim kd) _ _). exact Hk.
  - rewrite (update_pvp_stats_events g s (victim kd) _ _).
    rewrite (update_pvp_stats_events g s (killer kd) _ _). exact Hk.
Qed.

Lemma process_kill_event_all_fail (g : Z) (s : string) (kd : kill_data) (w : world)
    (o : list bool) :
  outcomes w = true :: true :: true :: o ->
  kill_events (KillfeedParser.process_kill_event g s kd w).2 = kill_events w /\
  pvp_data (KillfeedParser.process_kill_event g s kd w).2 = pvp_data w.
Proof.
  intros Ho. split; [eapply process_kill_event_write_fails; exact Ho|].
  rewrite process_kill_event_unfold. cbv zeta.
  destruct (add_kill_event_fault g s kd w _ Ho) as (_ & Hp1 & Ho1).
  rewrite (proj2 (send_killfeed_embed_stores g kd _)).
  destruct (is_suicide kd).
  - destruct (update_pvp_stats_inc_fault g s (victim kd) "suicides" _ _ Ho1) as (_ & Hp2 & _).
    congruence.
  - destruct (update_pvp_stats_inc_fault g s (killer kd) "kills" _ _ Ho1) as (_ & Hp2 & Ho2).
    destruct (update_pvp_stats_inc_fault g s (victim kd) "deaths" _ _ Ho2) as (_ & Hp3 & _).
    congruence.
Qed.

Section Dropped.
Context {L : PyLib}.

Lemma killfeed_loop_cons (g : Z) (s key line : string) (rest : list string)
    (n : nat) (w : world) :
  is_Some (parsed_lines w !! key) ->
  exists n' w',
    KillfeedParser.killfeed_loop g s key (line :: rest) n w =
      KillfeedParser.killfeed_loop g s key rest n' w' /\
    is_Some (parsed_lines w' !! key) /\ seen_grows w w' /\
    (Str.strip line ≠ "" -> is_Some (parse_csv_line line) -> seen w' key line).
Proof.
  intros Hk.
  destruct (decide (Str.strip line = "")) as [Hb|Hb].
  { exists n, w. rewrite killfeed_loop_blank by exact Hb.
    repeat split; [exact Hk| |tauto]. intros k l H. exact H. }
  destruct (seen_dec w key line) as [Hs|Hs].
  { exists n, w. rewrite killfeed_loop_seen by exact Hs.
    repeat split; [exact Hk| |auto]. intros k l H. exact H. }
  destruct (parse_csv_line line) as [kd|] eqn:Hp.
  - exists (S n), (marked key line (KillfeedParser.process_kill_event g s kd w).2).
    rewrite (killfeed_loop_new g s key line rest n w kd) by assumption.
    repeat split; [apply marked_present| |intros; apply marked_seen].
    destruct (process_kill_event_returns g s kd w) as (w1 & Hrun & Hpl).
    rewrite Hrun. cbn [snd]. intros k l (lines & Hl & Hin).
    unfold seen, marked. simpl. rewrite Hpl.
    destruct (decide (key = k)) as [<-|Hne].
    + rewrite lookup_insert_eq. eexists. split; [reflexivity|].
      rewrite Hl. simpl. set_solver.
    + rewrite lookup_insert_ne by exact Hne. eauto.
  - exists n, w. rewrite killfeed_loop_unparsed by assumption.
    repeat split; [exact Hk| |intros _ [x Hx]; discriminate]. intros k l H. exact H.
Qed.

Lemma killfeed_loop_marks (g : Z) (s key line : string) (lines : list string) :
  forall (n : nat) (w : world),
    is_Some (parsed_lines w !! key) ->
    line ∈ lines -> Str.strip line ≠ "" -> is_Some (parse_csv_line line) ->
    seen (KillfeedParser.killfeed_loop g s key lines n w).2 key line.
Proof.
  induction lines as [|l rest IH]; intros n w Hk Hin Hb Hp.
  - apply elem_of_nil in Hin. contradiction.
  - destruct (killfeed_loop_cons g s key l rest n w Hk) as (n' & w' & -> & Hk' & Hg & Hnew).
    apply elem_of_cons in Hin as [<-|Hin].
    + apply (killfeed_loop_grows g s key rest n' w'). auto.
    + apply IH; assumption.
Qed.

(** C10.  [process_kill_event] returns in every world, and a line that
    parses is marked seen whatever becomes of the store calls made for it.  When the
    insert of the event raises, the event log is left without it; when the
    three store calls raise, the records are as they were too.  Once seen,
    the line is skipped by every later pass, and it stays seen. *)
Theorem failed_write_still_marks (w : world) (g : Z) (s line : string) (kd : kill_data) :
  Str.strip line ≠ "" ->
  parse_csv_line line = Some kd ->
  let key := KillfeedParser.server_key g s in
  (forall w0, exists w1, KillfeedParser.process_kill_event g s kd w0 = (Ok tt, w1)) /\
  (forall lines, line ∈ lines ->
     seen (KillfeedParser.ingest_lines g s lines w).2 key line) /\
  (forall o, ~ seen w key line -> outcomes w = true :: o ->
     kill_events (KillfeedParser.ingest_lines g s [line] w).2 = kill_events w) /\
  (forall o, ~ seen w key line -> outcomes w = true :: true :: true :: o ->
     pvp_data (KillfeedParser.ingest_lines g s [line] w).2 = pvp_data w) /\
  (forall w' rest n, seen w' key line ->
     KillfeedParser.killfeed_loop g s key (line :: rest) n w' =
     KillfeedParser.killfeed_loop g s key rest n w') /\
  (forall w' lines, seen w' key line ->
     seen (KillfeedParser.ingest_lines g s lines w').2 key line).
Proof.
  intros Hb Hp key.
  assert (Hone : ~ seen w key line ->
    (KillfeedParser.ingest_lines g s [line] w).2 =
    marked key line (KillfeedParser.process_kill_event g s kd (with_key key w)).2).
  { intros Hs. rewrite ingest_lines_eq. fold key.
    rewrite (killfeed_loop_new g s key line [] 0 (with_key key w) kd);
      [reflexivity|apply with_key_present|exact Hb| |exact Hp].
    rewrite with_key_seen. exact Hs. }
  destruct (with_key_fields key w) as (Hwp & Hwk & Hwo).
  split; [|split; [|split; [|split; [|split]]]].
  - intros w0. destruct (process_kill_event_returns g s kd w0) as (w1 & Hrun & _). eauto.
  - intros lines Hin. rewrite ingest_lines_eq. fold key.
    apply killfeed_loop_marks; [apply with_key_present|exact Hin|exact Hb|].
    rewrite Hp. eauto.
  - intros o Hs Ho. rewrite (Hone Hs). unfold marked. simpl.
    rewrite (process_kill_event_write_fails g s kd (with_key key w) o)
      by (rewrite Hwo; exact Ho).
    exact Hwk.
  - intros o Hs Ho. rewrite (Hone Hs). unfold marked. simpl.
    assert (Ho' : outcomes (with_key key w) = true :: true :: true :: o)
      by (rewrite Hwo; exact Ho).
    rewrite (proj2 (process_kill_event_all_fail g s kd (with_key key w) o Ho')).
    exact Hwp.
  - intros w' rest n Hs. apply killfeed_loop_seen. exact Hs.
  - intros w' lines Hs. apply ingest_lines_grows. exact Hs.
Qed.

End Dropped.

Lemma failed_write_still_marks_witness :
  let w := set_outcomes [true; true; true] (empty_world []) in
  let w' := (KillfeedParser.ingest_lines (L := Fixture.lib) 7 "s1" [alice_bob_line] w).2 in
  seen w' (KillfeedParser.server_key 7 "s1") alice_bob_line /\
  kill_events w' = [] /\ pvp_data w' = [].
Proof.
  intros w w'.
  destruct (failed_write_still_marks (L := Fixture.lib) w 7 "s1" alice_bob_line alice_kills_bob)
    as (_ & Hmark & Hlog & Hrec & _).
  - discriminate.
  - reflexivity.
  - assert (Hs : ~ seen w (KillfeedParser.server_key 7 "s1") alice_bob_line).
    { intros (lines & Hl & _). discriminate Hl. }
    split; [|split].
    + apply Hmark. apply list_elem_of_In. left. reflexivity.
    + apply (Hlog [true; true] Hs). reflexivity.
    + apply (Hrec [] Hs). reflexivity.
Defined.
(** ** Remote Source Adapter *)

Lemma try_except_all {A} (m : exc A) (a0 : A) :
  exists a, try_except m except_Exception (fun _ => Ok a0) = Ok a.
Proof. destruct m; simpl; eauto. Qed.

Section AdapterFacts.
Context {L : PyLib}.

(** Neither fetch raises: each returns a list of lines. *)
Lemma fetch_never_raises (w : world) (cfg : server_config) :
  (exists lines, KillfeedParser.get_sftp_csv_files (sftp w) cfg = Ok lines) /\
  (exists lines, KillfeedParser.get_dev_csv_files (dev_data w) = Ok lines) /\
  (exists lines, HistoricalParser.get_sftp_csv_files (environ w) (sftp w) cfg = Ok lines) /\
  (exists lines, HistoricalParser.get_dev_csv_files (dev_data w) = Ok lines) /\
  (exists lines, HistoricalParser.get_all_csv_files w cfg = Ok lines) /\
  (exists lines, KillfeedParser.fetch_latest cfg w = (Ok lines, w)).
Proof.
  repeat split; try apply try_except_all.
  unfold KillfeedParser.fetch_latest.
  destruct (dev_mode w).
  - destruct (try_except_all (A := list string)
      (csv_files ← glob_csv (dev_data w);
       match csv_files with
       | [] => Ok []
       | f :: fs => local_lines (dev_data w) (max_mtime f fs).1
       end) []) as [lines Hl].
    exists lines. unfold KillfeedParser.get_dev_csv_files. rewrite Hl. reflexivity.
  - destruct (try_except_all (KillfeedParser.get_sftp_csv_files_body (sftp w) cfg) [])
      as [lines Hl].
    exists lines. unfold KillfeedParser.get_sftp_csv_files. rewrite Hl. reflexivity.
Qed.

(** The latest-file fetch gives no line when a credential is missing, when
    the connection, the listing or the read raises. *)
Lemma latest_fetch_degrades (r : remote) (cfg : server_config) :
  let host := default "" (cfg_sftp_host cfg) in
  let path := deathlogs_path host (default "unknown" (cfg_server_id cfg)) in
  (truthy (cfg_sftp_host cfg) && truthy (cfg_sftp_username cfg)
     && truthy (cfg_sftp_password cfg) = false ->
   KillfeedParser.get_sftp_csv_files r cfg = Ok []) /\
  ((exists e, ssh_connect r host (default 22 (cfg_sftp_port cfg))
                (default "" (cfg_sftp_username cfg))
                (default "" (cfg_sftp_password cfg)) = Raise e) ->
   KillfeedParser.get_sftp_csv_files r cfg = Ok []) /\
  ((exists e, listdir_attr r path = Raise e) ->
   KillfeedParser.get_sftp_csv_files r cfg = Ok []) /\
  ((forall name, exists e, read_lines r (path +:+ "/" +:+ name) = Raise e) ->
   KillfeedParser.get_sftp_csv_files r cfg = Ok []).
Proof.
  intros host path. subst host path.
  unfold KillfeedParser.get_sftp_csv_files, KillfeedParser.get_sftp_csv_files_body.
  destruct (cfg_sftp_host cfg) as [host|]; [|repeat split; reflexivity].
  destruct (cfg_sftp_username cfg) as [user|]; [|repeat split; reflexivity].
  destruct (cfg_sftp_password cfg) as [pass|]; [|repeat split; reflexivity].
  simpl default.
  destruct (truthy (Some host) && truthy (Some user) && truthy (Some pass)) eqn:Hall;
    [|repeat split; reflexivity].
  cbn [negb].
  split; [discriminate|].
  split; [intros [e ->]; reflexivity|].
  destruct (ssh_connect r host _ user pass) as [[]|e]; [|repeat split; reflexivity].
  cbn [mbind exc_bind].
  split.
  - intros [e ->]. destruct e; reflexivity.
  - intros Hread.
    destruct (listdir_attr r _) as [items|e]; [|destruct e; reflexivity].
    simpl.
    destruct (sort_mtime_desc (csv_only items)) as [|[name mt] others]; [reflexivity|].
    destruct (Hread name) as [e ->]. reflexivity.
Qed.

End AdapterFacts.

(** C9 (the code departs from it).  [HistoricalParser.get_sftp_csv_files]
    reads the older log, meets [FileNotFoundError] on the newer one, and
    returns the lines read so far: the failed read does not give an empty
    sequence. *)
Theorem historical_fetch_keeps_read_lines :
  let path := deathlogs_path "game.example" "s1" in
  read_lines rotating_remote (path +:+ "/" +:+ "newer.csv") = Raise FileNotFoundError /\
  HistoricalParser.get_sftp_csv_files (L := Fixture.lib) ∅ rotating_remote configured
    = Ok [alice_bob_line] /\
  KillfeedParser.get_sftp_csv_files rotating_remote configured = Ok [].
Proof. vm_compute. auto. Qed.
Lemma read_each_raises (read : string -> exc (list string)) (paths : list string) :
  forall (acc : list string) (e : exn),
    (read_each read paths acc).2 = Some e -> exists p, p ∈ paths /\ read p = Raise e.
Proof.
  induction paths as [|p ps IH]; intros acc e; simpl; [discriminate|].
  destruct (read p) as [ls|e'] eqn:Hr.
  - intros H. destruct (IH _ _ H) as (q & Hq & Hrq). exists q. split; [|exact Hrq].
    apply elem_of_cons. auto.
  - simpl. intros [= <-]. exists p. split; [apply elem_of_cons; auto|exact Hr].
Qed.

Section HistoricalAdapterFacts.
Context {L : PyLib}.

(** The all-files fetch gives no line when a credential is missing, when the
    connection or the listing raises, and when a read raises anything but
    [FileNotFoundError]. *)
Lemma all_fetch_degrades (r : remote) (cfg : server_config) :
  let path := deathlogs_path (default "" (cfg_sftp_host cfg))
                             (default "unknown" (cfg_server_id cfg)) in
  (truthy (cfg_sftp_host cfg) && truthy (cfg_sftp_username cfg)
     && truthy (cfg_sftp_password cfg) = false ->
   HistoricalParser.get_sftp_csv_files ∅ r cfg = Ok []) /\
  ((exists e, ssh_connect r (default "" (cfg_sftp_host cfg)) (default 22 (cfg_sftp_port cfg))
                (default "" (cfg_sftp_username cfg))
                (default "" (cfg_sftp_password cfg)) = Raise e) ->
   HistoricalParser.get_sftp_csv_files ∅ r cfg = Ok []) /\
  ((exists e, listdir_attr r path = Raise e) ->
   HistoricalParser.get_sftp_csv_files ∅ r cfg = Ok []) /\
  ((forall p, exists e, read_lines r p = Raise e /\ e ≠ FileNotFoundError) ->
   HistoricalParser.get_sftp_csv_files ∅ r cfg = Ok []).
Proof.
  intros path. subst path.
  unfold HistoricalParser.get_sftp_csv_files, HistoricalParser.get_sftp_csv_files_body,
    HistoricalParser.sftp_port_of, HistoricalParser.getenv.
  rewrite !lookup_empty. cbn [mbind exc_bind].
  destruct (cfg_sftp_host cfg) as [host|]; [|repeat split; reflexivity].
  destruct (cfg_sftp_username cfg) as [user|]; [|repeat split; reflexivity].
  destruct (cfg_sftp_password cfg) as [pass|]; [|repeat split; reflexivity].
  simpl default.
  destruct (truthy (Some host) && truthy (Some user) && truthy (Some pass)) eqn:Hall;
    [|repeat split; reflexivity].
  cbn [negb].
  split; [discriminate|].
  split; [intros [e ->]; reflexivity|].
  destruct (ssh_connect r host _ user pass) as [[]|e]; [|repeat split; reflexivity].
  split.
  - intros [e ->]. destruct e; reflexivity.
  - intros Hread.
    destruct (listdir_attr r _) as [items|e]; [|destruct e; reflexivity].
    destruct (read_each _ _ _) as [all_lines [e|]] eqn:Hall_lines.
    + assert (He : (read_each (read_lines r)
                ((fun item => deathlogs_path host (default "unknown" (cfg_server_id cfg))
                               +:+ "/" +:+ item.1) <$> sort_mtime_asc (csv_only items))
                []).2 = Some e) by (rewrite Hall_lines; reflexivity).
      apply read_each_raises in He as (p & _ & Hp).
      destruct (Hread p) as (e' & He' & Hne). rewrite Hp in He'. injection He' as <-.
      destruct e; try reflexivity. contradiction.
    + destruct (sort_mtime_asc (csv_only items)) as [|item others] eqn:Hsort.
      * simpl in Hall_lines. injection Hall_lines as <-. reflexivity.
      * simpl in Hall_lines. destruct (Hread (deathlogs_path host
            (default "unknown" (cfg_server_id cfg)) +:+ "/" +:+ item.1))
          as (e' & He' & _).
        rewrite He' in Hall_lines. discriminate.
Qed.

End HistoricalAdapterFacts.

(** ** Runs in which every call goes through *)

#[global] Instance steady_stable : Stable steady.
Proof.
  split; [split|..]; unfold steady.
  - intros w. repeat split.
  - intros w1 w2 w3 (?&?&?) (?&?&?). repeat split; try congruence.
    all: etransitivity; [apply H4|apply H1].
  - intros w o. repeat split.
  - intros w r. repeat split.
Qed.

#[global] Instance steady_blind : DbBlind steady.
Proof. split; [typeclasses eauto|..]; intros; repeat split. Qed.

Lemma add_kill_event_through (g : Z) (s : string) (kd : kill_data) (w : world) :
  outcomes w = [] ->
  exists t,
    (add_kill_event g s kd w).1 = Ok true /\
    kill_events (add_kill_event g s kd w).2 = kill_events w ++ [event_doc g s t kd] /\
    pvp_data (add_kill_event g s kd w).2 = pvp_data w /\
    outcomes (add_kill_event g s kd w).2 = [].
Proof.
  intros Ho. exists (hd 0 (readings w)).
  unfold add_kill_event, io_try, mbind, io_bind, now, external. simpl.
  rewrite Ho. simpl. auto.
Qed.

Lemma update_pvp_stats_inc_through (g : Z) (s p counter : string) (w : world) :
  outcomes w = [] ->
  (update_pvp_stats g s p (inc_request counter) w).1 = Ok false /\
  pvp_data (update_pvp_stats g s p (inc_request counter) w).2 = pvp_data w /\
  kill_events (update_pvp_stats g s p (inc_request counter) w).2 = kill_events w /\
  outcomes (update_pvp_stats g s p (inc_request counter) w).2 = [].
Proof.
  intros Ho.
  destruct (update_pvp_stats_refused g s p (inc_request counter) w) as (Hr & Hp & Hk).
  split; [exact Hr|]. split; [exact Hp|]. split; [exact Hk|].
  unfold update_pvp_stats. rewrite calculate_kdr_skipped.
  rewrite try_run, now_bind_run, ret_bind_run, now_bind_run, bind_run.
  unfold external. cbn [outcomes set_readings]. rewrite Ho.
  cbn [tail pvp_data set_outcomes set_readings]. rewrite update_one_refused.
  reflexivity.
Qed.

Lemma clear_server_data_through (g : Z) (s : string) (w : world) :
  outcomes w = [] ->
  (HistoricalParser.clear_server_data g s w).1 = Ok tt /\
  pvp_data (HistoricalParser.clear_server_data g s w).2 =
    coll_delete_many (server_filter g s) (pvp_data w) /\
  kill_events (HistoricalParser.clear_server_data g s w).2 =
    coll_delete_many (server_filter g s) (kill_events w) /\
  outcomes (HistoricalParser.clear_server_data g s w).2 = [].
Proof.
  intros Ho.
  unfold HistoricalParser.clear_server_data, io_try, mbind, io_bind, external. simpl.
  rewrite Ho. simpl. auto.
Qed.

Lemma post_through (n : notice) (w : world) :
  outcomes w = [] ->
  (HistoricalParser.post n w).1 = Ok tt /\
  pvp_data (HistoricalParser.post n w).2 = pvp_data w /\
  kill_events (HistoricalParser.post n w).2 = kill_events w /\
  outcomes (HistoricalParser.post n w).2 = [].
Proof.
  intros Ho. unfold HistoricalParser.post, external. rewrite Ho. simpl. auto.
Qed.

Section HistoricalRuns.
Context {L : PyLib}.

Lemma get_all_csv_files_static (w w' : world) (cfg : server_config) :
  same_static w w' ->
  HistoricalParser.get_all_csv_files w' cfg = HistoricalParser.get_all_csv_files w cfg.
Proof.
  intros (Hd & Hs & Hdd & He & _). unfold HistoricalParser.get_all_csv_files.
  rewrite Hd, Hs, Hdd, He. reflexivity.
Qed.

Lemma refresh_enter_admitted (g : Z) (cfg : server_config) (w : world) :
  default false (active_refreshes w !! HistoricalParser.refresh_key g cfg) = false ->
  HistoricalParser.refresh_enter g cfg w =
    (Ok (Some (hd 0 (readings w))),
     set_readings (tail (readings w))
       (set_active_refreshes
          (<[HistoricalParser.refresh_key g cfg := true]> (active_refreshes w)) w)).
Proof. intros Hg. unfold HistoricalParser.refresh_enter. rewrite Hg. reflexivity. Qed.

Lemma refresh_enter_rejected (g : Z) (cfg : server_config) (w : world) :
  default false (active_refreshes w !! HistoricalParser.refresh_key g cfg) = true ->
  HistoricalParser.refresh_enter g cfg w = (Ok None, w).
Proof. intros Hg. unfold HistoricalParser.refresh_enter. rewrite Hg. reflexivity. Qed.

Lemma clear_server_data_returns (g : Z) (s : string) :
  io_returns (HistoricalParser.clear_server_data g s).
Proof. apply io_returns_try. intros e. apply io_returns_ret. Qed.



End HistoricalRuns.

(** ** The guard of historical refreshes *)

#[global] Instance guards_but_stable (key : string) : Stable (guards_but key).
Proof.
  split; [split|..]; unfold guards_but.
  - intros w k _. reflexivity.
  - intros w1 w2 w3 H12 H23 k Hk. rewrite H23, H12 by exact Hk. reflexivity.
  - intros w o k _. reflexivity.
  - intros w r k _. reflexivity.
Qed.

#[global] Instance guards_but_blind (key : string) : DbBlind (guards_but key).
Proof. split; [typeclasses eauto|..]; intros w c k _; reflexivity. Qed.

Section Guard.
Context {L : PyLib}.

Lemma refresh_run_guards (g : Z) (cfg : server_config) (ch : option Z) (t : Z) :
  io_rel (guards_but (HistoricalParser.refresh_key g cfg))
         (HistoricalParser.refresh_run g cfg ch t).
Proof.
  unfold HistoricalParser.refresh_run, HistoricalParser.release_guard.
  io_rel_tac.
  all: try (apply io_rel_pure; typeclasses eauto).
  all: intros k Hk; try destruct (active_refreshes _ !! HistoricalParser.refresh_key g cfg);
    simpl; rewrite ?lookup_insert_ne by congruence; reflexivity.
Qed.

(** A call made while the guard of its key is set returns failure and
    leaves the world as it found it. *)
Lemma refresh_rejected (w : world) (g : Z) (cfg : server_config) (ch : option Z) :
  default false (active_refreshes w !! HistoricalParser.refresh_key g cfg) = true ->
  HistoricalParser.refresh_server_data g cfg ch w = (Ok false, w).
Proof.
  intros Hg. unfold HistoricalParser.refresh_server_data.
  rewrite bind_run, refresh_enter_rejected by exact Hg. reflexivity.
Qed.

Lemma one_running_step (c c' : world * list task) :
  sched_step c c' -> one_running c.1 c.2 -> one_running c'.1 c'.2.
Proof.
  intros Hstep. destruct Hstep as [w ts i t Hi|w w' ts Hsame]; simpl.
  2: { intros [Hset Huniq]. split; [|exact Huniq].
       intros j g cfg ch st Hj. rewrite Hsame. eauto. }
  intros [Hset Huniq].
  assert (Hlen : (i < length ts)%nat) by (eapply lookup_lt_Some; exact Hi).
  destruct t as [g cfg ch|g cfg ch st|b]; simpl.
  - (* a call enters *)
    destruct (default false (active_refreshes w !! HistoricalParser.refresh_key g cfg))
      eqn:Hg.
    + rewrite refresh_enter_rejected by exact Hg. simpl. split.
      * intros j g' cfg' ch' st' Hj.
        destruct (decide (i = j)) as [<-|Hne].
        { rewrite list_lookup_insert_eq in Hj by exact Hlen. discriminate. }
        rewrite list_lookup_insert_ne in Hj by exact Hne. eauto.
      * intros j1 j2 g1 cfg1 ch1 st1 g2 cfg2 ch2 st2 H1 H2.
        destruct (decide (i = j1)) as [<-|Hne1].
        { rewrite list_lookup_insert_eq in H1 by exact Hlen. discriminate. }
        destruct (decide (i = j2)) as [<-|Hne2].
        { rewrite list_lookup_insert_eq in H2 by exact Hlen. discriminate. }
        rewrite list_lookup_insert_ne in H1, H2 by assumption. eauto.
    + rewrite refresh_enter_admitted by exact Hg. simpl.
      assert (Hother : forall j g' cfg' ch' st', i ≠ j ->
                ts !! j = Some (Running g' cfg' ch' st') ->
                HistoricalParser.refresh_key g' cfg' ≠ HistoricalParser.refresh_key g cfg).
      { intros j g' cfg' ch' st' Hne Hj Heq.
        rewrite <- Heq, (Hset _ _ _ _ _ Hj) in Hg. discriminate. }
      split.
      * intros j g' cfg' ch' st' Hj. simpl.
        destruct (decide (i = j)) as [<-|Hne].
        { rewrite list_lookup_insert_eq in Hj by exact Hlen. injection Hj as <- <- _ _.
          apply lookup_insert_eq. }
        rewrite list_lookup_insert_ne in Hj by exact Hne.
        rewrite lookup_insert_ne by (intros Heq; eapply Hother; eauto).
        eauto.
      * intros j1 j2 g1 cfg1 ch1 st1 g2 cfg2 ch2 st2 H1 H2 Hkey.
        destruct (decide (i = j1)) as [<-|Hne1]; destruct (decide (i = j2)) as [<-|Hne2];
          [reflexivity| | |].
        -- rewrite list_lookup_insert_eq in H1 by exact Hlen. injection H1 as <- <- _ _.
           rewrite list_lookup_insert_ne in H2 by exact Hne2.
           exfalso. eapply Hother; eauto.
        -- rewrite list_lookup_insert_eq in H2 by exact Hlen. injection H2 as <- <- _ _.
           rewrite list_lookup_insert_ne in H1 by exact Hne1.
           exfalso. eapply Hother; eauto.
        -- rewrite list_lookup_insert_ne in H1, H2 by assumption. eauto.
  - (* a run leaves *)
    pose proof (refresh_run_guards g cfg ch st w) as Hbut.
    assert (Hfin : exists b w',
      (match HistoricalParser.refresh_run g cfg ch st w with
       | (Ok result, w') => (Finished result, w')
       | (Raise _, w') => (Finished false, w')
       end) = (Finished b, w') /\ w' = (HistoricalParser.refresh_run g cfg ch st w).2).
    { destruct (HistoricalParser.refresh_run g cfg ch st w) as [[b|e] w']; simpl; eauto. }
    destruct Hfin as (b & w' & -> & ->). simpl. split.
    + intros j g' cfg' ch' st' Hj.
      destruct (decide (i = j)) as [<-|Hne].
      { rewrite list_lookup_insert_eq in Hj by exact Hlen. discriminate. }
      rewrite list_lookup_insert_ne in Hj by exact Hne.
      rewrite Hbut; [eauto|].
      intros Heq. apply Hne. eapply Huniq; eauto.
    + intros j1 j2 g1 cfg1 ch1 st1 g2 cfg2 ch2 st2 H1 H2.
      destruct (decide (i = j1)) as [<-|Hne1].
      { rewrite list_lookup_insert_eq in H1 by exact Hlen. discriminate. }
      destruct (decide (i = j2)) as [<-|Hne2].
      { rewrite list_lookup_insert_eq in H2 by exact Hlen. discriminate. }
      rewrite list_lookup_insert_ne in H1, H2 by assumption. eauto.
  - (* a finished call *)
    rewrite list_insert_id by exact Hi. split; assumption.
Qed.

Lemma one_running_steps (c c' : world * list task) :
  sched_steps c c' -> one_running c.1 c.2 -> one_running c'.1 c'.2.
Proof.
  induction 1 as [c|c1 c2 c3 _ IH Hstep]; [auto|].
  intros H. eapply one_running_step; [exact Hstep|]. auto.
Qed.

(** C5.  A call of [refresh_server_data] made while a refresh of the same
    key is under way returns failure at once and leaves the whole world,
    data and guards, as it found it; and however the calls interleave, from
    a start where none is running, at most one is running under a key at any
    time, and a call entering under the key of a running one is turned
    away. *)
Theorem one_refresh_per_key :
  (forall (w : world) (g : Z) (cfg : server_config) (ch : option Z),
      default false (active_refreshes w !! HistoricalParser.refresh_key g cfg) = true ->
      HistoricalParser.refresh_server_data g cfg ch w = (Ok false, w))
  /\ (forall (w0 w : world) (ts0 ts : list task),
      none_running ts0 ->
      sched_steps (w0, ts0) (w, ts) ->
      (forall i j gi cfgi chi sti gj cfgj chj stj,
          ts !! i = Some (Running gi cfgi chi sti) ->
          ts !! j = Some (Running gj cfgj chj stj) ->
          HistoricalParser.refresh_key gi cfgi = HistoricalParser.refresh_key gj cfgj ->
          i = j) /\
      (forall j gj cfgj chj stj g cfg ch,
          ts !! j = Some (Running gj cfgj chj stj) ->
          HistoricalParser.refresh_key g cfg = HistoricalParser.refresh_key gj cfgj ->
          task_step (Pending g cfg ch) w = (Finished false, w) /\
          HistoricalParser.refresh_server_data g cfg ch w = (Ok false, w))).
Proof.
  split; [apply refresh_rejected|].
  intros w0 w ts0 ts Hnone Hsteps.
  assert (Hinv : one_running w ts).
  { apply (one_running_steps (w0, ts0) (w, ts) Hsteps). simpl. split.
    - intros i g cfg ch st Hi. exfalso. eapply Hnone. exact Hi.
    - intros i j gi cfgi chi sti gj cfgj chj stj Hi. exfalso. eapply Hnone. exact Hi. }
  destruct Hinv as [Hset Huniq]. split; [exact Huniq|].
  intros j gj cfgj chj stj g cfg ch Hj Hkey.
  assert (Hg : default false (active_refreshes w !! HistoricalParser.refresh_key g cfg) = true).
  { rewrite Hkey, (Hset _ _ _ _ _ Hj). reflexivity. }
  split; [|apply refresh_rejected; exact Hg].
  simpl. rewrite refresh_enter_rejected by exact Hg. reflexivity.
Qed.

End Guard.
Lemma one_refresh_per_key_witness :
  let w0 := empty_world [alice_bob_line] in
  let first := Pending 7 configured None in
  let w1 := (task_step (L := Fixture.lib) first w0).2 in
  task_step (L := Fixture.lib) (Pending 7 configured (Some 5)) w1 = (Finished false, w1).
Proof.
  intros w0 first w1.
  assert (Hsteps : sched_steps (L := Fixture.lib) (w0, [first; Pending 7 configured (Some 5)])
            (w1, <[0%nat := (task_step (L := Fixture.lib) first w0).1]>
                   [first; Pending 7 configured (Some 5)])).
  { eapply sched_trans; [apply sched_refl|].
    apply (sched_task (L := Fixture.lib) w0 [first; Pending 7 configured (Some 5)] 0 first).
    reflexivity. }
  assert (Hnone : none_running [first; Pending 7 configured (Some 5)]).
  { intros [|[|i]] g cfg ch st; discriminate. }
  destruct (proj2 (one_refresh_per_key (L := Fixture.lib)) _ _ _ _ Hnone Hsteps) as [_ Hturned].
  apply (Hturned 0%nat 7 configured None 0 7 configured (Some 5)); reflexivity.
Defined.
(** ** Historical refresh: clear, then rebuild *)

Lemma pvp_match_server_match (g : Z) (s p : string) (d : doc) :
  matches (pvp_filter g s p) d = true -> matches (server_filter g s) d = true.
Proof.
  rewrite matches_pvp_filter, matches_server_filter. tauto.
Qed.

Lemma progress_through (ch : Z) (current total : nat) (w : world) :
  outcomes w = [] ->
  (HistoricalParser.update_progress_embed ch current total w).1 = Ok tt /\
  pvp_data (HistoricalParser.update_progress_embed ch current total w).2 = pvp_data w /\
  kill_events (HistoricalParser.update_progress_embed ch current total w).2 = kill_events w /\
  outcomes (HistoricalParser.update_progress_embed ch current total w).2 = [].
Proof.
  intros Ho. unfold HistoricalParser.update_progress_embed, HistoricalParser.post,
    io_try, external.
  rewrite Ho. simpl. auto.
Qed.

Lemma complete_through (ch : Z) (n : nat) (d : Z) (w : world) :
  outcomes w = [] ->
  (HistoricalParser.complete_progress_embed ch n d w).1 = Ok tt /\
  pvp_data (HistoricalParser.complete_progress_embed ch n d w).2 = pvp_data w /\
  kill_events (HistoricalParser.complete_progress_embed ch n d w).2 = kill_events w /\
  outcomes (HistoricalParser.complete_progress_embed ch n d w).2 = [].
Proof.
  intros Ho. unfold HistoricalParser.complete_progress_embed, HistoricalParser.post,
    io_try, external.
  rewrite Ho. simpl. auto.
Qed.

Lemma delete_delete (flt : doc) (c : collection) :
  coll_delete_many flt (coll_delete_many flt c) = coll_delete_many flt c.
Proof.
  unfold coll_delete_many. induction c as [|d c IH]; simpl; [reflexivity|].
  destruct (matches flt d) eqn:Hm; simpl; [exact IH|]. rewrite Hm. simpl. f_equal. exact IH.
Qed.

Lemma server_records_cleared (g : Z) (s : string) (w w' : world) :
  pvp_data w' = coll_delete_many (server_filter g s) (pvp_data w) ->
  server_records g s w' = [].
Proof.
  intros H. unfold server_records. rewrite H. clear H. unfold coll_delete_many.
  induction (pvp_data w) as [|d c IH]; simpl; [reflexivity|].
  destruct (matches (server_filter g s) d) eqn:Hm; simpl; [exact IH|].
  rewrite Hm. exact IH.
Qed.

Section Rebuild.
Context (g : Z) (s : string) (others other_events : collection).

Lemma rebuilding_quiet (events : list kill_data) (w w' : world) :
  pvp_data w' = pvp_data w -> kill_events w' = kill_events w -> outcomes w' = outcomes w ->
  rebuilding g s others other_events events w ->
  rebuilding g s others other_events events w'.
Proof.
  intros Hp Hk Ho (Hout & Hrec & Hlog). unfold rebuilding.
  rewrite Hp, Hk, Ho. auto.
Qed.

(** The store reached, the update of a counter is refused all the same. *)
Lemma rebuilding_update (events : list kill_data) (w : world) (p counter : string) :
  rebuilding g s others other_events events w ->
  (update_pvp_stats g s p (inc_request counter) w).1 = Ok false /\
  rebuilding g s others other_events events
    (update_pvp_stats g s p (inc_request counter) w).2.
Proof.
  intros Hreb.
  destruct (update_pvp_stats_inc_through g s p counter w (proj1 Hreb))
    as (Hr & Hp & Hk & Ho).
  split; [exact Hr|].
  eapply rebuilding_quiet; [exact Hp|exact Hk| |exact Hreb].
  rewrite Ho. symmetry. apply Hreb.
Qed.

Lemma rebuilding_add (events : list kill_data) (w : world) (kd : kill_data) :
  rebuilding g s others other_events events w ->
  (add_kill_event g s kd w).1 = Ok true /\
  rebuilding g s others other_events (events ++ [kd]) (add_kill_event g s kd w).2.
Proof.
  intros (Hout & Hrec & (logged & Hlogged & Hall)).
  destruct (add_kill_event_through g s kd w Hout) as (t & Hr & Hk & Hp & Ho).
  split; [exact Hr|]. unfold rebuilding. rewrite Hp, Hk, Ho, Hlogged.
  split; [reflexivity|]. split; [exact Hrec|].
  exists (logged ++ [event_doc g s t kd]). rewrite app_assoc. split; [reflexivity|].
  apply Forall2_app; [exact Hall|]. constructor; [eauto|constructor].
Qed.

Lemma rebuilding_record (events : list kill_data) (w : world) (kd : kill_data) :
  rebuilding g s others other_events events w ->
  (HistoricalParser.record_historical g s kd w).1 = Ok tt /\
  rebuilding g s others other_events (events ++ [kd])
    (HistoricalParser.record_historical g s kd w).2.
Proof.
  intros Hreb. unfold HistoricalParser.record_historical.
  rewrite bind_run.
  destruct (rebuilding_add events w kd Hreb) as [Hr1 Hreb1].
  destruct (add_kill_event g s kd w) as [r1 w1]. simpl in Hr1, Hreb1. subst r1.
  destruct (is_suicide kd); simpl negb; cbv iota.
  - rewrite ret_bind_run, bind_run.
    destruct (rebuilding_update (events ++ [kd]) w1 (victim kd) "suicides" Hreb1)
      as [Hr2 Hreb2].
    destruct (update_pvp_stats g s (victim kd) (inc_request "suicides") w1) as [r2 w2].
    simpl in Hr2, Hreb2. subst r2. split; [reflexivity|exact Hreb2].
  - rewrite bind_assoc_run, bind_run.
    destruct (rebuilding_update (events ++ [kd]) w1 (killer kd) "kills" Hreb1)
      as [Hr2 Hreb2].
    destruct (update_pvp_stats g s (killer kd) (inc_request "kills") w1) as [r2 w2].
    simpl in Hr2, Hreb2. subst r2. rewrite ret_bind_run, bind_run.
    destruct (rebuilding_update (events ++ [kd]) w2 (victim kd) "deaths" Hreb2)
      as [Hr3 Hreb3].
    destruct (update_pvp_stats g s (victim kd) (inc_request "deaths") w2) as [r3 w3].
    simpl in Hr3, Hreb3. subst r3. split; [reflexivity|exact Hreb3].
Qed.

Context {L : PyLib}.

(** The progress notice of one turn of the loop leaves the stores alone. *)
Lemma rebuilding_progress (em : option Z) (i total : nat) (t last : Z)
    (events : list kill_data) (w : world) :
  rebuilding g s others other_events events w ->
  exists last' w',
    (match em with
     | Some ch =>
         if 30 <=? t - last
         then HistoricalParser.update_progress_embed ch (S i) total ≫= λ _, mret t
         else mret last
     | None => mret last
     end : io Z) w = (Ok last', w') /\
    rebuilding g s others other_events events w'.
Proof.
  intros Hreb.
  destruct em as [ch|]; [|exists last, w; split; [reflexivity|exact Hreb]].
  destruct (30 <=? t - last); [|exists last, w; split; [reflexivity|exact Hreb]].
  rewrite bind_run.
  destruct (progress_through ch (S i) total w (proj1 Hreb)) as (Hr & Hp & Hk & Ho).
  destruct (HistoricalParser.update_progress_embed ch (S i) total w) as [r w'].
  simpl in Hr, Hp, Hk, Ho. subst r. exists t, w'. split; [reflexivity|].
  eapply rebuilding_quiet; [exact Hp|exact Hk| |exact Hreb].
  rewrite Ho. symmetry. apply Hreb.
Qed.

Lemma rebuilding_loop (em : option Z) (total : nat) (lines : list string) :
  forall (i n : nat) (last : Z) (events : list kill_data) (w : world),
    rebuilding g s others other_events events w ->
    (HistoricalParser.refresh_loop g s em total lines i n last w).1
      = Ok (n + length (parsed_events lines))%nat /\
    rebuilding g s others other_events (events ++ parsed_events lines)
      (HistoricalParser.refresh_loop g s em total lines i n last w).2.
Proof.
  induction lines as [|line rest IH]; intros i n last events w Hreb.
  - simpl. rewrite Nat.add_0_r, app_nil_r. auto.
  - unfold parsed_events in *. simpl.
    destruct (String.eqb (Str.strip line) ""); [apply IH; exact Hreb|].
    destruct (parse_csv_line line) as [kd|] eqn:Hparse.
    + rewrite bind_assoc_run, bind_run.
      destruct (rebuilding_record events w kd Hreb) as [Hr1 Hreb1].
      destruct (HistoricalParser.record_historical g s kd w) as [r1 w1].
      simpl in Hr1, Hreb1. subst r1.
      rewrite ret_bind_run, now_bind_run, bind_run.
      set (w2 := set_readings (tail (readings w1)) w1).
      assert (Hreb2 : rebuilding g s others other_events (events ++ [kd]) w2).
      { eapply rebuilding_quiet; [| | |exact Hreb1]; reflexivity. }
      destruct (rebuilding_progress em i total (hd 0 (readings w1)) last _ w2 Hreb2)
        as (last' & w3 & -> & Hreb3).
      destruct (IH (S i) (S n) last' _ w3 Hreb3) as [Hr4 Hreb4].
      split.
      * rewrite Hr4. f_equal. simpl. symmetry. apply Nat.add_succ_r.
      * simpl. rewrite <- app_assoc in Hreb4. exact Hreb4.
    + rewrite ret_bind_run, now_bind_run, bind_run.
      set (w2 := set_readings (tail (readings w)) w).
      assert (Hreb2 : rebuilding g s others other_events events w2).
      { eapply rebuilding_quiet; [| | |exact Hreb]; reflexivity. }
      destruct (rebuilding_progress em i total (hd 0 (readings w)) last _ w2 Hreb2)
        as (last' & w3 & -> & Hreb3).
      apply IH. exact Hreb3.
Qed.

End Rebuild.

#[global] Instance kept_or_cleared_stable (g : Z) (s : string) : Stable (kept_or_cleared g s).
Proof.
  split; [split|..]; unfold kept_or_cleared.
  - intros w. left. reflexivity.
  - intros w1 w2 w3 [H12|H12] [H23|H23]; rewrite H23, H12; auto.
    right. apply delete_delete.
  - intros w o. left. reflexivity.
  - intros w r. left. reflexivity.
Qed.

Lemma same_data_kept_or_cleared {A} (g : Z) (s : string) (m : io A) :
  io_rel same_pvp_data m -> io_rel (kept_or_cleared g s) m.
Proof. intros Hm w. left. apply Hm. Qed.

Lemma clear_server_data_kept_or_cleared (g : Z) (s : string) :
  io_rel (kept_or_cleared g s) (HistoricalParser.clear_server_data g s).
Proof.
  unfold HistoricalParser.clear_server_data. io_rel_tac.
  - right. reflexivity.
  - left. reflexivity.
Qed.

Lemma post_same_data (n : notice) : io_rel same_pvp_data (HistoricalParser.post n).
Proof. unfold HistoricalParser.post. io_rel_tac; reflexivity. Qed.

Section RebuildRun.
Context {L : PyLib}.

Lemma refresh_loop_same_data (g : Z) (s : string) (em : option Z) (total : nat)
    (lines : list string) :
  forall (i n : nat) (last : Z),
    io_rel same_pvp_data (HistoricalParser.refresh_loop g s em total lines i n last).
Proof.
  pose proof record_historical_same_data.
  pose proof post_same_data.
  induction lines as [|line rest IH]; intros i n last; simpl.
  - io_rel_tac.
  - destruct (String.eqb (Str.strip line) ""); [apply IH|].
    unfold HistoricalParser.update_progress_embed. io_rel_tac.
Qed.

(** A refresh makes no record: whatever becomes of its calls, the records
    it leaves are those it found, or those it found on other servers. *)
Lemma refresh_server_data_kept_or_cleared (g : Z) (cfg : server_config) (ch : option Z) :
  io_rel (kept_or_cleared g (default "unknown" (cfg_server_id cfg)))
         (HistoricalParser.refresh_server_data g cfg ch).
Proof.
  set (s := default "unknown" (cfg_server_id cfg)).
  pose proof (fun em total lines i n last =>
    same_data_kept_or_cleared g s _
      (refresh_loop_same_data g s em total lines i n last)) as Hloop.
  pose proof (clear_server_data_kept_or_cleared g s) as Hclear.
  pose proof (fun n => same_data_kept_or_cleared g s _ (post_same_data n)) as Hpost.
  unfold HistoricalParser.refresh_server_data, HistoricalParser.refresh_enter.
  apply io_rel_bind; [typeclasses eauto| |intros [st|]].
  - intros w. destruct (default false _); left; reflexivity.
  - unfold HistoricalParser.refresh_run, HistoricalParser.release_guard,
      HistoricalParser.complete_progress_embed.
    fold s. io_rel_tac.
    all: try (apply io_rel_pure; typeclasses eauto).
    all: try destruct (active_refreshes _ !! HistoricalParser.refresh_key g cfg);
      left; reflexivity.
  - io_rel_tac.
Qed.

Lemma refresh_run_rebuilds (g : Z) (cfg : server_config) (ch : option Z) (t : Z)
    (w : world) (lines : list string) :
  outcomes w = [] ->
  HistoricalParser.get_all_csv_files w cfg = Ok lines -> lines ≠ [] ->
  let s := default "unknown" (cfg_server_id cfg) in
  (HistoricalParser.refresh_run g cfg ch t w).1 = Ok true /\
  active_refreshes (HistoricalParser.refresh_run g cfg ch t w).2 =
    <[HistoricalParser.refresh_key g cfg := false]> (active_refreshes w) /\
  rebuilding g s (coll_delete_many (server_filter g s) (pvp_data w))
    (coll_delete_many (server_filter g s) (kill_events w))
    (parsed_events lines)
    (HistoricalParser.refresh_run g cfg ch t w).2.
Proof.
  intros Hout Hfetch Hlines s.
  unfold HistoricalParser.refresh_run.
  set (key := HistoricalParser.refresh_key g cfg) in *. fold s.
  rewrite try_run, bind_run.
  set (start := match ch with
                | Some c => HistoricalParser.post (StartingEmbed c) ≫= λ _, mret (Some c)
                | None => mret None
                end : io (option Z)).
  assert (Hstart : exists w1, start w = (Ok ch, w1) /\ steady w w1 /\
            pvp_data w1 = pvp_data w /\ kill_events w1 = kill_events w /\ outcomes w1 = []).
  { subst start. destruct ch as [c|].
    - rewrite bind_run.
      pose proof (post_blind steady (StartingEmbed c) w) as Hsteady.
      destruct (post_through (StartingEmbed c) w Hout) as (Hr & Hp & Hk & Ho).
      destruct (HistoricalParser.post (StartingEmbed c) w) as [r w1]. simpl in *.
      subst r. exists w1. repeat split; try assumption; apply Hsteady.
    - exists w. repeat split; assumption. }
  destruct Hstart as (w1 & -> & (Hp1 & Hg1 & Hs1) & Hpd1 & Hke1 & Ho1).
  rewrite bind_run.
  pose proof (clear_server_data_blind steady g s w1) as (Hp2 & Hg2 & Hs2).
  destruct (clear_server_data_through g s w1 Ho1) as (Hr2 & Hpd2 & Hke2 & Ho2).
  destruct (HistoricalParser.clear_server_data g s w1) as [r2 w2].
  simpl in Hp2, Hg2, Hs2, Hr2, Hpd2, Hke2, Ho2. subst r2.
  rewrite bind_run.
  rewrite (get_all_csv_files_static w w2 cfg), Hfetch
    by (etransitivity; [exact Hs1|exact Hs2]).
  destruct lines as [|line rest]; [contradiction|].
  set (lines := line :: rest) in *.
  rewrite now_bind_run, bind_run.
  set (w3 := set_readings (tail (readings w2)) w2).
  assert (Hreb3 : rebuilding g s (coll_delete_many (server_filter g s) (pvp_data w))
            (coll_delete_many (server_filter g s) (kill_events w)) [] w3).
  { unfold rebuilding. subst w3. simpl. rewrite Ho2, Hpd2, Hke2, Hpd1, Hke1.
    split; [reflexivity|]. split; [reflexivity|].
    exists []. rewrite app_nil_r. split; [reflexivity|constructor]. }
  pose proof (refresh_loop_blind steady g s ch (length lines) lines 0 0
                (hd 0 (readings w2)) w3) as (Hp4 & Hg4 & Hs4).
  destruct (rebuilding_loop g s _ _ ch (length lines) lines
              0 0 (hd 0 (readings w2)) [] w3 Hreb3) as [Hr4 Hreb4].
  destruct (HistoricalParser.refresh_loop g s ch (length lines) lines 0 0
              (hd 0 (readings w2)) w3) as [r4 w4].
  simpl in Hp4, Hg4, Hs4, Hr4, Hreb4. subst r4.
  rewrite now_bind_run, bind_run.
  set (w5 := set_readings (tail (readings w4)) w4).
  assert (Hreb5 : rebuilding g s (coll_delete_many (server_filter g s) (pvp_data w))
            (coll_delete_many (server_filter g s) (kill_events w))
            ([] ++ parsed_events lines) w5).
  { eapply rebuilding_quiet; [| | |exact Hreb4]; reflexivity. }
  set (finish := match ch with
                 | Some c => HistoricalParser.complete_progress_embed c _ _
                 | None => mret tt
                 end : io unit).
  assert (Hfinish : exists w6, finish w5 = (Ok tt, w6) /\
            active_refreshes w6 = active_refreshes w5 /\
            rebuilding g s (coll_delete_many (server_filter g s) (pvp_data w))
              (coll_delete_many (server_filter g s) (kill_events w))
              ([] ++ parsed_events lines) w6).
  { subst finish. destruct ch as [c|].
    - pose proof (complete_progress_embed_blind steady c
                    (0 + length (parsed_events lines))
                    (hd 0 (readings w4) - t) w5) as (_ & Hg6 & _).
      destruct (complete_through c (0 + length (parsed_events lines))
                  (hd 0 (readings w4) - t) w5 (proj1 Hreb5)) as (Hr & Hp & Hk & Ho).
      destruct (HistoricalParser.complete_progress_embed c _ _ w5) as [r w6].
      simpl in *. subst r. exists w6. split; [reflexivity|]. split; [exact Hg6|].
      eapply rebuilding_quiet; [exact Hp|exact Hk| |exact Hreb5].
      rewrite Ho. symmetry. apply Hreb5.
    - exists w5. auto. }
  destruct Hfinish as (w6 & -> & Hg6 & Hreb6).
  unfold HistoricalParser.release_guard. simpl.
  split; [reflexivity|]. split.
  - rewrite Hg6. subst w5. simpl. rewrite Hg4. subst w3. simpl.
    rewrite Hg2, Hg1. reflexivity.
  - eapply rebuilding_quiet; [| | |exact Hreb6]; reflexivity.
Qed.

(** A run that every call of which goes through and whose fetch returns
    lines: it returns success, releases its guard, and the store holds the
    records of other servers and nothing else. *)
Lemma refresh_clears_for_good (w : world) (g : Z) (cfg : server_config) (ch : option Z)
    (lines : list string) :
  outcomes w = [] ->
  default false (active_refreshes w !! HistoricalParser.refresh_key g cfg) = false ->
  HistoricalParser.get_all_csv_files w cfg = Ok lines ->
  lines ≠ [] ->
  let s := default "unknown" (cfg_server_id cfg) in
  let w' := (HistoricalParser.refresh_server_data g cfg ch w).2 in
  (HistoricalParser.refresh_server_data g cfg ch w).1 = Ok true /\
  active_refreshes w' !! HistoricalParser.refresh_key g cfg = Some false /\
  pvp_data w' = coll_delete_many (server_filter g s) (pvp_data w) /\
  server_records g s w' = [].
Proof.
  intros Hout Hfree Hfetch Hlines s w'. subst w'.
  unfold HistoricalParser.refresh_server_data. rewrite bind_run.
  rewrite (refresh_enter_admitted g cfg w Hfree).
  set (wE := set_readings _ _).
  destruct (refresh_run_rebuilds g cfg ch (hd 0 (readings w)) wE lines)
    as (Hr & Hg & Hreb).
  { subst wE. exact Hout. }
  { rewrite <- Hfetch. apply get_all_csv_files_static. subst wE. repeat split. }
  { exact Hlines. }
  destruct (HistoricalParser.refresh_run g cfg ch (hd 0 (readings w)) wE) as [r w'].
  simpl in Hr, Hg, Hreb. subst r. simpl.
  split; [reflexivity|]. split; [rewrite Hg; apply lookup_insert_eq|].
  destruct Hreb as (_ & Hdata & _). subst wE. simpl in Hdata.
  split; [exact Hdata|]. eapply server_records_cleared. exact Hdata.
Qed.

End RebuildRun.

(** C6 (the code departs from it).  A server with a record and a logged
    event left from before, next to another server of the guild; a refresh
    over one valid line, the kill of Bob by Alice, every call reaching the
    store.  The run returns success, the record from before is gone and the
    other server's is kept, the event of the line is logged - and the server
    has no record at all, where the spec has one for the killer with [kills]
    1 and one for the victim with [deaths] 1.  It is so for every refresh:
    one that completes leaves the server without a record whatever its lines
    hold, and whatever becomes of its calls a refresh leaves the records it
    found or those of them that are not of the server, never a new one. *)
Theorem refresh_rebuilds_no_record :
  (let r := HistoricalParser.refresh_server_data (L := Fixture.lib) 7 configured None
              (stale_world [alice_bob_line]) in
   parsed_events (L := Fixture.lib) [alice_bob_line] = [alice_kills_bob] /\
   r.1 = Ok true /\
   server_records 7 "s1" r.2 = [] /\
   pvp_data r.2 = [old_record "s2" "Yan" 2] /\
   kill_events r.2 = [event_doc 7 "s1" 0 alice_kills_bob]) /\
  (forall (L : PyLib) (w : world) (g : Z) (cfg : server_config) (ch : option Z)
          (lines : list string),
     outcomes w = [] ->
     default false (active_refreshes w !! HistoricalParser.refresh_key g cfg) = false ->
     HistoricalParser.get_all_csv_files w cfg = Ok lines ->
     lines ≠ [] ->
     let s := default "unknown" (cfg_server_id cfg) in
     let w' := (HistoricalParser.refresh_server_data g cfg ch w).2 in
     (HistoricalParser.refresh_server_data g cfg ch w).1 = Ok true /\
     pvp_data w' = coll_delete_many (server_filter g s) (pvp_data w) /\
     server_records g s w' = []) /\
  (forall (L : PyLib) (w : world) (g : Z) (cfg : server_config) (ch : option Z),
     kept_or_cleared g (default "unknown" (cfg_server_id cfg)) w
       (HistoricalParser.refresh_server_data g cfg ch w).2).
Proof.
  split; [|split].
  - cbv zeta. split; [|split; [|split; [|split]]]; vm_compute; reflexivity.
  - intros L w g cfg ch lines Hout Hfree Hfetch Hlines s w'.
    destruct (refresh_clears_for_good w g cfg ch lines Hout Hfree Hfetch Hlines)
      as (Hr & _ & Hp & Hs).
    auto.
  - intros L w g cfg ch. apply refresh_server_data_kept_or_cleared.
Qed.
(** * Further properties *)

(** ** The keys of the dedup map and of the guard map *)

Lemma pretty_N_char_clean (x : N) : pretty_N_char x ≠ "_"%char.
Proof. unfold pretty_N_char. repeat case_match; discriminate. Qed.

Lemma pretty_N_go_clean (x : N) :
  forall s, underscore_free s -> underscore_free (pretty_N_go x s).
Proof.
  induction (N.lt_wf_0 x) as [x _ IH]. intros s Hs.
  destruct (decide (x = 0)%N) as [->|Hne].
  - rewrite pretty_N_go_0. exact Hs.
  - rewrite pretty_N_go_step by lia. apply IH.
    + apply N.div_lt; lia.
    + split; [apply pretty_N_char_clean|exact Hs].
Qed.

Lemma pretty_Z_clean (z : Z) : underscore_free (pretty z).
Proof.
  assert (HN : forall n : N, underscore_free (pretty n)).
  { intros n. unfold pretty, pretty_N. destruct (decide (n = 0)%N).
    - repeat split; discriminate.
    - apply pretty_N_go_clean. exact I. }
  destruct z as [|p|p]; unfold pretty, pretty_Z.
  - repeat split; discriminate.
  - apply (HN (Npos p)).
  - split; [discriminate|apply (HN (Npos p))].
Qed.

Lemma split_at_underscore (a b r1 r2 : string) :
  underscore_free a -> underscore_free b ->
  a +:+ "_" +:+ r1 = b +:+ "_" +:+ r2 -> a = b /\ r1 = r2.
Proof.
  revert b. induction a as [|c a IH]; intros [|d b] Ha Hb Heq; simpl in *.
  - injection Heq as Heq. subst. auto.
  - injection Heq as Hd _. destruct Hb as [Hb _]. congruence.
  - injection Heq as Hc _. destruct Ha as [Ha _]. congruence.
  - injection Heq as Hc Heq. destruct Ha as [_ Ha], Hb as [_ Hb].
    destruct (IH b Ha Hb Heq) as [-> ->]. subst. auto.
Qed.

(** X1.  The key [f"{guild_id}_{server_id}"] under which the lines seen and
    the running refresh of a server are filed tells servers apart: two keys
    are equal only for the same guild and the same server id, whatever
    underscores the server id contains.  For the guard of a refresh a server
    without an id counts as the server named [unknown]. *)
Theorem server_key_inj (g1 g2 : Z) (s1 s2 : string) (cfg1 cfg2 : server_config) :
  (KillfeedParser.server_key g1 s1 = KillfeedParser.server_key g2 s2 <->
   g1 = g2 /\ s1 = s2) /\
  (HistoricalParser.refresh_key g1 cfg1 = HistoricalParser.refresh_key g2 cfg2 <->
   g1 = g2 /\
   default "unknown" (cfg_server_id cfg1) = default "unknown" (cfg_server_id cfg2)).
Proof.
  assert (Hkey : forall a b, pretty g1 +:+ "_" +:+ a = pretty g2 +:+ "_" +:+ b <->
                             g1 = g2 /\ a = b).
  { intros a b. split; [|intros [-> ->]; reflexivity]. intros Heq.
    apply split_at_underscore in Heq as [Hg Hs]; try apply pretty_Z_clean.
    split; [|exact Hs]. apply (inj pretty). exact Hg. }
  split; apply Hkey.
Qed.

(** ** Which files the adapters read *)

Lemma max_mtime_step (l : list (string * Z)) :
  forall f y, newer_of f (max_mtime y l) = max_mtime (newer_of f y) l.
Proof.
  induction l as [|z l IH]; intros f y; simpl; [reflexivity|].
  fold (newer_of y z). fold (newer_of (newer_of f y) z).
  rewrite IH. f_equal. unfold newer_of.
  repeat (case_match; simpl in *); try reflexivity; lia.
Qed.

Lemma insert_mtime_desc_head (x : string * Z) (l : list (string * Z)) :
  head (insert_mtime_desc x l) =
    Some (match head l with Some y => newer_of x y | None => x end).
Proof. destruct l as [|y l]; simpl; [reflexivity|]. unfold newer_of. case_match; reflexivity. Qed.

Lemma sort_mtime_desc_head (f : string * Z) (fs : list (string * Z)) :
  head (sort_mtime_desc (f :: fs)) = Some (max_mtime f fs).
Proof.
  revert f. induction fs as [|y l IH]; intros f; [reflexivity|].
  change (sort_mtime_desc (f :: y :: l))
    with (insert_mtime_desc f (sort_mtime_desc (y :: l))).
  rewrite insert_mtime_desc_head, IH. simpl. f_equal.
  apply (max_mtime_step l f y).
Qed.

Lemma max_mtime_elem (l : list (string * Z)) :
  forall best, max_mtime best l ∈ best :: l.
Proof.
  induction l as [|y l IH]; intros best; simpl; [left|].
  pose proof (IH (if best.2 <? y.2 then y else best)) as Hin.
  apply elem_of_cons in Hin as [Hin|Hin].
  - rewrite Hin. destruct (best.2 <? y.2); [right; left|left].
  - right. right. exact Hin.
Qed.

Lemma max_mtime_upper (l : list (string * Z)) :
  forall best x, x ∈ best :: l -> x.2 <= (max_mtime best l).2.
Proof.
  induction l as [|y l IH]; intros best x Hx; simpl.
  - apply list_elem_of_singleton in Hx as ->. lia.
  - assert (Hbest : best.2 <= (max_mtime (if best.2 <? y.2 then y else best) l).2).
    { etransitivity; [|apply IH; left]. case_match; simpl; lia. }
    apply elem_of_cons in Hx as [->|Hx]; [exact Hbest|].
    apply elem_of_cons in Hx as [->|Hx].
    + etransitivity; [|apply IH; left]. case_match; simpl; lia.
    + apply IH. right. exact Hx.
Qed.

Lemma csv_only_elem (items : list (string * Z)) (x : string * Z) :
  x ∈ csv_only items <-> x ∈ items /\ Str.endswith ".csv" x.1 = true.
Proof. unfold csv_only. rewrite !list_elem_of_In, filter_In. tauto. Qed.

Lemma truthy_nonempty (s : string) : s ≠ "" -> truthy (Some s) = true.
Proof. intros Hs. simpl. destruct (String.eqb_spec s ""); [contradiction|reflexivity]. Qed.

(** X2.  With its credentials set, the connection made and the directory
    listed, the live fetch reads one file: the newest of the listed [.csv]
    files.  It gives the lines of that file, and no line when the file cannot
    be read or when nothing is listed.  The fixture directory is read by the
    same rule. *)
Theorem latest_fetch_reads_newest (r : remote) (cfg : server_config)
    (host user pw : string) (items : list (string * Z)) :
  cfg_sftp_host cfg = Some host -> cfg_sftp_username cfg = Some user ->
  cfg_sftp_password cfg = Some pw ->
  host ≠ "" -> user ≠ "" -> pw ≠ "" ->
  ssh_connect r host (default 22 (cfg_sftp_port cfg)) user pw = Ok tt ->
  let path := deathlogs_path host (default "unknown" (cfg_server_id cfg)) in
  listdir_attr r path = Ok items ->
  match csv_only items with
  | [] => KillfeedParser.get_sftp_csv_files r cfg = Ok []
  | f :: fs =>
      let newest := max_mtime f fs in
      newest ∈ items /\ Str.endswith ".csv" newest.1 = true /\
      (forall x, x ∈ items -> Str.endswith ".csv" x.1 = true -> x.2 <= newest.2) /\
      KillfeedParser.get_sftp_csv_files r cfg
        = Ok (lines_of (read_lines r) (path +:+ "/" +:+ newest.1)) /\
      forall d : local_dir, glob_csv d = Ok (f :: fs) ->
        KillfeedParser.get_dev_csv_files d = Ok (lines_of (local_lines d) newest.1)
  end.
Proof.
  intros Hh Hu Hp Hhne Hune Hpne Hconn path Hlist.
  assert (Hrun : KillfeedParser.get_sftp_csv_files r cfg =
            match sort_mtime_desc (csv_only items) with
            | (most_recent, _) :: _ =>
                Ok (lines_of (read_lines r) (path +:+ "/" +:+ most_recent))
            | [] => Ok []
            end).
  { unfold KillfeedParser.get_sftp_csv_files, KillfeedParser.get_sftp_csv_files_body.
    rewrite Hh, Hu, Hp, !truthy_nonempty by assumption. simpl negb. cbv iota.
    rewrite Hconn. simpl. fold path. rewrite Hlist. simpl.
    destruct (sort_mtime_desc (csv_only items)) as [|[name mt] rest]; [reflexivity|].
    unfold lines_of. destruct (read_lines r _); reflexivity. }
  destruct (csv_only items) as [|f fs] eqn:Hcsv; [exact Hrun|].
  cbv zeta. set (newest := max_mtime f fs).
  assert (Hin : newest ∈ csv_only items).
  { rewrite Hcsv. apply max_mtime_elem. }
  apply csv_only_elem in Hin as [Hin Hext].
  split; [exact Hin|]. split; [exact Hext|]. split; [|split].
  - intros x Hx Hxe. apply max_mtime_upper. rewrite <- Hcsv.
    apply csv_only_elem. auto.
  - rewrite Hrun. pose proof (sort_mtime_desc_head f fs) as Hhead.
    destruct (sort_mtime_desc (f :: fs)) as [|[name mt] rest]; [discriminate|].
    simpl in Hhead. injection Hhead as Hhead. fold newest in Hhead.
    rewrite <- Hhead. reflexivity.
  - intros d Hglob. unfold KillfeedParser.get_dev_csv_files. rewrite Hglob. simpl.
    fold newest. unfold lines_of. destruct (local_lines d _); reflexivity.
Qed.


Lemma latest_fetch_reads_newest_witness :
  KillfeedParser.get_sftp_csv_files archive_remote configured = Ok [carl_line].
Proof.
  pose proof (latest_fetch_reads_newest archive_remote configured
                "game.example" "bot" "secret"
                [("late.csv", 9); ("notes.txt", 12); ("early.csv", 5)]
                eq_refl eq_refl eq_refl
                ltac:(discriminate) ltac:(discriminate) ltac:(discriminate)
                eq_refl eq_refl) as H.
  simpl in H. destruct H as (_ & _ & _ & H & _). exact H.
Defined.

Lemma read_each_all (read : string -> exc (list string)) (paths : list string) :
  forall acc : list string,
    (forall p, p ∈ paths -> exists ls, read p = Ok ls) ->
    read_each read paths acc = (acc ++ (paths ≫= lines_of read), None).
Proof.
  induction paths as [|p ps IH]; intros acc Hall; simpl.
  - rewrite app_nil_r. reflexivity.
  - destruct (Hall p) as [ls Hls]; [left|].
    unfold lines_of at 1. rewrite Hls. rewrite IH.
    + rewrite <- app_assoc. reflexivity.
    + intros q Hq. apply Hall. right. exact Hq.
Qed.

Lemma bind_after_fmap {A B C} (f : A -> B) (g : B -> list C) (l : list A) :
  (f <$> l) ≫= g = l ≫= fun x => g (f x).
Proof. induction l as [|x l IH]; csimpl; [reflexivity|]. rewrite IH. reflexivity. Qed.

Lemma insert_mtime_asc_perm (x : string * Z) (l : list (string * Z)) :
  insert_mtime_asc x l ≡ₚ x :: l.
Proof.
  induction l as [|y l IH]; simpl; [reflexivity|].
  destruct (y.2 <? x.2); [|reflexivity].
  rewrite IH. apply Permutation_swap.
Qed.

Lemma sort_mtime_asc_perm (l : list (string * Z)) : sort_mtime_asc l ≡ₚ l.
Proof.
  induction l as [|x l IH]; simpl; [reflexivity|].
  change (foldr insert_mtime_asc [] l) with (sort_mtime_asc l).
  rewrite insert_mtime_asc_perm, IH. reflexivity.
Qed.

Lemma insert_mtime_asc_sorted (x : string * Z) (l : list (string * Z)) :
  StronglySorted not_newer l -> StronglySorted not_newer (insert_mtime_asc x l).
Proof.
  induction 1 as [|y l Hl IH Hy]; simpl.
  - repeat constructor.
  - destruct (y.2 <? x.2) eqn:Hlt.
    + constructor; [exact IH|].
      rewrite insert_mtime_asc_perm. constructor; [|exact Hy].
      unfold not_newer. lia.
    + constructor; [constructor; assumption|].
      constructor; [unfold not_newer; lia|].
      eapply Forall_impl; [exact Hy|]. unfold not_newer. intros z Hz. lia.
Qed.

Lemma sort_mtime_asc_sorted (l : list (string * Z)) :
  StronglySorted not_newer (sort_mtime_asc l).
Proof.
  induction l as [|x l IH]; simpl; [constructor|].
  apply insert_mtime_asc_sorted. exact IH.
Qed.

Section HistoricalOrder.
Context {L : PyLib}.

(** X3.  With its credentials set, the connection made, the directory
    listed and every listed log readable, the historical fetch gives the
    lines of all the [.csv] files, file after file from the oldest to the
    newest. *)
Theorem historical_fetch_in_time_order (env : gmap string string) (r : remote)
    (cfg : server_config) (host user pw : string) (port : Z)
    (items : list (string * Z)) :
  HistoricalParser.getenv env "SFTP_HOST" (cfg_sftp_host cfg) = Some host ->
  HistoricalParser.getenv env "SFTP_USERNAME" (cfg_sftp_username cfg) = Some user ->
  HistoricalParser.getenv env "SFTP_PASSWORD" (cfg_sftp_password cfg) = Some pw ->
  HistoricalParser.sftp_port_of env cfg = Ok port ->
  host ≠ "" -> user ≠ "" -> pw ≠ "" ->
  ssh_connect r host port user pw = Ok tt ->
  let path := deathlogs_path host (default "unknown" (cfg_server_id cfg)) in
  listdir_attr r path = Ok items ->
  (forall x, x ∈ items -> Str.endswith ".csv" x.1 = true ->
     exists ls, read_lines r (path +:+ "/" +:+ x.1) = Ok ls) ->
  let files := sort_mtime_asc (csv_only items) in
  files ≡ₚ csv_only items /\
  StronglySorted not_newer files /\
  HistoricalParser.get_sftp_csv_files env r cfg =
    Ok (files ≫= fun x => lines_of (read_lines r) (path +:+ "/" +:+ x.1)).
Proof.
  intros Hh Hu Hp Hport Hhne Hune Hpne Hconn path Hlist Hread files.
  split; [apply sort_mtime_asc_perm|]. split; [apply sort_mtime_asc_sorted|].
  unfold HistoricalParser.get_sftp_csv_files, HistoricalParser.get_sftp_csv_files_body.
  rewrite Hport. simpl. rewrite Hh, Hu, Hp, !truthy_nonempty by assumption.
  simpl negb. cbv iota. rewrite Hconn. simpl. fold path. rewrite Hlist.
  fold files. rewrite read_each_all.
  - simpl. f_equal. apply bind_after_fmap.
  - intros p Hp'. apply list_elem_of_fmap in Hp' as (x & -> & Hx).
    unfold files in Hx. rewrite sort_mtime_asc_perm in Hx.
    apply csv_only_elem in Hx as [Hx Hext]. apply Hread; assumption.
Qed.

End HistoricalOrder.

Lemma historical_fetch_in_time_order_witness :
  HistoricalParser.get_sftp_csv_files (L := Fixture.lib) ∅ archive_remote configured
    = Ok [alice_bob_line; carl_line].
Proof.
  pose proof (historical_fetch_in_time_order (L := Fixture.lib) ∅ archive_remote configured
                "game.example" "bot" "secret" 22
                [("late.csv", 9); ("notes.txt", 12); ("early.csv", 5)]
                eq_refl eq_refl eq_refl eq_refl
                ltac:(discriminate) ltac:(discriminate) ltac:(discriminate)
                eq_refl eq_refl) as H.
  simpl in H. destruct H as (_ & _ & H).
  - intros x Hx Hext.
    apply elem_of_cons in Hx as [->|Hx]; [eexists; reflexivity|].
    apply elem_of_cons in Hx as [->|Hx]; [discriminate|].
    apply elem_of_cons in Hx as [->|Hx]; [eexists; reflexivity|].
    inversion Hx.
  - exact H.
Defined.

(** ** One server's ingestion and the documents of the others *)

#[global] Instance others_kept_pre (g : Z) (s : string) : PreOrder (others_kept g s).
Proof.
  split.
  - intros w. split; reflexivity.
  - intros w1 w2 w3 [H1 H2] [H3 H4]. split; congruence.
Qed.

#[global] Instance others_kept_stable (g : Z) (s : string) : Stable (others_kept g s).
Proof. split; [apply _| |]; intros w ?; split; reflexivity. Qed.

Lemma event_doc_matches (g : Z) (s : string) (t : Z) (kd : kill_data) :
  matches (server_filter g s) (event_doc g s t kd) = true.
Proof. apply matches_server_filter. split; reflexivity. Qed.

Lemma delete_insert_event (g : Z) (s : string) (t : Z) (kd : kill_data) (c : collection) :
  coll_delete_many (server_filter g s) (coll_insert_one (event_doc g s t kd) c)
  = coll_delete_many (server_filter g s) c.
Proof.
  unfold coll_delete_many, coll_insert_one. rewrite List.filter_app. simpl.
  rewrite event_doc_matches. apply app_nil_r.
Qed.

Lemma update_pvp_stats_others (g : Z) (s p : string) (upd : doc) (g0 : Z) (s0 : string) :
  io_rel (others_kept g0 s0) (update_pvp_stats g s p upd).
Proof.
  intros w. destruct (update_pvp_stats_refused g s p upd w) as (_ & Hp & Hk).
  split; [rewrite Hp|rewrite Hk]; reflexivity.
Qed.


Lemma add_kill_event_others (g : Z) (s : string) (kd : kill_data) :
  io_rel (others_kept g s) (add_kill_event g s kd).
Proof.
  unfold add_kill_event. io_rel_tac. split; [reflexivity|]. simpl.
  apply (delete_insert_event g s a kd).
Qed.

Lemma send_killfeed_embed_others (g : Z) (kd : kill_data) (g0 : Z) (s0 : string) :
  io_rel (others_kept g0 s0) (KillfeedParser.send_killfeed_embed g kd).
Proof. unfold KillfeedParser.send_killfeed_embed. io_rel_tac. Qed.

Lemma process_kill_event_others (g : Z) (s : string) (kd : kill_data) :
  io_rel (others_kept g s) (KillfeedParser.process_kill_event g s kd).
Proof.
  unfold KillfeedParser.process_kill_event.
  pose proof (fun p c => update_pvp_stats_others g s p (inc_request c) g s).
  pose proof add_kill_event_others.
  pose proof send_killfeed_embed_others.
  io_rel_tac.
Qed.

Lemma record_historical_others (g : Z) (s : string) (kd : kill_data) :
  io_rel (others_kept g s) (HistoricalParser.record_historical g s kd).
Proof.
  unfold HistoricalParser.record_historical.
  pose proof (fun p c => update_pvp_stats_others g s p (inc_request c) g s).
  pose proof add_kill_event_others.
  io_rel_tac.
Qed.

Lemma clear_server_data_others (g : Z) (s : string) :
  io_rel (others_kept g s) (HistoricalParser.clear_server_data g s).
Proof.
  unfold HistoricalParser.clear_server_data. io_rel_tac.
  - split; [|reflexivity]. simpl. apply delete_delete.
  - split; [reflexivity|]. simpl. apply delete_delete.
Qed.

Lemma post_others (n : notice) (g : Z) (s : string) :
  io_rel (others_kept g s) (HistoricalParser.post n).
Proof. unfold HistoricalParser.post. io_rel_tac. Qed.

Lemma mark_parsed_others (key line : string) (g : Z) (s : string) :
  io_rel (others_kept g s) (KillfeedParser.mark_parsed key line).
Proof.
  intros w. unfold KillfeedParser.mark_parsed.
  destruct (parsed_lines w !! key); split; reflexivity.
Qed.

Section OthersKept.
Context {L : PyLib}.

Lemma killfeed_loop_others (g : Z) (s key : string) (lines : list string) :
  forall n, io_rel (others_kept g s) (KillfeedParser.killfeed_loop g s key lines n).
Proof.
  pose proof process_kill_event_others.
  pose proof mark_parsed_others.
  induction lines as [|line rest IH]; intros n; simpl.
  - io_rel_tac.
  - unfold KillfeedParser.parsed_for. io_rel_tac.
    all: try (apply io_rel_pure; typeclasses eauto).
    all: destruct (parse_csv_line line); io_rel_tac.
Qed.

Lemma ingest_lines_others (g : Z) (s : string) (lines : list string) :
  io_rel (others_kept g s) (KillfeedParser.ingest_lines g s lines).
Proof.
  pose proof killfeed_loop_others.
  unfold KillfeedParser.ingest_lines. io_rel_tac.
  destruct (parsed_lines _ !! _); split; reflexivity.
Qed.

Lemma parse_server_killfeed_others (g : Z) (cfg : server_config) :
  io_rel (others_kept g (default "unknown" (cfg_server_id cfg)))
         (KillfeedParser.parse_server_killfeed g cfg).
Proof.
  pose proof ingest_lines_others.
  unfold KillfeedParser.parse_server_killfeed, KillfeedParser.fetch_latest. io_rel_tac.
  all: try (apply io_rel_pure; typeclasses eauto).
Qed.

Lemma update_progress_embed_others (ch : Z) (current total : nat) (g : Z) (s : string) :
  io_rel (others_kept g s) (HistoricalParser.update_progress_embed ch current total).
Proof.
  pose proof post_others. unfold HistoricalParser.update_progress_embed. io_rel_tac.
Qed.

Lemma complete_progress_embed_others (ch : Z) (n : nat) (d : Z) (g : Z) (s : string) :
  io_rel (others_kept g s) (HistoricalParser.complete_progress_embed ch n d).
Proof.
  pose proof post_others. unfold HistoricalParser.complete_progress_embed. io_rel_tac.
Qed.

Lemma refresh_loop_others (g : Z) (s : string) (em : option Z) (total : nat)
    (lines : list string) :
  forall (i n : nat) (last : Z),
    io_rel (others_kept g s) (HistoricalParser.refresh_loop g s em total lines i n last).
Proof.
  pose proof record_historical_others.
  pose proof update_progress_embed_others.
  induction lines as [|line rest IH]; intros i n last; simpl.
  - io_rel_tac.
  - destruct (String.eqb (Str.strip line) ""); [apply IH|].
    io_rel_tac.
Qed.

Lemma refresh_run_others (g : Z) (cfg : server_config) (ch : option Z) (t : Z) :
  io_rel (others_kept g (default "unknown" (cfg_server_id cfg)))
         (HistoricalParser.refresh_run g cfg ch t).
Proof.
  pose proof refresh_loop_others.
  pose proof clear_server_data_others.
  pose proof post_others.
  pose proof complete_progress_embed_others.
  unfold HistoricalParser.refresh_run, HistoricalParser.release_guard.
  io_rel_tac.
  all: try (apply io_rel_pure; typeclasses eauto).
  all: try destruct (active_refreshes _ !! HistoricalParser.refresh_key g cfg);
    split; reflexivity.
Qed.

Lemma refresh_server_data_others (g : Z) (cfg : server_config) (ch : option Z) :
  io_rel (others_kept g (default "unknown" (cfg_server_id cfg)))
         (HistoricalParser.refresh_server_data g cfg ch).
Proof.
  pose proof refresh_run_others.
  unfold HistoricalParser.refresh_server_data, HistoricalParser.refresh_enter.
  apply io_rel_bind; [typeclasses eauto| |intros [st|]; io_rel_tac].
  intros w. destruct (default false _); [reflexivity|]. split; reflexivity.
Qed.

End OthersKept.


Lemma other_server_differs (g g' : Z) (s s' : string) (d : doc) :
  (g', s') ≠ (g, s) -> matches (server_filter g' s') d = true ->
  matches (server_filter g s) d = false.
Proof.
  intros Hne Hm. apply matches_server_filter in Hm as [Hg Hs].
  destruct (matches (server_filter g s) d) eqn:Hm'; [|reflexivity].
  apply matches_server_filter in Hm' as [Hg' Hs']. congruence.
Qed.

Lemma filter_past_delete (g g' : Z) (s s' : string) (c : collection) :
  (g', s') ≠ (g, s) ->
  List.filter (matches (server_filter g' s')) (coll_delete_many (server_filter g s) c)
  = List.filter (matches (server_filter g' s')) c.
Proof.
  intros Hne. unfold coll_delete_many. induction c as [|d c IH]; simpl; [reflexivity|].
  destruct (matches (server_filter g' s') d) eqn:Hm.
  - rewrite (other_server_differs g g' s s' d Hne Hm). simpl. rewrite Hm, IH. reflexivity.
  - destruct (matches (server_filter g s) d); simpl; [exact IH|]. rewrite Hm. exact IH.
Qed.

Lemma find_past_delete (g g' : Z) (s s' p : string) (c : collection) :
  (g', s') ≠ (g, s) ->
  coll_find_one (pvp_filter g' s' p) (coll_delete_many (server_filter g s) c)
  = coll_find_one (pvp_filter g' s' p) c.
Proof.
  intros Hne. unfold coll_delete_many, coll_find_one.
  induction c as [|d c IH]; simpl; [reflexivity|].
  destruct (matches (pvp_filter g' s' p) d) eqn:Hm.
  - rewrite (other_server_differs g g' s s' d Hne (pvp_match_server_match _ _ _ _ Hm)).
    simpl. rewrite Hm. reflexivity.
  - destruct (matches (server_filter g s) d); simpl; [exact IH|]. rewrite Hm. exact IH.
Qed.

Lemma others_kept_untouched (g g' : Z) (s s' : string) (w w' : world) :
  (g', s') ≠ (g, s) -> others_kept g s w w' -> untouched g' s' w w'.
Proof.
  intros Hne [Hp He]. unfold untouched, server_records, server_events, get_pvp_stats.
  split; [|split].
  - rewrite <- (filter_past_delete g g' s s' (pvp_data w')) by exact Hne.
    rewrite Hp. apply filter_past_delete. exact Hne.
  - rewrite <- (filter_past_delete g g' s s' (kill_events w')) by exact Hne.
    rewrite He. apply filter_past_delete. exact Hne.
  - intros p. rewrite <- (find_past_delete g g' s s' p (pvp_data w')) by exact Hne.
    rewrite Hp. apply find_past_delete. exact Hne.
Qed.

Section Isolation.
Context {L : PyLib}.

(** X4.  Handling an event of one server, ingesting its lines and a whole
    pass of the live parser over it leave the records and the logged events of
    every other server as they were, whatever calls to the store fail on the
    way. *)
Theorem incremental_keeps_other_servers (w : world) (g : Z) (cfg : server_config)
    (kd : kill_data) (lines : list string) (g' : Z) (s' : string) :
  let s := default "unknown" (cfg_server_id cfg) in
  (g', s') ≠ (g, s) ->
  untouched g' s' w (KillfeedParser.process_kill_event g s kd w).2 /\
  untouched g' s' w (KillfeedParser.ingest_lines g s lines w).2 /\
  untouched g' s' w (KillfeedParser.parse_server_killfeed g cfg w).2.
Proof.
  intros s Hne. split; [|split]; apply (others_kept_untouched g g' s s' _ _ Hne).
  - apply process_kill_event_others.
  - apply ingest_lines_others.
  - apply parse_server_killfeed_others.
Qed.

(** X5.  A historical refresh of one server, and the clearing it starts
    with, leave the records and the logged events of every other server as
    they were, whatever calls fail on the way. *)
Theorem refresh_keeps_other_servers (w : world) (g : Z) (cfg : server_config)
    (ch : option Z) (g' : Z) (s' : string) :
  let s := default "unknown" (cfg_server_id cfg) in
  (g', s') ≠ (g, s) ->
  untouched g' s' w (HistoricalParser.clear_server_data g s w).2 /\
  untouched g' s' w (HistoricalParser.refresh_server_data g cfg ch w).2.
Proof.
  intros s Hne. split; apply (others_kept_untouched g g' s s' _ _ Hne).
  - apply clear_server_data_others.
  - apply refresh_server_data_others.
Qed.

End Isolation.

Lemma incremental_keeps_other_servers_witness :
  server_records 7 "s2"
    (KillfeedParser.parse_server_killfeed (L := Fixture.lib) 7 configured
       (stale_world [alice_bob_line])).2
  = [old_record "s2" "Yan" 2].
Proof.
  destruct (incremental_keeps_other_servers (L := Fixture.lib) (stale_world [alice_bob_line])
              7 configured alice_kills_bob [] 7 "s2" ltac:(discriminate))
    as (_ & _ & Hrec & _).
  rewrite Hrec. reflexivity.
Defined.

Lemma refresh_keeps_other_servers_witness :
  server_records 7 "s2"
    (HistoricalParser.refresh_server_data (L := Fixture.lib) 7 configured None
       (stale_world [alice_bob_line])).2
  = [old_record "s2" "Yan" 2].
Proof.
  destruct (refresh_keeps_other_servers (L := Fixture.lib) (stale_world [alice_bob_line])
              7 configured None 7 "s2" ltac:(discriminate))
    as (_ & Hrec & _).
  rewrite Hrec. reflexivity.
Defined.

(** ** The guard of a refresh, whatever fails *)

Lemma bind_guards {A B} (m : io A) (k : A -> io B) (P : exc B -> world -> Prop)
    (w : world) :
  io_rel same_guards m ->
  (forall e w1, active_refreshes w1 = active_refreshes w -> P (Raise e) w1) ->
  (forall a w1, active_refreshes w1 = active_refreshes w -> P (k a w1).1 (k a w1).2) ->
  P ((m ≫= k) w).1 ((m ≫= k) w).2.
Proof.
  intros Hm Hraise Hok. rewrite bind_run. specialize (Hm w). unfold same_guards in Hm.
  destruct (m w) as [[a|e] w1]; simpl in *; [apply Hok|apply Hraise]; exact Hm.
Qed.

Section GuardReleased.
Context {L : PyLib}.

Lemma refresh_run_releases (g : Z) (cfg : server_config) (ch : option Z) (t : Z)
    (w : world) :
  is_Some (active_refreshes w !! HistoricalParser.refresh_key g cfg) ->
  exists b w', HistoricalParser.refresh_run g cfg ch t w = (Ok b, w') /\
    active_refreshes w' = <[HistoricalParser.refresh_key g cfg := false]> (active_refreshes w).
Proof.
  intros Hkey. unfold HistoricalParser.refresh_run.
  set (key := HistoricalParser.refresh_key g cfg) in *.
  rewrite try_run.
  match goal with |- context [match ?body w with _ => _ end] => set (run := body) end.
  assert (Hbody : guard_after key w (run w).1 (run w).2).
  { unfold run. apply (bind_guards _ _ (guard_after key w)).
    - destruct ch; io_rel_tac.
    - intros e w1 H1. exact H1.
    - intros em w1 H1. apply (bind_guards _ _ (guard_after key w)).
      + io_rel_tac.
      + intros e w2 H2. simpl. congruence.
      + intros _ w2 H2. apply (bind_guards _ _ (guard_after key w)).
        * apply io_rel_pure. typeclasses eauto.
        * intros e w3 H3. simpl. congruence.
        * intros lines w3 H3. destruct lines as [|line lines].
          -- unfold HistoricalParser.release_guard, io_modify. simpl. congruence.
          -- apply (bind_guards _ _ (guard_after key w)).
             ++ io_rel_tac.
             ++ intros e w4 H4. simpl. congruence.
             ++ intros last w4 H4. apply (bind_guards _ _ (guard_after key w)).
                ** apply refresh_loop_blind. typeclasses eauto.
                ** intros e w5 H5. simpl. congruence.
                ** intros n w5 H5. apply (bind_guards _ _ (guard_after key w)).
                   --- io_rel_tac.
                   --- intros e w6 H6. simpl. congruence.
                   --- intros fin w6 H6. apply (bind_guards _ _ (guard_after key w)).
                       +++ destruct em; io_rel_tac.
                       +++ intros e w7 H7. simpl. congruence.
                       +++ intros _ w7 H7.
                           unfold HistoricalParser.release_guard, io_modify. simpl.
                           congruence. }
  destruct (run w) as [[b|e] w1]; simpl in Hbody.
  - exists b, w1. split; [reflexivity|exact Hbody].
  - simpl. exists false. eexists. split; [reflexivity|].
    unfold io_modify. simpl. rewrite Hbody. destruct Hkey as [v Hv]. rewrite Hv.
    reflexivity.
Qed.

(** X6.  A refresh that is admitted returns, whatever call fails on the
    way, and leaves the guard map as it found it but for its own guard, which
    is released: the next refresh of the server is admitted. *)
Theorem refresh_always_releases (w : world) (g : Z) (cfg : server_config) (ch : option Z) :
  let key := HistoricalParser.refresh_key g cfg in
  default false (active_refreshes w !! key) = false ->
  exists b w',
    HistoricalParser.refresh_server_data g cfg ch w = (Ok b, w') /\
    active_refreshes w' = <[key := false]> (active_refreshes w) /\
    exists t, (HistoricalParser.refresh_enter g cfg w').1 = Ok (Some t).
Proof.
  intros key Hfree. unfold HistoricalParser.refresh_server_data.
  rewrite bind_run, refresh_enter_admitted by exact Hfree.
  match goal with |- context [HistoricalParser.refresh_run g cfg ch ?t ?w1] =>
    destruct (refresh_run_releases g cfg ch t w1) as (b & w' & Hrun & Hguard)
  end.
  { simpl. fold key. rewrite lookup_insert_eq. eauto. }
  exists b, w'. split; [exact Hrun|]. simpl in Hguard. fold key in Hguard.
  rewrite insert_insert_eq in Hguard. split; [exact Hguard|].
  rewrite refresh_enter_admitted; [eauto|].
  fold key. rewrite Hguard, lookup_insert_eq. reflexivity.
Qed.

End GuardReleased.

Lemma refresh_always_releases_witness :
  let w := set_outcomes [true; true; true; true] (stale_world [alice_bob_line]) in
  active_refreshes
    (HistoricalParser.refresh_server_data (L := Fixture.lib) 7 configured (Some 5) w).2
  = {[HistoricalParser.refresh_key 7 configured := false]}.
Proof.
  intros w.
  destruct (refresh_always_releases (L := Fixture.lib) w 7 configured (Some 5) eq_refl)
    as (b & w' & Hrun & Hguard & _).
  rewrite Hrun. simpl. rewrite Hguard. reflexivity.
Defined.

(** ** What the two loops count *)

Lemma with_key_seen_set (key k : string) (w : world) :
  seen_set (with_key key w) k = seen_set w k.
Proof.
  unfold seen_set, with_key. destruct (parsed_lines w !! key) eqn:Hk; [reflexivity|].
  simpl. destruct (decide (key = k)) as [<-|Hne].
  - rewrite lookup_insert_eq, Hk. reflexivity.
  - rewrite lookup_insert_ne by exact Hne. reflexivity.
Qed.

Lemma with_key_but (key : string) (w : world) : parsed_but key w (with_key key w).
Proof.
  intros k Hne. unfold with_key. destruct (parsed_lines w !! key); [reflexivity|].
  simpl. rewrite lookup_insert_ne by congruence. reflexivity.
Qed.

Lemma not_seen_set (w : world) (key line : string) :
  is_Some (parsed_lines w !! key) -> ~ seen w key line -> line ∉ seen_set w key.
Proof.
  intros [lines Hl] Hns Hin. apply Hns. exists lines. split; [exact Hl|].
  unfold seen_set in Hin. rewrite Hl in Hin. exact Hin.
Qed.

Section Counting.
Context {L : PyLib}.

Lemma killfeed_loop_counts (g : Z) (s key : string) (lines : list string) :
  forall (n : nat) (w : world),
    is_Some (parsed_lines w !! key) ->
    exists (m : nat) (w' : world),
      KillfeedParser.killfeed_loop g s key lines n w = (Ok (n + m)%nat, w') /\
      size (seen_set w' key) = (size (seen_set w key) + m)%nat /\
      parsed_but key w w' /\
      active_refreshes w' = active_refreshes w.
Proof.
  induction lines as [|line rest IH]; intros n w Hkey.
  - exists 0%nat, w. simpl. rewrite !Nat.add_0_r. repeat split; reflexivity.
  - destruct (String.eqb_spec (Str.strip line) "") as [Hblank|Hfull].
    { rewrite killfeed_loop_blank by exact Hblank. apply IH. exact Hkey. }
    destruct (seen_dec w key line) as [Hseen|Hnew].
    { rewrite killfeed_loop_seen by exact Hseen. apply IH. exact Hkey. }
    destruct (parse_csv_line line) as [kd|] eqn:Hparse.
    2: { rewrite killfeed_loop_unparsed by assumption. apply IH. exact Hkey. }
    rewrite (killfeed_loop_new g s key line rest n w kd) by assumption.
    destruct (process_kill_event_returns g s kd w) as (w1 & Hrun & Hsame).
    rewrite Hrun. simpl.
    assert (Hguards : active_refreshes w1 = active_refreshes w).
    { pose proof (process_kill_event_blind same_guards g s kd w) as H.
      rewrite Hrun in H. exact H. }
    destruct (IH (S n) (marked key line w1)) as (m & w' & Hloop & Hsize & Hbut & Hact).
    { apply marked_present. }
    exists (S m), w'. split; [rewrite Hloop; do 2 f_equal; lia|].
    split; [|split].
    + rewrite Hsize. unfold seen_set at 1, marked. simpl.
      rewrite lookup_insert_eq. simpl. rewrite Hsame.
      fold (seen_set w key). rewrite size_union.
      * rewrite size_singleton. lia.
      * apply disjoint_singleton_l. apply not_seen_set; assumption.
    + intros k Hne. rewrite (Hbut k Hne). unfold marked. simpl.
      rewrite lookup_insert_ne by congruence. rewrite Hsame. reflexivity.
    + rewrite Hact. unfold marked. simpl. exact Hguards.
Qed.

(** X7.  Ingesting lines for a server always returns.  The number of new
    events it reports is the number of lines it adds to the lines seen for
    that server; the lines seen for other servers and the guards of the
    refreshes are left as they were. *)
Theorem new_events_counts_marked (w : world) (g : Z) (s : string) (lines : list string) :
  let key := KillfeedParser.server_key g s in
  exists (new_events : nat) (w' : world),
    KillfeedParser.ingest_lines g s lines w = (Ok new_events, w') /\
    size (seen_set w' key) = (size (seen_set w key) + new_events)%nat /\
    parsed_but key w w' /\
    active_refreshes w' = active_refreshes w.
Proof.
  intros key. rewrite ingest_lines_eq. fold key.
  destruct (killfeed_loop_counts g s key lines 0 (with_key key w))
    as (m & w' & Hloop & Hsize & Hbut & Hact).
  { apply with_key_present. }
  exists m, w'. split; [exact Hloop|]. split; [|split].
  - rewrite Hsize, with_key_seen_set. reflexivity.
  - intros k Hne. rewrite (Hbut k Hne). apply with_key_but. exact Hne.
  - rewrite Hact. unfold with_key. destruct (parsed_lines w !! key); reflexivity.
Qed.

End Counting.


Lemma io_returns_bind {A B} (m : io A) (k : A -> io B) :
  io_returns m -> (forall a, io_returns (k a)) -> io_returns (m ≫= k).
Proof.
  intros Hm Hk w. rewrite bind_run. destruct (Hm w) as [a Ha].
  destruct (m w) as [r w1]. simpl in Ha. subst r. apply Hk.
Qed.

Lemma record_historical_returns (g : Z) (s : string) (kd : kill_data) :
  io_returns (HistoricalParser.record_historical g s kd).
Proof.
  unfold HistoricalParser.record_historical.
  apply io_returns_bind; [apply add_kill_event_returns|intros _].
  apply io_returns_bind.
  - destruct (negb (is_suicide kd)); [|apply io_returns_ret].
    apply io_returns_bind; [apply update_pvp_stats_returns|intros _; apply io_returns_ret].
  - intros _. apply io_returns_bind; [apply update_pvp_stats_returns|].
    intros _. apply io_returns_ret.
Qed.

Lemma update_progress_embed_returns (ch : Z) (current total : nat) :
  io_returns (HistoricalParser.update_progress_embed ch current total).
Proof. apply io_returns_try. intros e. apply io_returns_ret. Qed.

Lemma complete_progress_embed_returns (ch : Z) (n : nat) (d : Z) :
  io_returns (HistoricalParser.complete_progress_embed ch n d).
Proof. apply io_returns_try. intros e. apply io_returns_ret. Qed.

Lemma returns_run {A} (m : io A) (w : world) :
  io_returns m -> exists a, m w = (Ok a, (m w).2).
Proof. intros Hm. destruct (Hm w) as [a Ha]. exists a. destruct (m w). simpl in *. congruence. Qed.

Section RefreshCount.
Context {L : PyLib}.

Lemma refresh_loop_counts (g : Z) (s : string) (em : option Z) (total : nat)
    (lines : list string) :
  forall (i n : nat) (last : Z) (w : world),
    (HistoricalParser.refresh_loop g s em total lines i n last w).1
      = Ok (n + length (parsed_events lines))%nat.
Proof.
  induction lines as [|line rest IH]; intros i n last w.
  - simpl. rewrite Nat.add_0_r. reflexivity.
  - unfold parsed_events in *. simpl.
    destruct (String.eqb (Str.strip line) ""); [apply IH|].
    assert (Hprogress : forall t w0, exists last' w1,
      (match em with
       | Some ch =>
           if 30 <=? t - last
           then HistoricalParser.update_progress_embed ch (S i) total ≫= λ _, mret t
           else mret last
       | None => mret last
       end : io Z) w0 = (Ok last', w1)).
    { intros t w0. destruct em as [ch|]; [|eexists _, _; reflexivity].
      destruct (30 <=? t - last); [|eexists _, _; reflexivity].
      rewrite bind_run.
      destruct (returns_run _ w0 (update_progress_embed_returns ch (S i) total)) as [[] ->].
      eexists _, _. reflexivity. }
    destruct (parse_csv_line line) as [kd|] eqn:Hparse.
    + rewrite bind_assoc_run, bind_run.
      destruct (returns_run _ w (record_historical_returns g s kd)) as [[] ->].
      rewrite ret_bind_run, now_bind_run, bind_run.
      match goal with |- context [match ?m ?w0 with _ => _ end] =>
        destruct (Hprogress (hd 0 (readings (HistoricalParser.record_historical g s kd w).2)) w0)
          as (last' & w1 & ->) end.
      rewrite IH. f_equal. simpl. symmetry. apply Nat.add_succ_r.
    + rewrite ret_bind_run, now_bind_run, bind_run.
      match goal with |- context [match ?m ?w0 with _ => _ end] =>
        destruct (Hprogress (hd 0 (readings w)) w0) as (last' & w1 & ->) end.
      apply IH.
Qed.

(** X8.  The count a refresh ends with is the number of lines that are
    not blank and parse, whatever writes to the store failed; and a refresh
    that is admitted, finds lines and has no channel to post to reports
    success, whatever calls failed on the way. *)
Theorem refresh_counts_parsed_lines (w : world) (g : Z) (cfg : server_config)
    (lines : list string) :
  default false (active_refreshes w !! HistoricalParser.refresh_key g cfg) = false ->
  HistoricalParser.get_all_csv_files w cfg = Ok lines ->
  lines ≠ [] ->
  (HistoricalParser.refresh_server_data g cfg None w).1 = Ok true /\
  forall (em : option Z) (w0 : world) (last : Z),
    (HistoricalParser.refresh_loop g (default "unknown" (cfg_server_id cfg)) em
       (length lines) lines 0 0 last w0).1
    = Ok (length (parsed_events lines)).
Proof.
  intros Hfree Hfetch Hlines. split; [|intros; apply refresh_loop_counts].
  unfold HistoricalParser.refresh_server_data.
  rewrite bind_run, refresh_enter_admitted by exact Hfree.
  set (w1 := set_readings _ _).
  unfold HistoricalParser.refresh_run.
  rewrite try_run, ret_bind_run, bind_run.
  set (s := default "unknown" (cfg_server_id cfg)).
  pose proof (clear_server_data_blind same_static g s w1) as Hstatic.
  destruct (returns_run _ w1 (clear_server_data_returns g s)) as [[] Hclear].
  rewrite Hclear. set (w2 := (HistoricalParser.clear_server_data g s w1).2) in *.
  rewrite bind_run.
  rewrite (get_all_csv_files_static w w2 cfg), Hfetch.
  2: { destruct Hstatic as (H1 & H2 & H3 & H4 & H5). repeat split; assumption. }
  destruct lines as [|line rest]; [contradiction|].
  rewrite now_bind_run, bind_run.
  match goal with |- context [HistoricalParser.refresh_loop ?a ?b ?c ?d ?e ?f ?h ?i ?w0] =>
    pose proof (refresh_loop_counts a b c d e f h i w0) as Hcount;
    destruct (HistoricalParser.refresh_loop a b c d e f h i w0) as [r w3] end.
  simpl in Hcount. subst r. rewrite now_bind_run, ret_bind_run, bind_run.
  reflexivity.
Qed.

End RefreshCount.

Lemma refresh_counts_parsed_lines_witness :
  (HistoricalParser.refresh_server_data (L := Fixture.lib) 7 configured None
     (set_outcomes [true; true; true; true; true]
        (stale_world [alice_bob_line; "not a record"; carl_line]))).1 = Ok true /\
  (HistoricalParser.refresh_loop (L := Fixture.lib) 7 "s1" None 3
     [alice_bob_line; "not a record"; carl_line] 0 0 0
     (set_outcomes [true; true; true; true; true] (stale_world []))).1 = Ok 2%nat.
Proof.
  destruct (refresh_counts_parsed_lines (L := Fixture.lib)
              (set_outcomes [true; true; true; true; true]
                 (stale_world [alice_bob_line; "not a record"; carl_line]))
              7 configured [alice_bob_line; "not a record"; carl_line]
              eq_refl eq_refl ltac:(discriminate)) as [Hrun Hcount].
  split; [exact Hrun|].
  exact (Hcount None (set_outcomes [true; true; true; true; true] (stale_world [])) 0).
Defined.

(** ** The log of events *)

Lemma add_kill_event_run (w : world) (g : Z) (s : string) (kd : kill_data) :
  add_kill_event g s kd w =
    let w0 := set_outcomes (tail (outcomes w)) (set_readings (tail (readings w)) w) in
    if next_fails w then (Ok false, w0)
    else (Ok true,
          set_kill_events (kill_events w ++ [event_doc g s (hd 0 (readings w)) kd]) w0).
Proof.
  unfold add_kill_event, next_fails, io_try, mbind, io_bind, now, external. simpl.
  destruct (outcomes w) as [|[|] o]; reflexivity.
Qed.

Lemma event_doc_fields (g : Z) (s : string) (t : Z) (kd : kill_data) :
  event_doc g s t kd !! "guild_id" = Some (VInt g) /\
  event_doc g s t kd !! "server_id" = Some (VStr s) /\
  event_doc g s t kd !! "timestamp" = Some (VTime (timestamp kd)) /\
  forall k v, kill_data_doc kd !! k = Some v -> event_doc g s t kd !! k = Some v.
Proof.
  split; [reflexivity|]. split; [reflexivity|]. split; [reflexivity|].
  intros k v Hk. unfold event_doc. apply lookup_union_Some_l. exact Hk.
Qed.

(** X9.  [add_kill_event] always returns and never touches the player
    records.  When the store takes the write it logs one entry at the end,
    filed under the guild and the server, carrying every field of the parsed
    event; its time is the time of the event, not the time of the write.
    When the store fails it reports [False] and the log is as it was. *)
Theorem add_kill_event_logs_event_time (w : world) (g : Z) (s : string) (kd : kill_data) :
  let r := add_kill_event g s kd w in
  pvp_data r.2 = pvp_data w /\
  r.1 = Ok (negb (next_fails w)) /\
  if next_fails w then kill_events r.2 = kill_events w
  else exists d,
    kill_events r.2 = kill_events w ++ [d] /\
    d !! "guild_id" = Some (VInt g) /\ d !! "server_id" = Some (VStr s) /\
    d !! "timestamp" = Some (VTime (timestamp kd)) /\
    forall k v, kill_data_doc kd !! k = Some v -> d !! k = Some v.
Proof.
  intros r. subst r. rewrite add_kill_event_run. cbv zeta.
  destruct (next_fails w); cbn [fst snd negb].
  - repeat split; reflexivity.
  - split; [reflexivity|]. split; [reflexivity|].
    exists (event_doc g s (hd 0 (readings w)) kd).
    split; [reflexivity|]. apply event_doc_fields.
Qed.

Lemma add_kill_event_one_entry (w : world) (g : Z) (s : string) (kd : kill_data) :
  kill_events (add_kill_event g s kd w).2 = kill_events w \/
  exists d, kill_events (add_kill_event g s kd w).2 = kill_events w ++ [d].
Proof.
  rewrite add_kill_event_run. cbv zeta. destruct (next_fails w); cbn [snd]; eauto.
Qed.

#[global] Instance log_grows_pre : PreOrder log_grows.
Proof.
  split.
  - intros w. unfold log_grows. reflexivity.
  - intros w1 w2 w3. unfold log_grows. intros H1 H2. etransitivity; eassumption.
Qed.

#[global] Instance log_grows_stable : Stable log_grows.
Proof. split; [apply _| |]; intros w ?; unfold log_grows; reflexivity. Qed.

Lemma add_kill_event_grows (g : Z) (s : string) (kd : kill_data) :
  io_rel log_grows (add_kill_event g s kd).
Proof.
  unfold add_kill_event. io_rel_tac. unfold log_grows, coll_insert_one. simpl.
  apply prefix_app_r. reflexivity.
Qed.

Lemma update_pvp_stats_grows (g : Z) (s p : string) (upd : doc) :
  io_rel log_grows (update_pvp_stats g s p upd).
Proof.
  intros w. unfold log_grows. rewrite (update_pvp_stats_events g s p upd w). reflexivity.
Qed.

Lemma send_killfeed_embed_grows (g : Z) (kd : kill_data) :
  io_rel log_grows (KillfeedParser.send_killfeed_embed g kd).
Proof.
  intros w. unfold log_grows.
  destruct (send_killfeed_embed_stores g kd w) as [-> _]. reflexivity.
Qed.

Lemma process_kill_event_grows (g : Z) (s : string) (kd : kill_data) :
  io_rel log_grows (KillfeedParser.process_kill_event g s kd).
Proof.
  unfold KillfeedParser.process_kill_event.
  pose proof update_pvp_stats_grows.
  pose proof add_kill_event_grows.
  pose proof send_killfeed_embed_grows.
  io_rel_tac.
Qed.

Lemma mark_parsed_log (key line : string) :
  io_rel log_grows (KillfeedParser.mark_parsed key line).
Proof.
  intros w. unfold KillfeedParser.mark_parsed, log_grows.
  destruct (parsed_lines w !! key); reflexivity.
Qed.

Section LogGrows.
Context {L : PyLib}.

Lemma killfeed_loop_log (g : Z) (s key : string) (lines : list string) :
  forall n, io_rel log_grows (KillfeedParser.killfeed_loop g s key lines n).
Proof.
  pose proof process_kill_event_grows.
  pose proof mark_parsed_log.
  induction lines as [|line rest IH]; intros n; simpl.
  - io_rel_tac.
  - unfold KillfeedParser.parsed_for. io_rel_tac.
    all: try (apply io_rel_pure; typeclasses eauto).
    all: destruct (parse_csv_line line); io_rel_tac.
Qed.

Lemma ingest_lines_log (g : Z) (s : string) (lines : list string) :
  io_rel log_grows (KillfeedParser.ingest_lines g s lines).
Proof.
  pose proof killfeed_loop_log.
  unfold KillfeedParser.ingest_lines. io_rel_tac.
  unfold log_grows. destruct (parsed_lines _ !! _); reflexivity.
Qed.

(** X10.  The live parser only ever adds to the log of events: after an
    event is handled, after lines are ingested and after a whole pass over a
    server, the log starts with the entries it held before, unchanged and in
    the same order; handling one event adds at most one entry. *)
Theorem live_parser_appends_to_log (w : world) (g : Z) (s : string)
    (cfg : server_config) (kd : kill_data) (lines : list string) :
  kill_events w `prefix_of` kill_events (KillfeedParser.process_kill_event g s kd w).2 /\
  (length (kill_events (KillfeedParser.process_kill_event g s kd w).2)
     <= S (length (kill_events w)))%nat /\
  kill_events w `prefix_of` kill_events (KillfeedParser.ingest_lines g s lines w).2 /\
  kill_events w `prefix_of` kill_events (KillfeedParser.parse_server_killfeed g cfg w).2.
Proof.
  split; [apply process_kill_event_grows|]. split; [|split].
  - rewrite process_kill_event_unfold. cbv zeta.
    rewrite (proj1 (send_killfeed_embed_stores _ _ _)).
    assert (Hadd : (length (kill_events (add_kill_event g s kd w).2)
                      <= S (length (kill_events w)))%nat).
    { destruct (add_kill_event_one_entry w g s kd) as [-> | (d & ->)];
        [lia|]. rewrite length_app. simpl. lia. }
    destruct (is_suicide kd); rewrite !update_pvp_stats_events; exact Hadd.
  - apply ingest_lines_log.
  - assert (H : io_rel log_grows (KillfeedParser.parse_server_killfeed g cfg)).
    { pose proof ingest_lines_log.
      unfold KillfeedParser.parse_server_killfeed, KillfeedParser.fetch_latest. io_rel_tac.
      all: try (apply io_rel_pure; typeclasses eauto). }
    apply H.
Qed.

End LogGrows.

(** ** Writing a player's record *)

(** X11.  [update_pvp_stats] never writes.  Its request carries
    [last_updated] under [$setOnInsert], with the defaults, and under [$set],
    with the update: the store refuses it, whatever the update and whatever
    the store holds.  The call returns [False], and the records, the log of
    events and what [get_pvp_stats] reads of any player are what they were
    before it.  The requests of the two parsers would be refused without
    that too, for the field [$inc] they ask [$set] to write. *)
Theorem update_pvp_stats_never_writes (w : world) (g : Z) (s p : string) (upd : doc) :
  (forall (t0 t1 : Z) (c : collection),
     update_one (pvp_filter g s p) (default_stats g s p t0)
                (<["last_updated" := VTime t1]> upd) c = Raise OtherError) /\
  (exists w', update_pvp_stats g s p upd w = (Ok false, w') /\
     pvp_data w' = pvp_data w /\ kill_events w' = kill_events w /\
     forall g' s' p', get_pvp_stats w' g' s' p' = get_pvp_stats w g' s' p') /\
  (forall (counter : string) (t : Z),
     names_operator (<["last_updated" := VTime t]> (inc_request counter)) = true).
Proof.
  split; [|split].
  - intros t0 t1 c. apply update_one_refused.
  - destruct (update_pvp_stats_refused g s p upd w) as (Hr & Hp & Hk).
    destruct (update_pvp_stats g s p upd w) as [r w']. simpl in Hr, Hp, Hk. subst r.
    exists w'. split; [reflexivity|]. split; [exact Hp|]. split; [exact Hk|].
    intros g' s' p'. unfold get_pvp_stats. rewrite Hp. reflexivity.
  - intros counter t. apply names_operator_inc.
Qed.


(** X12.  [update_pvp_stats] always returns a truth value and never
    touches the log of events; when it reports [False], whatever went wrong,
    the player records are as they were. *)
Theorem update_pvp_stats_failure_writes_nothing (w : world) (g : Z) (s p : string)
    (upd : doc) :
  exists (b : bool) (w' : world),
    update_pvp_stats g s p upd w = (Ok b, w') /\
    kill_events w' = kill_events w /\
    (b = true \/ pvp_data w' = pvp_data w).
Proof.
  destruct (update_pvp_stats_refused g s p upd w) as (Hr & Hp & Hk).
  destruct (update_pvp_stats g s p upd w) as [r w']. simpl in Hr, Hp, Hk. subst r.
  exists false, w'. split; [reflexivity|]. split; [exact Hk|]. right. exact Hp.
Qed.

(** ** Parsing a line again *)

Lemma rev_onto_list (s acc : string) :
  list_ascii_of_string (Str.rev_onto s acc)
  = rev (list_ascii_of_string s) ++ list_ascii_of_string acc.
Proof.
  revert acc. induction s as [|c s IH]; intros acc; simpl; [reflexivity|].
  rewrite IH. simpl. rewrite <- app_assoc. reflexivity.
Qed.

Lemma reverse_list (s : string) :
  list_ascii_of_string (Str.reverse s) = rev (list_ascii_of_string s).
Proof. unfold Str.reverse. rewrite rev_onto_list. simpl. apply app_nil_r. Qed.

Lemma lstrip_list (s : string) :
  list_ascii_of_string (Str.lstrip s) = drop_spaces (list_ascii_of_string s).
Proof.
  induction s as [|c s IH]; simpl; [reflexivity|].
  destruct (Str.is_space c); [exact IH|reflexivity].
Qed.

Lemma strip_list (s : string) :
  list_ascii_of_string (Str.strip s)
  = rev (drop_spaces (rev (drop_spaces (list_ascii_of_string s)))).
Proof.
  unfold Str.strip, Str.rstrip.
  rewrite reverse_list, lstrip_list, reverse_list, lstrip_list. reflexivity.
Qed.

Lemma drop_spaces_idem (l : list ascii) : drop_spaces (drop_spaces l) = drop_spaces l.
Proof.
  induction l as [|c l IH]; simpl; [reflexivity|].
  destruct (Str.is_space c) eqn:Hc; [exact IH|]. simpl. rewrite Hc. reflexivity.
Qed.

Lemma drop_spaces_end (l : list ascii) (c : ascii) :
  Str.is_space c = false -> exists y, drop_spaces (l ++ [c]) = y ++ [c].
Proof.
  intros Hc. induction l as [|a l IH]; simpl.
  - rewrite Hc. exists []. reflexivity.
  - destruct (Str.is_space a); [exact IH|]. exists (a :: l). reflexivity.
Qed.

Lemma drop_spaces_head (l : list ascii) :
  drop_spaces l = [] \/
  exists c m, drop_spaces l = c :: m /\ Str.is_space c = false.
Proof.
  induction l as [|a l IH]; simpl; [left; reflexivity|].
  destruct (Str.is_space a) eqn:Ha; [exact IH|]. right. eauto.
Qed.

Lemma strip_list_idem (l : list ascii) :
  let stripped := rev (drop_spaces (rev (drop_spaces l))) in
  rev (drop_spaces (rev (drop_spaces stripped))) = stripped.
Proof.
  cbv zeta. destruct (drop_spaces_head l) as [->|(c & m & -> & Hc)]; [reflexivity|].
  simpl rev at 3. destruct (drop_spaces_end (rev m) c Hc) as [y Hy].
  rewrite Hy, rev_app_distr. simpl. rewrite Hc.
  change (c :: rev y) with ([c] ++ rev y). rewrite rev_app_distr, rev_involutive.
  simpl. rewrite <- Hy, drop_spaces_idem, Hy, rev_app_distr. reflexivity.
Qed.

Lemma strip_idem (s : string) : Str.strip (Str.strip s) = Str.strip s.
Proof.
  rewrite <- (string_of_list_ascii_of_string (Str.strip (Str.strip s))).
  rewrite <- (string_of_list_ascii_of_string (Str.strip s)) at 2.
  f_equal. rewrite (strip_list (Str.strip s)), (strip_list s).
  apply strip_list_idem.
Qed.

Section ParseAgain.
Context {L : PyLib}.

Lemma parse_csv_line_strip (line : string) :
  parse_csv_line (Str.strip line) = parse_csv_line line.
Proof.
  unfold parse_csv_line, parse_csv_line_body. rewrite strip_idem. reflexivity.
Qed.

Lemma parse_csv_line_parts (line : string) (kd : kill_data) :
  parse_csv_line line = Some kd ->
  exists ts k v wp d rest t,
    Str.split "," (Str.strip line) = ts :: k :: v :: wp :: d :: rest /\
    parse_timestamp ts = Ok t /\
    kd = KillData t k v (normalize_weapon (detect_suicide k v wp) wp)
                  (distance_value d) (detect_suicide k v wp) (Str.strip line).
Proof.
  intros Hparse.
  destruct (decide (length (Str.split "," (Str.strip line)) < 5)%nat) as [Hshort|Hlong].
  { rewrite parse_csv_line_short in Hparse by exact Hshort. discriminate Hparse. }
  destruct (long_enough _ Hlong) as (ts & k & v & wp & d & rest & Hsplit).
  rewrite (parse_csv_line_fields line ts k v wp d rest Hsplit) in Hparse.
  destruct (parse_timestamp ts) as [t|e] eqn:Hts; [|discriminate Hparse].
  injection Hparse as <-. exists ts, k, v, wp, d, rest, t. auto.
Qed.

(** X13.  Parsing does not see the white space around a line: a line and
    the line stripped parse alike.  The text an event keeps of its line is the
    line stripped, so parsing that text again gives the same event. *)
Theorem parse_csv_line_again (line : string) :
  parse_csv_line (Str.strip line) = parse_csv_line line /\
  forall kd, parse_csv_line line = Some kd ->
    raw_line kd = Str.strip line /\ parse_csv_line (raw_line kd) = Some kd.
Proof.
  split; [apply parse_csv_line_strip|]. intros kd Hparse.
  destruct (parse_csv_line_parts line kd Hparse)
    as (ts & k & v & wp & d & rest & t & Hsplit & Hts & ->).
  simpl. split; [reflexivity|]. rewrite parse_csv_line_strip. exact Hparse.
Qed.

(** X14.  A parsed suicide carries one of the two normalised weapon names,
    whatever the log named; the feed therefore shows it as a player reset, and
    never as a falling death.  Any other parsed event is shown as a kill. *)
Theorem parsed_suicide_shown_as_reset (line : string) (kd : kill_data) :
  parse_csv_line line = Some kd ->
  (is_suicide kd = true -> weapon kd = menu_suicide \/ weapon kd = generic_suicide) /\
  (killer kd = victim kd -> is_suicide kd = true) /\
  KillfeedParser.embed_title kd = if is_suicide kd then "Player Reset" else "Kill".
Proof.
  intros Hparse.
  destruct (parse_csv_line_parts line kd Hparse)
    as (ts & k & v & wp & d & rest & t & Hsplit & Hts & ->).
  unfold KillfeedParser.embed_title. cbn [is_suicide weapon killer victim].
  rewrite normalize_weapon_spec.
  split; [|split].
  - intros ->. destruct (Str.contains "relocation" (Str.lower wp)); auto.
  - intros ->. unfold detect_suicide. rewrite String.eqb_refl. reflexivity.
  - destruct (detect_suicide k v wp); [|reflexivity].
    destruct (Str.contains "relocation" (Str.lower wp)); reflexivity.
Qed.

End ParseAgain.

Lemma parse_csv_line_again_witness :
  exists kd, @parse_csv_line Fixture.lib ("  " +:+ alice_bob_line +:+ " ") = Some kd /\
    raw_line kd = alice_bob_line /\ @parse_csv_line Fixture.lib (raw_line kd) = Some kd.
Proof.
  destruct (parse_csv_line_again (L := Fixture.lib) ("  " +:+ alice_bob_line +:+ " "))
    as [_ Hagain].
  eexists. split; [reflexivity|]. apply Hagain. reflexivity.
Defined.

Lemma parsed_suicide_shown_as_reset_witness :
  exists kd, @parse_csv_line Fixture.lib dan_fall_line = Some kd /\
    weapon kd = generic_suicide /\ KillfeedParser.embed_title kd = "Player Reset".
Proof.
  eexists. split; [reflexivity|].
  destruct (parsed_suicide_shown_as_reset (L := Fixture.lib) dan_fall_line _ eq_refl)
    as (_ & _ & Htitle).
  split; [reflexivity|exact Htitle].
Defined.

(** ** The progress bar *)

Lemma py_repeat_length {A} (x : A) (n : Z) : length (py_repeat x n) = Z.to_nat n.
Proof. unfold py_repeat. apply repeat_length. Qed.

(** X15.  For a count of lines between none and all of them, the bar has
    twenty cells, the filled ones first; all are filled exactly when every
    line is done, and the percentage lies between 0 and 100.  With no line to
    do the bar is empty and the percentage 0. *)
Theorem progress_bar_twenty_cells (current total : Z) :
  0 <= current <= total ->
  0 <= filled_length current total <= 20 /\
  length (progress_bar current total) = 20%nat /\
  progress_bar current total
    = repeat Full (Z.to_nat (filled_length current total))
      ++ repeat Blank (20 - Z.to_nat (filled_length current total)) /\
  (0 < total -> (filled_length current total = 20 <-> current = total)) /\
  (total = 0 -> filled_length current total = 0 /\ progress_percent current total = 0%Q) /\
  (0 <= progress_percent current total <= 100)%Q.
Proof.
  intros [Hlo Hhi].
  assert (Hfilled : 0 <= filled_length current total <= 20).
  { unfold filled_length, progress_bar_length. destruct (0 <? total) eqn:Hpos; [|lia].
    apply Z.ltb_lt in Hpos. split.
    - apply Z.div_pos; lia.
    - apply Z.div_le_upper_bound; lia. }
  split; [exact Hfilled|]. split; [|split; [|split; [|split]]].
  - unfold progress_bar, progress_bar_length. rewrite length_app, !py_repeat_length. lia.
  - unfold progress_bar, py_repeat, progress_bar_length. do 2 f_equal. lia.
  - intros Hpos. unfold filled_length, progress_bar_length.
    destruct (0 <? total) eqn:Hlt; [|apply Z.ltb_ge in Hlt; lia]. split.
    + intros Hfull.
      assert (Hmul : total * 20 <= 20 * current).
      { rewrite <- Hfull at 1. apply Z.mul_div_le. lia. }
      lia.
    + intros ->. apply Z.div_mul. lia.
  - intros ->. unfold filled_length, progress_percent. simpl. split; reflexivity.
  - unfold progress_percent. destruct (0 <? total) eqn:Hpos.
    2: { split; unfold Qle; simpl; lia. }
    apply Z.ltb_lt in Hpos.
    assert (Htot : (0 < inject_Z total)%Q) by (unfold Qlt; simpl; lia).
    assert (Hq : (0 <= inject_Z current / inject_Z total <= 1)%Q).
    { split.
      - apply Qle_shift_div_l; [exact Htot|]. rewrite Qmult_0_l.
        unfold Qle. simpl. lia.
      - apply Qle_shift_div_r; [exact Htot|]. rewrite Qmult_1_l.
        unfold Qle. simpl. lia. }
    destruct Hq as [Hq0 Hq1]. split.
    + apply Qmult_le_0_compat; [exact Hq0|]. unfold Qle. simpl. lia.
    + apply Qle_trans with (1 * 100)%Q; [|unfold Qle; simpl; lia].
      apply Qmult_le_compat_r; [exact Hq1|]. unfold Qle. simpl. lia.
Qed.

Lemma progress_bar_twenty_cells_witness :
  filled_length 7 10 = 14 /\ length (progress_bar 7 10) = 20%nat /\
  progress_bar 7 10 = repeat Full 14 ++ repeat Blank 6.
Proof.
  destruct (progress_bar_twenty_cells 7 10 ltac:(lia)) as (_ & Hlen & Hbar & _).
  split; [reflexivity|]. split; [exact Hlen|exact Hbar].
Defined.

(** ** What is posted to the chat *)

Lemma posts_refl (P : notice -> Prop) (w w' : world) :
  sent w' = sent w -> posts P w w'.
Proof. intros Hs. exists []. rewrite app_nil_r. split; [exact Hs|constructor]. Qed.

Lemma posts_trans (P : notice -> Prop) (w1 w2 w3 : world) :
  posts P w1 w2 -> posts P w2 w3 -> posts P w1 w3.
Proof.
  intros (n1 & H1 & F1) (n2 & H2 & F2). exists (n1 ++ n2).
  rewrite H2, H1, app_assoc. split; [reflexivity|]. apply Forall_app. auto.
Qed.

#[global] Instance posts_pre (P : notice -> Prop) : PreOrder (posts P).
Proof.
  split.
  - intros w. apply posts_refl. reflexivity.
  - intros w1 w2 w3. apply posts_trans.
Qed.

#[global] Instance posts_stable (P : notice -> Prop) : Stable (posts P).
Proof. split; [apply _| |]; intros w ?; apply posts_refl; reflexivity. Qed.

Lemma posts_one (P : notice -> Prop) (n : notice) (w : world) :
  P n -> posts P w (set_sent (sent w ++ [n]) w).
Proof. intros Hn. exists [n]. split; [reflexivity|]. constructor; [exact Hn|constructor]. Qed.

Lemma update_pvp_stats_posts (P : notice -> Prop) (g : Z) (s p : string) (upd : doc) :
  io_rel (posts P) (update_pvp_stats g s p upd).
Proof.
  unfold update_pvp_stats, calculate_kdr. io_rel_tac.
  all: apply posts_refl; simpl; try destruct (update_one _ _ _ _); reflexivity.
Qed.

Lemma add_kill_event_posts (P : notice -> Prop) (g : Z) (s : string) (kd : kill_data) :
  io_rel (posts P) (add_kill_event g s kd).
Proof. unfold add_kill_event. io_rel_tac. apply posts_refl. reflexivity. Qed.

Lemma clear_server_data_posts (P : notice -> Prop) (g : Z) (s : string) :
  io_rel (posts P) (HistoricalParser.clear_server_data g s).
Proof.
  unfold HistoricalParser.clear_server_data. io_rel_tac.
  all: apply posts_refl; reflexivity.
Qed.

Lemma record_historical_posts (P : notice -> Prop) (g : Z) (s : string) (kd : kill_data) :
  io_rel (posts P) (HistoricalParser.record_historical g s kd).
Proof.
  pose proof (update_pvp_stats_posts P).
  pose proof (add_kill_event_posts P).
  unfold HistoricalParser.record_historical. io_rel_tac.
Qed.

Lemma post_posts (P : notice -> Prop) (n : notice) :
  P n -> io_rel (posts P) (HistoricalParser.post n).
Proof.
  intros Hn. unfold HistoricalParser.post. io_rel_tac. apply posts_one. exact Hn.
Qed.

Section RefreshPosts.
Context {L : PyLib}.

Lemma refresh_loop_posts (g : Z) (s : string) (ch em : option Z) (total : nat)
    (lines : list string) :
  (em = None \/ em = ch) ->
  forall (i n : nat) (last : Z),
    (i + length lines = total)%nat ->
    io_rel (posts (refresh_notice ch))
           (HistoricalParser.refresh_loop g s em total lines i n last).
Proof.
  intros Hem. pose proof (record_historical_posts (refresh_notice ch)).
  induction lines as [|line rest IH]; intros i n last Hi; simpl.
  - io_rel_tac.
  - simpl in Hi.
    destruct (String.eqb (Str.strip line) ""); [apply IH; lia|].
    apply io_rel_bind; [typeclasses eauto| |intros n'].
    { destruct (parse_csv_line line); io_rel_tac. }
    apply io_rel_bind; [typeclasses eauto|io_rel_tac|intros t].
    apply io_rel_bind; [typeclasses eauto| |intros last'; apply IH; lia].
    destruct em as [c|]; [|io_rel_tac].
    destruct (30 <=? t - last); [|io_rel_tac].
    apply io_rel_bind; [typeclasses eauto| |intros ?; io_rel_tac].
    unfold HistoricalParser.update_progress_embed.
    apply io_rel_try; [typeclasses eauto| |intros ?; io_rel_tac].
    apply post_posts. simpl. destruct Hem as [Hem|Hem]; [discriminate Hem|].
    split; [congruence|lia].
Qed.

Lemma io_rel_bind_assoc {A B C} (R : world -> world -> Prop) (m : io A)
    (f : A -> io B) (k : B -> io C) :
  io_rel R (m ≫= fun x => f x ≫= k) -> io_rel R ((m ≫= f) ≫= k).
Proof. intros H w. rewrite bind_assoc_run. apply H. Qed.

Lemma refresh_run_posts (g : Z) (cfg : server_config) (ch : option Z) (t : Z) :
  io_rel (posts (refresh_notice ch)) (HistoricalParser.refresh_run g cfg ch t).
Proof.
  pose proof (clear_server_data_posts (refresh_notice ch)).
  unfold HistoricalParser.refresh_run, HistoricalParser.release_guard.
  apply io_rel_try; [typeclasses eauto| |].
  2: { intros e. io_rel_tac.
       destruct (active_refreshes _ !! _); apply posts_refl; reflexivity. }
  assert (Hrest : io_rel (posts (refresh_notice ch))
    (HistoricalParser.clear_server_data g (default "unknown" (cfg_server_id cfg)) ≫= λ _,
     (fun w => (HistoricalParser.get_all_csv_files w cfg, w)) ≫= λ lines,
       match lines with
       | [] => HistoricalParser.release_guard (HistoricalParser.refresh_key g cfg)
               ≫= λ _, mret false
       | _ :: _ =>
         now ≫= λ last_update_time,
         HistoricalParser.refresh_loop g (default "unknown" (cfg_server_id cfg)) ch
           (length lines) lines 0 0 last_update_time ≫= λ processed_count,
         now ≫= λ finish,
         match ch with
         | Some c => HistoricalParser.complete_progress_embed c processed_count (finish - t)
         | None => mret ()
         end ≫= λ _,
         HistoricalParser.release_guard (HistoricalParser.refresh_key g cfg)
         ≫= λ _, mret true
       end)).
  { unfold HistoricalParser.release_guard.
    apply io_rel_bind; [typeclasses eauto|auto|intros _].
    apply io_rel_bind; [typeclasses eauto|apply io_rel_pure; typeclasses eauto|intros lines].
    destruct lines as [|line rest].
    { io_rel_tac. apply posts_refl. reflexivity. }
    apply io_rel_bind; [typeclasses eauto|io_rel_tac|intros last].
    apply io_rel_bind; [typeclasses eauto| |intros n].
    { apply refresh_loop_posts; [right; reflexivity|reflexivity]. }
    apply io_rel_bind; [typeclasses eauto|io_rel_tac|intros fin].
    apply io_rel_bind; [typeclasses eauto| |intros _].
    { destruct ch as [c|]; [|io_rel_tac].
      unfold HistoricalParser.complete_progress_embed.
      apply io_rel_try; [typeclasses eauto| |intros ?; io_rel_tac].
      apply post_posts. reflexivity. }
    io_rel_tac. apply posts_refl. reflexivity. }
  destruct ch as [c|].
  - apply io_rel_bind_assoc.
    apply io_rel_bind; [typeclasses eauto|apply post_posts; reflexivity|intros _].
    apply io_rel_ret_bind. exact Hrest.
  - apply io_rel_ret_bind. exact Hrest.
Qed.

(** X16.  Whatever a historical refresh posts comes after what was posted
    before and is addressed to the channel it was called with: a start
    notice, progress that lies between one line and all the lines, a
    completion notice.  It never posts a feed embed, and called without a
    channel it posts nothing. *)
Theorem refresh_posts_no_feed_embed (w : world) (g : Z) (cfg : server_config)
    (ch : option Z) :
  let w' := (HistoricalParser.refresh_server_data g cfg ch w).2 in
  (exists new, sent w' = sent w ++ new /\ Forall (refresh_notice ch) new) /\
  (forall c title, KillfeedEmbed c title ∈ sent w' -> KillfeedEmbed c title ∈ sent w) /\
  sent (HistoricalParser.refresh_server_data g cfg None w).2 = sent w.
Proof.
  assert (Hposts : forall ch0,
            posts (refresh_notice ch0) w (HistoricalParser.refresh_server_data g cfg ch0 w).2).
  { intros ch0. revert w.
    change (io_rel (posts (refresh_notice ch0))
                   (HistoricalParser.refresh_server_data g cfg ch0)).
    unfold HistoricalParser.refresh_server_data, HistoricalParser.refresh_enter.
    apply io_rel_bind; [typeclasses eauto| |intros [st|]; [apply refresh_run_posts|io_rel_tac]].
    intros w. destruct (default false _); apply posts_refl; reflexivity. }
  cbv zeta. split; [apply Hposts|]. split.
  - intros c title Hin. destruct (Hposts ch) as (new & Hsent & Hnew).
    rewrite Hsent in Hin. apply elem_of_app in Hin as [Hin|Hin]; [exact Hin|].
    rewrite Forall_forall in Hnew. destruct (Hnew _ Hin).
  - destruct (Hposts None) as (new & Hsent & Hnew). rewrite Hsent.
    destruct Hnew as [|n new Hn _]; [apply app_nil_r|].
    destruct n; simpl in Hn; try contradiction; try discriminate.
    destruct Hn as [Hn _]. discriminate.
Qed.

End RefreshPosts.


Lemma refresh_posts_no_feed_embed_witness :
  sent (HistoricalParser.refresh_server_data (L := Fixture.lib) 7 configured None
          (stale_world [alice_bob_line])).2 = [].
Proof.
  destruct (refresh_posts_no_feed_embed (L := Fixture.lib) (stale_world [alice_bob_line])
              7 configured (Some 5)) as (_ & _ & Hnone).
  exact Hnone.
Defined.

Lemma add_kill_event_logs_event_time_witness :
  exists d,
    kill_events (add_kill_event 7 "s1" alice_kills_bob (empty_world [])).2 = [d] /\
    d !! "timestamp" = Some (VTime 1704067200).
Proof.
  pose proof (add_kill_event_logs_event_time (empty_world []) 7 "s1" alice_kills_bob) as H.
  cbv zeta in H. change (next_fails (empty_world [])) with false in H. cbv iota in H.
  destruct H as (_ & _ & d & Hlog & _ & _ & Htime & _).
  exists d. split; [exact Hlog|exact Htime].
Defined.

Lemma no_posts (w w' : world) : posts (fun _ => False) w w' -> sent w' = sent w.
Proof.
  intros (new & Hsent & Hnew). destruct Hnew as [|n new [] _].
  rewrite Hsent. apply app_nil_r.
Qed.

Lemma send_killfeed_embed_one (g : Z) (kd : kill_data) (w : world) :
  let w' := (KillfeedParser.send_killfeed_embed g kd w).2 in
  killfeed_channel w' = killfeed_channel w /\
  (sent w' = sent w \/
   exists c, killfeed_channel w g = Some c /\
     sent w' = sent w ++ [KillfeedEmbed c (KillfeedParser.embed_title kd)]).
Proof.
  cbv zeta.
  unfold KillfeedParser.send_killfeed_embed, io_try, mbind, io_bind, external. simpl.
  destruct (outcomes w) as [|[|] o] eqn:Ho; simpl.
  - destruct (killfeed_channel w g) as [c|] eqn:Hc; simpl; [|auto].
    split; [reflexivity|]. right. exists c. auto.
  - auto.
  - destruct (killfeed_channel w g) as [c|] eqn:Hc; simpl; [|auto].
    destruct o as [|[|] o]; simpl; eauto.
Qed.

(** X17.  Handling an event always returns.  It posts nothing, or one
    feed embed at the end of what was posted, in the channel the guild has set
    for its feed and under the title of the event; a guild without such a
    channel gets no post. *)
Theorem process_kill_event_posts_once (w : world) (g : Z) (s : string) (kd : kill_data) :
  exists w', KillfeedParser.process_kill_event g s kd w = (Ok tt, w') /\
    (sent w' = sent w \/
     exists c, killfeed_channel w g = Some c /\
       sent w' = sent w ++ [KillfeedEmbed c (KillfeedParser.embed_title kd)]).
Proof.
  destruct (process_kill_event_returns g s kd w) as (w' & Hrun & _).
  exists w'. split; [exact Hrun|].
  replace w' with (KillfeedParser.process_kill_event g s kd w).2 by (rewrite Hrun; reflexivity).
  rewrite process_kill_event_unfold. cbv zeta.
  set (w1 := (add_kill_event g s kd w).2).
  set (w2 := if is_suicide kd then _ else _).
  assert (Hquiet : sent w2 = sent w /\ killfeed_channel w2 = killfeed_channel w).
  { pose proof (add_kill_event_posts (fun _ => False) g s kd w) as Ha.
    pose proof (add_kill_event_blind same_static g s kd w) as (_ & _ & _ & _ & Hca).
    fold w1 in Ha, Hca. apply no_posts in Ha.
    assert (Hu : forall p c w0,
      sent (update_pvp_stats g s p (inc_request c) w0).2 = sent w0 /\
      killfeed_channel (update_pvp_stats g s p (inc_request c) w0).2 = killfeed_channel w0).
    { intros p c w0. split.
      - apply no_posts. apply update_pvp_stats_posts.
      - apply (update_pvp_stats_blind same_static g s p (inc_request c) w0). }
    subst w2. destruct (is_suicide kd).
    - destruct (Hu (victim kd) "suicides" w1) as [-> ->]. auto.
    - destruct (Hu (victim kd) "deaths"
                  (update_pvp_stats g s (killer kd) (inc_request "kills") w1).2) as [-> ->].
      destruct (Hu (killer kd) "kills" w1) as [-> ->]. auto. }
  destruct Hquiet as [Hs Hc].
  destruct (send_killfeed_embed_one g kd w2) as [_ Hsend]. rewrite Hs, Hc in Hsend.
  exact Hsend.
Qed.

(** ** Premium status *)

Lemma db_bind_run {A B} (m : db A) (k : A -> db B) (l : ledger) :
  (m ≫= k) l =
    match m l with
    | (Ok a, l') => k a l'
    | (Raise e, l') => (Raise e, l')
    end.
Proof. reflexivity. Qed.

(** The request of [set_premium_status] has [$set] only, and sets fields
    whose names are field names: the store takes it. *)
Lemma update_one_premium_doc (g : Z) (s : string) (e : option Z) (t : Z) (c : collection) :
  update_one (server_filter g s) ∅ (premium_doc g s e t) c =
  Ok (coll_upsert (server_filter g s) ∅ (premium_doc g s e t) c).
Proof.
  unfold update_one.
  assert (H1 : names_twice ∅ (premium_doc g s e t) = false).
  { unfold names_twice. apply negb_false_iff, bool_decide_eq_true.
    intros k v _. apply lookup_empty. }
  assert (H2 : names_operator (premium_doc g s e t) = false).
  { unfold names_operator, premium_doc. apply negb_false_iff, bool_decide_eq_true.
    repeat (apply map_Forall_insert_2; [reflexivity|]). apply map_Forall_empty. }
  rewrite H1, H2. reflexivity.
Qed.

Lemma set_premium_status_run (g : Z) (s : string) (e : option Z) (l : ledger) :
  set_premium_status g s e l =
    if call_fails l then (Ok false, after_call (after_tick l))
    else (Ok true,
          set_premium
            (coll_upsert (server_filter g s) ∅ (premium_doc g s e (hd 0 (clock l)))
                         (premium l))
            (after_call (after_tick l))).
Proof.
  unfold set_premium_status, call_fails, after_call, after_tick, db_try, mbind, db_bind,
    db_now, db_call.
  cbn [faults set_clock set_faults clock premium].
  rewrite !update_one_premium_doc.
  destruct (faults l) as [|[|] o]; reflexivity.
Qed.

Lemma upsert_find_self (flt on_insert fields : doc) (c : collection) :
  (forall d, matches flt d = true -> matches flt (apply_set fields d) = true) ->
  matches flt (apply_set fields (on_insert ∪ flt)) = true ->
  coll_find_one flt (coll_upsert flt on_insert fields c)
  = Some (apply_set fields (default (on_insert ∪ flt) (coll_find_one flt c))).
Proof.
  intros Hkeep Hnew. unfold coll_upsert, coll_find_one.
  induction c as [|d c IH]; cbn [coll_update_first List.find].
  - cbn [app List.find]. rewrite Hnew. reflexivity.
  - destruct (matches flt d) eqn:Hm.
    + cbn [List.find]. rewrite (Hkeep d Hm). reflexivity.
    + destruct (coll_update_first flt fields c) as [c1|] eqn:Hupd; cbn [fmap option_fmap option_map].
      * cbn [List.find]. rewrite Hm. exact IH.
      * cbn [app List.find]. rewrite Hm. exact IH.
Qed.

Lemma premium_doc_matches (g : Z) (s : string) (e : option Z) (t : Z) (d : doc) :
  matches (server_filter g s) (apply_set (premium_doc g s e t) d) = true.
Proof.
  apply matches_server_filter. unfold apply_set.
  split; apply lookup_union_Some_l; reflexivity.
Qed.

Lemma premium_after_set (g : Z) (s : string) (e : option Z) (t : Z) (c : collection) :
  exists d,
    coll_find_one (server_filter g s)
      (coll_upsert (server_filter g s) ∅ (premium_doc g s e t) c) = Some d /\
    d !! "active" = Some (VBool (bool_decide (is_Some e))) /\
    d !! "expires_at" = Some (from_option VTime VNone e).
Proof.
  rewrite upsert_find_self.
  - eexists. split; [reflexivity|]. unfold apply_set.
    split; apply lookup_union_Some_l; reflexivity.
  - intros d _. apply premium_doc_matches.
  - apply premium_doc_matches.
Qed.

Lemma is_premium_server_run (g : Z) (s : string) (l : ledger) :
  call_fails l = false ->
  is_premium_server g s l =
    match premium_of l g s with
    | None => (Ok false, after_call l)
    | Some d =>
        if negb (get_truthy d "active") then (Ok false, after_call l)
        else if get_truthy d "expires_at" then
          (Raise TypeError, after_tick (after_call l))
        else (Ok true, after_call l)
    end.
Proof.
  intros Hcall. unfold is_premium_server. rewrite db_bind_run.
  unfold db_call at 1. unfold call_fails in Hcall.
  assert (Hfind : match faults l with
                  | true :: o => (Raise OtherError, set_faults o l)
                  | _ => (Ok (coll_find_one (server_filter g s)
                                (premium (set_faults (tail (faults l)) l))),
                          set_faults (tail (faults l)) l)
                  end = (Ok (premium_of l g s), after_call l) :> exc (option doc) * ledger).
  { unfold premium_of, after_call.
    destruct (faults l) as [|[|] o]; [reflexivity|discriminate Hcall|reflexivity]. }
  rewrite Hfind. unfold premium_of.
  destruct (coll_find_one (server_filter g s) (premium l)) as [d|]; [|reflexivity].
  destruct (get_truthy d "active"); [|reflexivity]. cbn [negb].
  rewrite db_bind_run.
  destruct (get_truthy d "expires_at") eqn:Hexp; [|reflexivity].
  unfold get_truthy in Hexp. rewrite db_bind_run. unfold db_lift at 1.
  destruct (d !! "expires_at") as [v|]; [|discriminate Hexp].
  cbn [of_option default from_option id].
  rewrite db_bind_run. unfold db_now at 1. unfold db_lift.
  fold (after_tick (after_call l)).
  destruct v; reflexivity.
Qed.


Lemma set_premium_status_inv (g : Z) (s : string) (e : option Z) (l l1 : ledger) :
  set_premium_status g s e l = (Ok true, l1) ->
  exists t,
    premium l1 = coll_upsert (server_filter g s) ∅ (premium_doc g s e t) (premium l) /\
    economy l1 = economy l.
Proof.
  rewrite set_premium_status_run. destruct (call_fails l); intros [= <-].
  exists (hd 0 (clock l)). split; reflexivity.
Qed.

(** A check never writes. *)
Lemma is_premium_server_reads (g : Z) (s : string) (l : ledger) :
  premium (is_premium_server g s l).2 = premium l /\
  economy (is_premium_server g s l).2 = economy l.
Proof.
  destruct (call_fails l) eqn:Hcall.
  - unfold is_premium_server, call_fails, mbind, db_bind, db_call in *.
    destruct (faults l) as [|[|] o]; try discriminate Hcall. split; reflexivity.
  - rewrite is_premium_server_run by exact Hcall.
    destruct (premium_of l g s) as [d|]; [|split; reflexivity].
    destruct (negb (get_truthy d "active")); [split; reflexivity|].
    destruct (get_truthy d "expires_at"); split; reflexivity.
Qed.

(** X18.  Premium that is granted cannot be read back.  Right after
    premium is granted to a server until a given time, the check of the
    server, the store answering, raises [TypeError] whatever the time of the
    check: the expiry is read back without a zone and compared with a time
    that has one.  Right after premium is withdrawn, and for a server that
    never had any, the check answers [False]. *)
Theorem premium_grant_cannot_be_read (l l1 : ledger) (g : Z) (s : string) (e : Z) :
  (set_premium_status g s (Some e) l = (Ok true, l1) -> call_fails l1 = false ->
   is_premium_server g s l1 = (Raise TypeError, after_tick (after_call l1))) /\
  (set_premium_status g s None l = (Ok true, l1) -> call_fails l1 = false ->
   is_premium_server g s l1 = (Ok false, after_call l1)) /\
  (premium_of l g s = None -> call_fails l = false ->
   is_premium_server g s l = (Ok false, after_call l)).
Proof.
  split; [|split].
  - intros Hset Hcall. destruct (set_premium_status_inv g s _ l l1 Hset) as (t & Hprem & _).
    destruct (premium_after_set g s (Some e) t (premium l)) as (d & Hfind & Hactive & Hexp).
    rewrite <- Hprem in Hfind.
    rewrite is_premium_server_run by exact Hcall. fold (premium_of l1 g s) in Hfind.
    rewrite Hfind. unfold get_truthy. rewrite Hactive, Hexp. reflexivity.
  - intros Hset Hcall. destruct (set_premium_status_inv g s _ l l1 Hset) as (t & Hprem & _).
    destruct (premium_after_set g s None t (premium l)) as (d & Hfind & Hactive & Hexp).
    rewrite <- Hprem in Hfind.
    rewrite is_premium_server_run by exact Hcall. fold (premium_of l1 g s) in Hfind.
    rewrite Hfind. unfold get_truthy. rewrite Hactive. reflexivity.
  - intros Hnone Hcall. rewrite is_premium_server_run by exact Hcall.
    rewrite Hnone. reflexivity.
Qed.

Lemma premium_grant_cannot_be_read_witness :
  (is_premium_server 7 "s1"
     (set_premium_status 7 "s1" (Some 100) (empty_ledger [10; 50; 150])).2).1
    = Raise TypeError /\
  (is_premium_server 7 "s1"
     (set_premium_status 7 "s1" None (empty_ledger [10; 50])).2).1 = Ok false.
Proof.
  split.
  - destruct (premium_grant_cannot_be_read (empty_ledger [10; 50; 150])
                (set_premium_status 7 "s1" (Some 100) (empty_ledger [10; 50; 150])).2
                7 "s1" 100) as (Hgrant & _).
    rewrite Hgrant; reflexivity.
  - destruct (premium_grant_cannot_be_read (empty_ledger [10; 50])
                (set_premium_status 7 "s1" None (empty_ledger [10; 50])).2
                7 "s1" 0) as (_ & Hrevoke & _).
    rewrite Hrevoke; reflexivity.
Defined.

(** X19.  Premium that has run out is never switched off.  The check of a
    server whose status is active with an expiry in the past, the store
    answering, raises [TypeError] where it compares the expiry with the
    clock, before the call that would switch the status off: the store holds
    the status as it was, and every later check raises again.  No check ever
    writes to the store, and one that answers [True] has found an active
    status without an expiry, which [set_premium_status] never writes. *)
Theorem expired_premium_is_not_switched_off (l : ledger) (g : Z) (s : string) (d : doc)
    (e : Z) :
  premium_of l g s = Some d ->
  d !! "active" = Some (VBool true) ->
  d !! "expires_at" = Some (VTime e) ->
  e < hd 0 (clock l) ->
  faults l = [] ->
  let l' := (is_premium_server g s l).2 in
  (is_premium_server g s l).1 = Raise TypeError /\
  premium l' = premium l /\
  premium_of l' g s = Some d /\
  (forall l2, premium l2 = premium l' -> call_fails l2 = false ->
     (is_premium_server g s l2).1 = Raise TypeError) /\
  (forall l0 g0 s0,
     premium (is_premium_server g0 s0 l0).2 = premium l0 /\
     ((is_premium_server g0 s0 l0).1 = Ok true ->
      exists d0, premium_of l0 g0 s0 = Some d0 /\
        get_truthy d0 "active" = true /\ get_truthy d0 "expires_at" = false)) /\
  (forall l0 g0 s0 x l1 d1,
     set_premium_status g0 s0 x l0 = (Ok true, l1) -> premium_of l1 g0 s0 = Some d1 ->
     get_truthy d1 "active" = get_truthy d1 "expires_at").
Proof.
  intros Hfind Hactive Hexp Hpast Hfaults.
  assert (Hcall : call_fails l = false) by (unfold call_fails; rewrite Hfaults; reflexivity).
  assert (Hraise : forall l2, premium l2 = premium l -> call_fails l2 = false ->
            is_premium_server g s l2 = (Raise TypeError, after_tick (after_call l2))).
  { intros l2 Hprem Hcall2. rewrite is_premium_server_run by exact Hcall2.
    unfold premium_of in *. rewrite Hprem, Hfind. unfold get_truthy.
    rewrite Hactive, Hexp. reflexivity. }
  cbv zeta. destruct (is_premium_server_reads g s l) as [Hp _].
  split; [rewrite (Hraise l eq_refl Hcall); reflexivity|].
  split; [exact Hp|].
  split; [unfold premium_of in *; rewrite Hp; exact Hfind|].
  split; [|split].
  - intros l2 Hprem Hcall2. rewrite (Hraise l2) by (try assumption; congruence).
    reflexivity.
  - intros l0 g0 s0. split; [apply is_premium_server_reads|].
    destruct (call_fails l0) eqn:Hcall0.
    + unfold is_premium_server, call_fails, mbind, db_bind, db_call in *.
      destruct (faults l0) as [|[|] o]; try discriminate Hcall0. discriminate.
    + rewrite is_premium_server_run by exact Hcall0.
      destruct (premium_of l0 g0 s0) as [d0|]; [|discriminate].
      destruct (get_truthy d0 "active") eqn:Ha; [|discriminate]. cbn [negb].
      destruct (get_truthy d0 "expires_at") eqn:He; [discriminate|].
      intros _. exists d0. auto.
  - intros l0 g0 s0 x l1 d1 Hset Hfind1.
    destruct (set_premium_status_inv g0 s0 _ l0 l1 Hset) as (t & Hprem & _).
    destruct (premium_after_set g0 s0 x t (premium l0)) as (d' & Hfind' & Hactive' & Hexp').
    rewrite <- Hprem in Hfind'. unfold premium_of in Hfind1.
    rewrite Hfind1 in Hfind'. injection Hfind' as <-.
    unfold get_truthy. rewrite Hactive', Hexp'. destruct x; reflexivity.
Qed.

Lemma expired_premium_is_not_switched_off_witness :
  let l := (set_premium_status 7 "s1" (Some 100) (empty_ledger [10; 150; 160; 20])).2 in
  (is_premium_server 7 "s1" l).1 = Raise TypeError /\
  premium (is_premium_server 7 "s1" l).2 = premium l /\
  (is_premium_server 7 "s1" (is_premium_server 7 "s1" l).2).1 = Raise TypeError.
Proof.
  intros l.
  destruct (expired_premium_is_not_switched_off l 7 "s1" (premium_doc 7 "s1" (Some 100) 10) 100
              eq_refl eq_refl eq_refl eq_refl eq_refl) as (Hfirst & Hkept & _ & Hlater & _).
  split; [exact Hfirst|]. split; [exact Hkept|]. apply Hlater; reflexivity.
Defined.


Lemma upsert_find_other (flt flt' on_insert fields : doc) (c : collection) :
  (forall d, matches flt d = true -> matches flt' d = false) ->
  (forall d, matches flt d = true -> matches flt' (apply_set fields d) = false) ->
  matches flt' (apply_set fields (on_insert ∪ flt)) = false ->
  coll_find_one flt' (coll_upsert flt on_insert fields c) = coll_find_one flt' c.
Proof.
  intros Hdisj Hset Hnew. unfold coll_upsert, coll_find_one.
  induction c as [|d c IH]; cbn [coll_update_first List.find].
  - cbn [app List.find]. rewrite Hnew. reflexivity.
  - destruct (matches flt d) eqn:Hm.
    + cbn [List.find]. rewrite (Hset d Hm), (Hdisj d Hm). reflexivity.
    + destruct (coll_update_first flt fields c) as [c1|] eqn:Hupd;
        cbn [fmap option_fmap option_map].
      * cbn [List.find]. destruct (matches flt' d); [reflexivity|exact IH].
      * cbn [app List.find]. destruct (matches flt' d); [reflexivity|exact IH].
Qed.

Lemma set_premium_status_other (g g' : Z) (s s' : string) (e : option Z) (l : ledger) :
  (g', s') ≠ (g, s) ->
  premium_of (set_premium_status g s e l).2 g' s' = premium_of l g' s' /\
  economy (set_premium_status g s e l).2 = economy l.
Proof.
  intros Hne. rewrite set_premium_status_run.
  destruct (call_fails l); [split; reflexivity|]. split; [|reflexivity].
  unfold premium_of. cbn [snd premium set_premium].
  assert (Hne' : (g, s) ≠ (g', s')) by congruence.
  apply upsert_find_other.
  - intros d Hm. apply (other_server_differs g' g s' s d Hne' Hm).
  - intros d _. apply (other_server_differs g' g s' s _ Hne').
    apply premium_doc_matches.
  - apply (other_server_differs g' g s' s _ Hne'). apply premium_doc_matches.
Qed.

Lemma is_premium_server_fault (g : Z) (s : string) (l : ledger) :
  call_fails l = true ->
  is_premium_server g s l = (Raise OtherError, after_call l).
Proof.
  unfold is_premium_server, call_fails, after_call, mbind, db_bind, db_call.
  destruct (faults l) as [|[|] o]; intros Hcall;
    [discriminate Hcall|reflexivity|discriminate Hcall].
Qed.

(** X20.  Setting the premium status of a server and checking it leave
    the status of every other server and all the wallets as they were,
    whatever calls to the store fail. *)
Theorem premium_of_other_servers_kept (l : ledger) (g g' : Z) (s s' : string)
    (e : option Z) :
  (g', s') ≠ (g, s) ->
  (premium_of (set_premium_status g s e l).2 g' s' = premium_of l g' s' /\
   economy (set_premium_status g s e l).2 = economy l) /\
  (premium_of (is_premium_server g s l).2 g' s' = premium_of l g' s' /\
   economy (is_premium_server g s l).2 = economy l).
Proof.
  intros Hne. split; [apply set_premium_status_other; exact Hne|].
  destruct (call_fails l) eqn:Hcall.
  - rewrite is_premium_server_fault by exact Hcall. split; reflexivity.
  - rewrite is_premium_server_run by exact Hcall.
    destruct (premium_of l g s) as [d|]; [|split; reflexivity].
    destruct (negb (get_truthy d "active")); [split; reflexivity|].
    destruct (get_truthy d "expires_at"); split; reflexivity.
Qed.

Lemma premium_of_other_servers_kept_witness :
  let l := (set_premium_status 7 "s2" (Some 100) (empty_ledger [10; 20; 30])).2 in
  premium_of (set_premium_status 7 "s1" None l).2 7 "s2" = premium_of l 7 "s2".
Proof.
  intros l.
  destruct (premium_of_other_servers_kept l 7 7 "s1" "s2" None ltac:(discriminate))
    as [[Hkept _] _].
  exact Hkept.
Defined.

(** ** Wallets *)

Lemma matches_wallet_filter (g u : Z) (d : doc) :
  matches (wallet_filter g u) d = true <->
  d !! "guild_id" = Some (VInt g) /\ d !! "discord_id" = Some (VInt u).
Proof.
  unfold matches, wallet_filter. rewrite bool_decide_eq_true.
  rewrite !map_Forall_insert by (by simplify_map_eq).
  split.
  - intros (Hg & Hu & _). auto.
  - intros (Hg & Hu). repeat split; auto. apply map_Forall_empty.
Qed.

Lemma inc_field_other (k k' : string) (a : Z) (d d' : doc) :
  k' ≠ k -> inc_field k a d = Ok d' -> d' !! k' = d !! k'.
Proof.
  intros Hne. unfold inc_field.
  destruct (d !! k) as [[]|]; try destruct (int64 _); intros [= <-];
    apply lookup_insert_ne; congruence.
Qed.

Lemma inc_fields_other (incs : list (string * Z)) (k' : string) :
  Forall (fun inc => inc.1 ≠ k') incs ->
  forall d d', inc_fields incs d = Ok d' -> d' !! k' = d !! k'.
Proof.
  induction 1 as [|[k a] incs Hk _ IH]; intros d d' Hinc; cbn [inc_fields] in Hinc.
  - injection Hinc as <-. reflexivity.
  - destruct (inc_field k a d) as [d1|e] eqn:H1; [|discriminate Hinc].
    cbn [mbind exc_bind] in Hinc. rewrite (IH d1 d' Hinc).
    eapply inc_field_other; [|exact H1]. simpl in Hk. congruence.
Qed.

Lemma inc_upsert_find (flt : doc) (incs : list (string * Z)) (sets : doc)
    (c c' : collection) :
  (forall d d', matches flt d = true -> inc_fields incs d = Ok d' ->
     matches flt (apply_set sets d') = true) ->
  matches flt flt = true ->
  coll_inc_upsert flt incs sets c = Ok c' ->
  exists d',
    inc_fields incs (default flt (coll_find_one flt c)) = Ok d' /\
    coll_find_one flt c' = Some (apply_set sets d').
Proof.
  intros Hkeep Hflt. unfold coll_inc_upsert, coll_find_one.
  revert c'. induction c as [|d c IH]; intros c'; cbn [coll_inc_first List.find].
  - cbn [mbind exc_bind default from_option id].
    destruct (inc_fields incs flt) as [d'|e] eqn:Hinc; [|discriminate].
    intros [= <-]. exists d'. split; [reflexivity|].
    cbn [app List.find]. rewrite (Hkeep flt d' Hflt Hinc). reflexivity.
  - destruct (matches flt d) eqn:Hm.
    + cbn [default from_option id].
      destruct (inc_fields incs d) as [d'|e] eqn:Hinc; [|discriminate].
      cbn [mbind exc_bind]. intros [= <-]. exists d'. split; [reflexivity|].
      cbn [List.find]. rewrite (Hkeep d d' Hm Hinc). reflexivity.
    + destruct (coll_inc_first flt incs sets c) as [[c1|]|e] eqn:Hfirst;
        cbn [mbind exc_bind option_map].
      * intros [= <-]. destruct (IH c1 eq_refl) as (d' & Hinc & Hfind).
        exists d'. split; [exact Hinc|]. cbn [List.find]. rewrite Hm. exact Hfind.
      * destruct (inc_fields incs flt) as [d'|e] eqn:Hinc; [|discriminate].
        intros [= <-]. destruct (IH (c ++ [apply_set sets d']) eq_refl) as (d2 & Hinc2 & Hfind).
        exists d2. split; [exact Hinc2|]. cbn [app List.find]. rewrite Hm. exact Hfind.
      * discriminate.
Qed.

Lemma inc_upsert_other (flt flt' : doc) (incs : list (string * Z)) (sets : doc)
    (c c' : collection) :
  (forall d, matches flt d = true -> matches flt' d = false) ->
  (forall d d', matches flt d = true -> inc_fields incs d = Ok d' ->
     matches flt' (apply_set sets d') = false) ->
  matches flt flt = true ->
  coll_inc_upsert flt incs sets c = Ok c' ->
  coll_find_one flt' c' = coll_find_one flt' c.
Proof.
  intros Hdisj Hset Hflt. unfold coll_inc_upsert, coll_find_one.
  revert c'. induction c as [|d c IH]; intros c'; cbn [coll_inc_first List.find].
  - cbn [mbind exc_bind].
    destruct (inc_fields incs flt) as [d'|e] eqn:Hinc; [|discriminate].
    intros [= <-]. cbn [app List.find]. rewrite (Hset flt d' Hflt Hinc). reflexivity.
  - destruct (matches flt d) eqn:Hm.
    + destruct (inc_fields incs d) as [d'|e] eqn:Hinc; [|discriminate].
      cbn [mbind exc_bind]. intros [= <-]. cbn [List.find].
      rewrite (Hset d d' Hm Hinc), (Hdisj d Hm). reflexivity.
    + destruct (coll_inc_first flt incs sets c) as [[c1|]|e] eqn:Hfirst;
        cbn [mbind exc_bind option_map].
      * intros [= <-]. cbn [List.find].
        destruct (matches flt' d); [reflexivity|]. apply (IH c1 eq_refl).
      * destruct (inc_fields incs flt) as [d'|e] eqn:Hinc; [|discriminate].
        intros [= <-]. cbn [app List.find].
        destruct (matches flt' d); [reflexivity|].
        apply (IH (c ++ [apply_set sets d']) eq_refl).
      * discriminate.
Qed.


Lemma update_wallet_run (g u a : Z) (ty : string) (l : ledger) :
  update_wallet g u a ty l =
    if call_fails l then (Ok false, after_call (after_tick l))
    else
      match update_one_inc (wallet_filter g u)
              [("balance", a);
               (if 0 <? a then ("total_earned", a) else ("total_spent", Z.abs a))]
              (<["last_updated" := VTime (hd 0 (clock l))]> ∅) (economy l) with
      | Ok c => (Ok true, set_economy c (after_call (after_tick l)))
      | Raise _ => (Ok false, after_call (after_tick l))
      end.
Proof.
  unfold update_wallet, call_fails, after_call, after_tick, db_try, mbind, db_bind,
    db_now, db_call.
  cbn [faults set_clock set_faults clock economy premium].
  destruct (faults l) as [|[|] o]; cbn [tail]; try reflexivity.
  - destruct (update_one_inc _ _ _ _); reflexivity.
  - destruct (update_one_inc _ _ _ _); reflexivity.
Qed.

(** A request the driver sends and the store takes: every amount fits 8
    bytes, and the store has done what the request asks. *)
Lemma update_one_inc_taken (flt : doc) (incs : list (string * Z)) (sets : doc)
    (c c' : collection) :
  update_one_inc flt incs sets c = Ok c' ->
  forallb (fun inc => int64 inc.2) incs = true /\ coll_inc_upsert flt incs sets c = Ok c'.
Proof.
  unfold update_one_inc. destruct (forallb _ incs); [auto|discriminate].
Qed.

Lemma inc_field_whole (k : string) (a : Z) (d d' : doc) :
  whole (Some d) k ->
  inc_field k a d = Ok d' ->
  d' = <[k := VInt (counter (Some d) k + a)]> d.
Proof.
  unfold whole, counter, inc_field. cbn [mbind option_bind].
  destruct (d !! k) as [[]|]; intros Hw; try contradiction.
  - destruct (int64 _); intros [= <-]; reflexivity.
  - intros [= <-]; reflexivity.
Qed.

Lemma counter_insert_eq (k : string) (n : Z) (d : doc) :
  counter (Some (<[k := VInt n]> d)) k = n.
Proof. unfold counter. cbn [mbind option_bind]. rewrite lookup_insert_eq. reflexivity. Qed.

Lemma counter_insert_ne (k k' : string) (v : value) (d : doc) :
  k ≠ k' -> counter (Some (<[k := v]> d)) k' = counter (Some d) k'.
Proof.
  intros Hne. unfold counter. cbn [mbind option_bind].
  rewrite lookup_insert_ne by exact Hne. reflexivity.
Qed.

Lemma whole_insert_eq (k : string) (n : Z) (d : doc) : whole (Some (<[k := VInt n]> d)) k.
Proof. unfold whole. cbn [mbind option_bind]. rewrite lookup_insert_eq. exact I. Qed.

Lemma whole_insert_ne (k k' : string) (v : value) (d : doc) :
  k ≠ k' -> whole (Some d) k' -> whole (Some (<[k := v]> d)) k'.
Proof.
  intros Hne. unfold whole. cbn [mbind option_bind].
  rewrite lookup_insert_ne by exact Hne. auto.
Qed.

Lemma stamped_counter (t : Z) (d : doc) (k : string) :
  k ≠ "last_updated" ->
  counter (Some (apply_set (<["last_updated" := VTime t]> ∅) d)) k = counter (Some d) k /\
  (whole (Some d) k -> whole (Some (apply_set (<["last_updated" := VTime t]> ∅) d)) k).
Proof.
  intros Hne. unfold counter, whole, apply_set. cbn [mbind option_bind].
  rewrite lookup_union_r by (rewrite lookup_insert_ne by congruence; apply lookup_empty).
  auto.
Qed.

Lemma base_counters (g u : Z) (o : option doc) (k : string) :
  k ≠ "guild_id" -> k ≠ "discord_id" ->
  counter (Some (default (wallet_filter g u) o)) k = counter o k /\
  (whole o k -> whole (Some (default (wallet_filter g u) o)) k).
Proof.
  intros Hg Hu. destruct o as [d|]; [auto|].
  unfold counter, whole, wallet_filter. cbn [mbind option_bind default from_option id].
  rewrite !lookup_insert_ne by congruence. rewrite lookup_empty. auto.
Qed.

Lemma wallet_stays_filed (g u a : Z) (t : Z) (d d' : doc) :
  inc_fields [("balance", a);
              (if 0 <? a then ("total_earned", a) else ("total_spent", Z.abs a))] d = Ok d' ->
  (apply_set (<["last_updated" := VTime t]> ∅) d') !! "guild_id" = d !! "guild_id" /\
  (apply_set (<["last_updated" := VTime t]> ∅) d') !! "discord_id" = d !! "discord_id".
Proof.
  intros Hinc. unfold apply_set.
  rewrite !lookup_union_r by (rewrite lookup_insert_ne by discriminate; apply lookup_empty).
  split; eapply inc_fields_other; try exact Hinc.
  - repeat constructor; [discriminate|destruct (0 <? a); discriminate].
  - repeat constructor; [discriminate|destruct (0 <? a); discriminate].
Qed.

Lemma wallet_filter_self (g u : Z) : matches (wallet_filter g u) (wallet_filter g u) = true.
Proof. apply matches_wallet_filter. split; reflexivity. Qed.

(** X21.  A wallet update the store takes moves the three counters of the
    wallet together: the balance by the amount, what was earned by a gain,
    what was spent by a loss, a missing wallet or counter counting as 0.  The
    counters stay whole numbers, and books that balanced before still
    balance.  The balance is not checked against the amount: a loss larger
    than the balance is taken and leaves it below 0.  An amount that does
    not fit 8 bytes is not taken: the update returns [False] and no wallet
    changes. *)
Theorem update_wallet_moves_counters (l : ledger) (g u a : Z) (ty : string) :
  (int64 a = false ->
   exists l', update_wallet g u a ty l = (Ok false, l') /\ economy l' = economy l) /\
  (forall l',
     whole_counters (wallet_of l g u) ->
     update_wallet g u a ty l = (Ok true, l') ->
     let before := wallet_of l g u in
     let after := wallet_of l' g u in
     int64 a = true /\
     is_Some after /\ whole_counters after /\
     counter after "balance" = counter before "balance" + a /\
     counter after "total_earned" = counter before "total_earned" + Z.max a 0 /\
     counter after "total_spent" = counter before "total_spent" + Z.max (- a) 0 /\
     (balanced before -> balanced after)).
Proof.
  split.
  { intros Hbig. rewrite update_wallet_run.
    destruct (call_fails l); [eexists; split; reflexivity|].
    unfold update_one_inc. cbn [forallb snd]. rewrite Hbig. cbn [andb].
    eexists; split; reflexivity. }
  intros l'.
  intros (Hwb & Hwe & Hws) Hrun. cbv zeta.
  rewrite update_wallet_run in Hrun.
  destruct (call_fails l); [discriminate Hrun|].
  destruct (update_one_inc _ _ _ _) as [c|e] eqn:Hsent; [|discriminate Hrun].
  injection Hrun as <-.
  apply update_one_inc_taken in Hsent as [Hfits Hupsert].
  split; [cbn [forallb snd] in Hfits; apply andb_true_iff in Hfits as [Hfits _]; exact Hfits|].
  apply inc_upsert_find in Hupsert as (d' & Hinc & Hfind).
  2: { intros d d2 Hm Hinc. apply matches_wallet_filter.
       apply matches_wallet_filter in Hm as [Hg Hu].
       destruct (wallet_stays_filed g u a (hd 0 (clock l)) d d2 Hinc) as [-> ->]. auto. }
  2: { apply wallet_filter_self. }
  fold (wallet_of l g u) in Hinc.
  set (before := wallet_of l g u) in *.
  set (base := default (wallet_filter g u) before) in *.
  assert (Hbase : forall k, k ≠ "guild_id" -> k ≠ "discord_id" ->
            counter (Some base) k = counter before k /\
            (whole before k -> whole (Some base) k)).
  { intros k Hg Hu. apply base_counters; assumption. }
  destruct (Hbase "balance") as [Hcb Hwb']; [discriminate..|].
  destruct (Hbase "total_earned") as [Hce Hwe']; [discriminate..|].
  destruct (Hbase "total_spent") as [Hcs Hws']; [discriminate..|].
  specialize (Hwb' Hwb). specialize (Hwe' Hwe). specialize (Hws' Hws).
  cbn [inc_fields] in Hinc.
  destruct (inc_field "balance" a base) as [d1|e1] eqn:Hinc1; [|discriminate Hinc].
  apply (inc_field_whole "balance" a base d1 Hwb') in Hinc1. subst d1.
  cbn [mbind exc_bind] in Hinc.
  unfold wallet_of. cbn [economy set_economy]. rewrite Hfind.
  split; [eauto|].
  assert (Hgoal : forall after,
    whole_counters (Some after) /\
    counter (Some after) "balance" = counter before "balance" + a /\
    counter (Some after) "total_earned" = counter before "total_earned" + Z.max a 0 /\
    counter (Some after) "total_spent" = counter before "total_spent" + Z.max (- a) 0 ->
    whole_counters (Some after) /\
    counter (Some after) "balance" = counter before "balance" + a /\
    counter (Some after) "total_earned" = counter before "total_earned" + Z.max a 0 /\
    counter (Some after) "total_spent" = counter before "total_spent" + Z.max (- a) 0 /\
    (balanced before -> balanced (Some after))).
  { intros after (Hw & Hb & He & Hs). repeat (split; [assumption|]).
    unfold balanced. rewrite Hb, He, Hs. lia. }
  apply Hgoal. clear Hgoal.
  destruct (stamped_counter (hd 0 (clock l)) d' "balance") as [-> Hsb]; [discriminate|].
  destruct (stamped_counter (hd 0 (clock l)) d' "total_earned") as [-> Hse]; [discriminate|].
  destruct (stamped_counter (hd 0 (clock l)) d' "total_spent") as [-> Hss]; [discriminate|].
  unfold whole_counters.
  destruct (0 <? a) eqn:Hpos.
  - apply Z.ltb_lt in Hpos.
    destruct (inc_field "total_earned" a _) as [d2|e2] eqn:Hinc2; [|discriminate Hinc].
    apply inc_field_whole in Hinc2; [|apply whole_insert_ne; [discriminate|exact Hwe']].
    subst d2. cbn [mbind exc_bind inc_fields] in Hinc. injection Hinc as <-.
    split; [split; [|split]|split; [|split]].
    + apply Hsb. apply whole_insert_ne; [discriminate|]. apply whole_insert_eq.
    + apply Hse. apply whole_insert_eq.
    + apply Hss. do 2 (apply whole_insert_ne; [discriminate|]). exact Hws'.
    + repeat first [rewrite counter_insert_eq | rewrite counter_insert_ne by discriminate].
      lia.
    + repeat first [rewrite counter_insert_eq | rewrite counter_insert_ne by discriminate].
      lia.
    + repeat first [rewrite counter_insert_eq | rewrite counter_insert_ne by discriminate].
      lia.
  - apply Z.ltb_ge in Hpos.
    destruct (inc_field "total_spent" (Z.abs a) _) as [d2|e2] eqn:Hinc2; [|discriminate Hinc].
    apply inc_field_whole in Hinc2; [|apply whole_insert_ne; [discriminate|exact Hws']].
    subst d2. cbn [mbind exc_bind inc_fields] in Hinc. injection Hinc as <-.
    split; [split; [|split]|split; [|split]].
    + apply Hsb. apply whole_insert_ne; [discriminate|]. apply whole_insert_eq.
    + apply Hse. do 2 (apply whole_insert_ne; [discriminate|]). exact Hwe'.
    + apply Hss. apply whole_insert_eq.
    + repeat first [rewrite counter_insert_eq | rewrite counter_insert_ne by discriminate].
      lia.
    + repeat first [rewrite counter_insert_eq | rewrite counter_insert_ne by discriminate].
      lia.
    + repeat first [rewrite counter_insert_eq | rewrite counter_insert_ne by discriminate].
      lia.
Qed.

Lemma update_wallet_moves_counters_witness :
  counter (wallet_of (update_wallet 7 42 (-30) "bet" (empty_ledger [5])).2 7 42) "balance"
  = -30 /\
  (update_wallet 7 42 (2 ^ 63) "prize" (empty_ledger [5])).1 = Ok false.
Proof.
  split.
  - destruct (update_wallet_moves_counters (empty_ledger [5]) 7 42 (-30) "bet") as [_ Hmoves].
    destruct (Hmoves (update_wallet 7 42 (-30) "bet" (empty_ledger [5])).2)
      as (_ & _ & _ & Hbalance & _); [repeat split|reflexivity|].
    exact Hbalance.
  - destruct (update_wallet_moves_counters (empty_ledger [5]) 7 42 (2 ^ 63) "prize")
      as [Hbig _].
    destruct (Hbig eq_refl) as (l' & Hrun & _). rewrite Hrun. reflexivity.
Defined.


Lemma get_wallet_found (g u : Z) (l : ledger) (d : doc) :
  call_fails l = false -> wallet_of l g u = Some d ->
  get_wallet g u l = (Ok d, after_call l).
Proof.
  unfold get_wallet, wallet_of, call_fails, after_call, mbind, db_bind, db_call.
  intros Hcall Hfind.
  destruct (faults l) as [|[|] o]; [|discriminate Hcall|];
    cbn [economy set_faults]; rewrite Hfind; reflexivity.
Qed.

Lemma new_wallet_found (g u t : Z) (c : collection) :
  coll_find_one (wallet_filter g u) c = None ->
  coll_find_one (wallet_filter g u) (coll_insert_one (new_wallet g u t) c)
  = Some (new_wallet g u t).
Proof.
  intros Hnone. unfold coll_insert_one. rewrite find_app, Hnone.
  unfold coll_find_one. cbn [List.find].
  assert (Hm : matches (wallet_filter g u) (new_wallet g u t) = true).
  { apply matches_wallet_filter. split; reflexivity. }
  rewrite Hm. reflexivity.
Qed.

(** X22.  Asking for the wallet of a member that has none opens one, with
    nothing in it, and files it: the store then holds it, its books balance,
    and asking again gives the same wallet without a second one being filed.
    Asking for a wallet the store holds gives it as it is and changes
    nothing. *)
Theorem get_wallet_opens_once (l : ledger) (g u : Z) :
  (faults l = [] -> wallet_of l g u = None ->
   let wallet := new_wallet g u (hd 0 (clock l)) in
   exists l',
     get_wallet g u l = (Ok wallet, l') /\
     economy l' = economy l ++ [wallet] /\
     wallet_of l' g u = Some wallet /\
     counter (Some wallet) "balance" = 0 /\ counter (Some wallet) "total_earned" = 0 /\
     counter (Some wallet) "total_spent" = 0 /\
     whole_counters (Some wallet) /\ balanced (Some wallet) /\
     get_wallet g u l' = (Ok wallet, after_call l')) /\
  (forall d, call_fails l = false -> wallet_of l g u = Some d ->
     get_wallet g u l = (Ok d, after_call l)).
Proof.
  split; [|intros d; apply get_wallet_found].
  intros Hfaults Hnone. cbv zeta.
  set (wallet := new_wallet g u (hd 0 (clock l))).
  exists (set_economy (coll_insert_one wallet (economy l)) (after_tick l)).
  assert (Hfound : wallet_of (set_economy (coll_insert_one wallet (economy l)) (after_tick l))
                     g u = Some wallet).
  { unfold wallet_of. cbn [economy set_economy]. apply new_wallet_found. exact Hnone. }
  split; [|split; [reflexivity|split; [exact Hfound|]]].
  - unfold get_wallet, wallet_of, after_tick, mbind, db_bind, db_call, db_now in *.
    rewrite Hfaults. cbn [tail economy set_faults clock faults set_clock].
    rewrite Hnone. cbn [mret db_ret]. fold wallet.
    destruct l as [p e f c]. cbn in *. subst f. reflexivity.
  - repeat (split; [reflexivity|]). split; [repeat split|]. split; [reflexivity|].
    apply get_wallet_found; [|exact Hfound].
    unfold call_fails, after_tick. cbn. rewrite Hfaults. reflexivity.
Qed.

Lemma get_wallet_opens_once_witness :
  exists d, (get_wallet 7 42 (empty_ledger [5])).1 = Ok d /\
    d !! "balance" = Some (VInt 0) /\
    (get_wallet 7 42 (get_wallet 7 42 (empty_ledger [5])).2).1 = Ok d.
Proof.
  destruct (get_wallet_opens_once (empty_ledger [5]) 7 42) as [Hopen _].
  destruct (Hopen eq_refl eq_refl) as (l' & Hrun & _ & _ & _ & _ & _ & _ & _ & Hagain).
  exists (new_wallet 7 42 5). rewrite Hrun. cbn [fst snd]. rewrite Hagain.
  repeat split; reflexivity.
Defined.


(** X23.  A wallet that an update opens is not the wallet [get_wallet]
    opens: it has no date of creation, and of the two totals only the one the
    update moved, so a first gain leaves it without [total_spent] and a first
    loss without [total_earned].  [get_wallet] hands such a wallet out as it
    is. *)
Theorem update_wallet_opens_partial_wallet (l l' : ledger) (g u a : Z) (ty : string) :
  wallet_of l g u = None ->
  update_wallet g u a ty l = (Ok true, l') ->
  exists d,
    wallet_of l' g u = Some d /\
    d !! "balance" = Some (VInt a) /\
    d !! "created_at" = None /\
    (if 0 <? a then d !! "total_earned" = Some (VInt a) /\ d !! "total_spent" = None
     else d !! "total_spent" = Some (VInt (Z.abs a)) /\ d !! "total_earned" = None) /\
    forall l2, economy l2 = economy l' -> call_fails l2 = false ->
      get_wallet g u l2 = (Ok d, after_call l2).
Proof.
  intros Hnone Hrun. rewrite update_wallet_run in Hrun.
  destruct (call_fails l); [discriminate Hrun|].
  destruct (update_one_inc _ _ _ _) as [c|e] eqn:Hsent; [|discriminate Hrun].
  injection Hrun as <-.
  apply update_one_inc_taken in Hsent as [_ Hupsert].
  apply inc_upsert_find in Hupsert as (d' & Hinc & Hfind).
  2: { intros d d2 Hm Hinc. apply matches_wallet_filter.
       apply matches_wallet_filter in Hm as [Hg Hu].
       destruct (wallet_stays_filed g u a (hd 0 (clock l)) d d2 Hinc) as [-> ->]. auto. }
  2: { apply wallet_filter_self. }
  fold (wallet_of l g u) in Hinc. rewrite Hnone in Hinc.
  cbn [default from_option id] in Hinc.
  eexists. split; [exact Hfind|].
  assert (Hd' : d' = <[(if 0 <? a then "total_earned" else "total_spent")
                       := VInt (if 0 <? a then a else Z.abs a)]>
                     (<["balance" := VInt a]> (wallet_filter g u))).
  { destruct (0 <? a); cbn in Hinc; injection Hinc as <-; reflexivity. }
  subst d'. unfold apply_set, wallet_filter.
  split; [|split; [|split]].
  - destruct (0 <? a); reflexivity.
  - destruct (0 <? a); reflexivity.
  - destruct (0 <? a); split; reflexivity.
  - intros l2 Heco Hcall. apply get_wallet_found; [exact Hcall|].
    unfold wallet_of. rewrite Heco. exact Hfind.
Qed.

Lemma update_wallet_opens_partial_wallet_witness :
  exists d, (get_wallet 7 42 (update_wallet 7 42 50 "work" (empty_ledger [5])).2).1 = Ok d /\
    d !! "total_earned" = Some (VInt 50) /\ d !! "total_spent" = None.
Proof.
  destruct (update_wallet_opens_partial_wallet (empty_ledger [5])
              (update_wallet 7 42 50 "work" (empty_ledger [5])).2 7 42 50 "work"
              eq_refl eq_refl) as (d & _ & _ & _ & Htotals & Hget).
  exists d. rewrite (Hget _ eq_refl eq_refl). split; [reflexivity|exact Htotals].
Defined.

Lemma other_wallet_differs (g g' u u' : Z) (d : doc) :
  (g', u') ≠ (g, u) -> matches (wallet_filter g u) d = true ->
  matches (wallet_filter g' u') d = false.
Proof.
  intros Hne Hm. apply matches_wallet_filter in Hm as [Hg Hu].
  destruct (matches (wallet_filter g' u') d) eqn:Hm'; [|reflexivity].
  apply matches_wallet_filter in Hm' as [Hg' Hu']. congruence.
Qed.

(** X24.  A wallet update always returns a truth value and never touches
    the premium status of servers.  When it reports [False], because the store
    failed or refused the request, no wallet has changed; and the wallet of
    every other member reads as before in any case. *)
Theorem update_wallet_touches_one_wallet (l : ledger) (g u a : Z) (ty : string) :
  exists (b : bool) (l' : ledger),
    update_wallet g u a ty l = (Ok b, l') /\
    premium l' = premium l /\
    (b = true \/ economy l' = economy l) /\
    forall g' u', (g', u') ≠ (g, u) -> wallet_of l' g' u' = wallet_of l g' u'.
Proof.
  rewrite update_wallet_run. destruct (call_fails l).
  { exists false. eexists. split; [reflexivity|]. split; [reflexivity|].
    split; [right; reflexivity|]. intros; reflexivity. }
  destruct (update_one_inc _ _ _ _) as [c|e] eqn:Hsent.
  2: { exists false. eexists. split; [reflexivity|]. split; [reflexivity|].
       split; [right; reflexivity|]. intros; reflexivity. }
  apply update_one_inc_taken in Hsent as [_ Hupsert].
  exists true. eexists. split; [reflexivity|]. split; [reflexivity|].
  split; [left; reflexivity|]. intros g' u' Hne.
  unfold wallet_of. cbn [economy set_economy].
  eapply inc_upsert_other; [| | |exact Hupsert].
  - intros d Hm. eapply other_wallet_differs; eassumption.
  - intros d d2 Hm Hinc. eapply other_wallet_differs; [exact Hne|].
    apply matches_wallet_filter. apply matches_wallet_filter in Hm as [Hg Hu].
    destruct (wallet_stays_filed g u a (hd 0 (clock l)) d d2 Hinc) as [-> ->]. auto.
  - apply wallet_filter_self.
Qed.

Lemma update_wallet_touches_one_wallet_witness :
  let l := (update_wallet 7 43 10 "gift" (empty_ledger [5; 6])).2 in
  wallet_of (update_wallet 7 42 50 "work" l).2 7 43 = wallet_of l 7 43.
Proof.
  intros l.
  destruct (update_wallet_touches_one_wallet l 7 42 50 "work") as (b & l' & Hrun & _ & _ & Hkept).
  rewrite Hrun. apply Hkept. discriminate.
Defined.

(** ** A second pass over the same lines *)

Section SecondPass.
Context {L : PyLib}.

Lemma killfeed_loop_noop (g : Z) (s key : string) (lines : list string) :
  forall (n : nat) (w : world),
    is_Some (parsed_lines w !! key) ->
    (forall line, line ∈ lines ->
       Str.strip line = "" \/ seen w key line \/ parse_csv_line line = None) ->
    KillfeedParser.killfeed_loop g s key lines n w = (Ok n, w).
Proof.
  induction lines as [|line rest IH]; intros n w Hkey Hall; [reflexivity|].
  assert (Hrest : KillfeedParser.killfeed_loop g s key rest n w = (Ok n, w)).
  { apply IH; [exact Hkey|]. intros l Hl. apply Hall. right. exact Hl. }
  destruct (Hall line) as [Hblank|[Hseen|Hnone]]; [left| | |].
  - rewrite killfeed_loop_blank by exact Hblank. exact Hrest.
  - rewrite killfeed_loop_seen by exact Hseen. exact Hrest.
  - rewrite killfeed_loop_unparsed by assumption. exact Hrest.
Qed.

Lemma killfeed_loop_present (g : Z) (s key : string) (lines : list string) :
  forall (n : nat) (w : world),
    is_Some (parsed_lines w !! key) ->
    is_Some (parsed_lines (KillfeedParser.killfeed_loop g s key lines n w).2 !! key).
Proof.
  induction lines as [|line rest IH]; intros n w Hkey; [exact Hkey|].
  destruct (killfeed_loop_cons g s key line rest n w Hkey) as (n' & w' & -> & Hkey' & _).
  apply IH. exact Hkey'.
Qed.

(** X25.  Once lines have been ingested for a server, ingesting them
    again, all or some of them, in any order and any number of times, reports
    no new event and changes nothing: no record, no logged event, no post, no
    call to the store. *)
Theorem second_pass_changes_nothing (w : world) (g : Z) (s : string)
    (lines again : list string) :
  (forall line, line ∈ again -> line ∈ lines) ->
  let first := KillfeedParser.ingest_lines g s lines w in
  KillfeedParser.ingest_lines g s again first.2 = (Ok 0%nat, first.2) /\
  KillfeedParser.ingest_lines g s lines first.2 = (Ok 0%nat, first.2).
Proof.
  intros Hsub first.
  assert (Hpass : forall pass, (forall line, line ∈ pass -> line ∈ lines) ->
            KillfeedParser.ingest_lines g s pass first.2 = (Ok 0%nat, first.2)).
  { intros pass Hpass. subst first. rewrite (ingest_lines_eq g s pass).
    rewrite (ingest_lines_eq g s lines).
    set (key := KillfeedParser.server_key g s).
    set (w1 := (KillfeedParser.killfeed_loop g s key lines 0 (with_key key w)).2).
    assert (Hkey : is_Some (parsed_lines w1 !! key)).
    { apply killfeed_loop_present. apply with_key_present. }
    rewrite (with_key_idem key w1 Hkey).
    apply killfeed_loop_noop; [exact Hkey|].
    intros line Hin.
    destruct (String.eqb_spec (Str.strip line) "") as [Hblank|Hfull]; [left; exact Hblank|].
    destruct (parse_csv_line line) as [kd|] eqn:Hparse; [|right; right; reflexivity].
    right. left. apply killfeed_loop_marks.
    - apply with_key_present.
    - apply Hpass. exact Hin.
    - exact Hfull.
    - rewrite Hparse. eauto. }
  split; [apply Hpass; exact Hsub|apply Hpass; auto].
Qed.

End SecondPass.

Lemma second_pass_changes_nothing_witness :
  let first := KillfeedParser.ingest_lines (L := Fixture.lib) 7 "s1"
                 [alice_bob_line; "not a record"; carl_line] (empty_world []) in
  first.1 = Ok 2%nat /\
  KillfeedParser.ingest_lines (L := Fixture.lib) 7 "s1" [carl_line; alice_bob_line] first.2
    = (Ok 0%nat, first.2).
Proof.
  intros first. split; [reflexivity|]. subst first.
  pose proof (second_pass_changes_nothing (L := Fixture.lib) (empty_world []) 7 "s1"
                [alice_bob_line; "not a record"; carl_line] [carl_line; alice_bob_line]) as H.
  cbv zeta in H. destruct H as [H _]; [|exact H].
  intros line Hin.
  apply elem_of_cons in Hin as [->|Hin]; [right; right; left|].
  apply elem_of_cons in Hin as [->|Hin]; [left|]. inversion Hin.
Defined.

(** ** Files that cannot be fetched *)

Section FetchFailures.
Context {L : PyLib}.

(** X26.  The live fetch never raises: it gives no line when a credential
    is missing or empty, when the connection fails, when the directory cannot
    be listed and when the file cannot be read.  A pass of the live parser
    that fetches no line returns and leaves everything as it was. *)
Theorem live_fetch_failures (w : world) (g : Z) (cfg : server_config) :
  let r := sftp w in
  let host := default "" (cfg_sftp_host cfg) in
  let path := deathlogs_path host (default "unknown" (cfg_server_id cfg)) in
  (exists lines, KillfeedParser.get_sftp_csv_files r cfg = Ok lines) /\
  (truthy (cfg_sftp_host cfg) && truthy (cfg_sftp_username cfg)
     && truthy (cfg_sftp_password cfg) = false ->
   KillfeedParser.get_sftp_csv_files r cfg = Ok []) /\
  ((exists e, ssh_connect r host (default 22 (cfg_sftp_port cfg))
                (default "" (cfg_sftp_username cfg))
                (default "" (cfg_sftp_password cfg)) = Raise e) ->
   KillfeedParser.get_sftp_csv_files r cfg = Ok []) /\
  ((exists e, listdir_attr r path = Raise e) ->
   KillfeedParser.get_sftp_csv_files r cfg = Ok []) /\
  ((forall name, exists e, read_lines r (path +:+ "/" +:+ name) = Raise e) ->
   KillfeedParser.get_sftp_csv_files r cfg = Ok []) /\
  (dev_mode w = false -> KillfeedParser.get_sftp_csv_files r cfg = Ok [] ->
   KillfeedParser.parse_server_killfeed g cfg w = (Ok tt, w)).
Proof.
  intros r host path.
  destruct (latest_fetch_degrades r cfg) as (H1 & H2 & H3 & H4).
  destruct (fetch_never_raises w cfg) as (H0 & _).
  split; [exact H0|]. split; [exact H1|]. split; [exact H2|]. split; [exact H3|].
  split; [exact H4|].
  intros Hdev Hnone. unfold KillfeedParser.parse_server_killfeed.
  rewrite try_run, bind_run. unfold KillfeedParser.fetch_latest.
  rewrite Hdev. fold r. rewrite Hnone. reflexivity.
Qed.

(** X27.  The historical fetch never raises either.  It takes its
    credentials from the environment first and from the server's settings
    otherwise, and gives no line when the port set in the environment is not
    a number, when a credential is missing or empty, when the connection
    fails, when the directory cannot be listed, and when it lists no log. *)
Theorem historical_fetch_failures (env : gmap string string) (r : remote)
    (cfg : server_config) :
  let host := HistoricalParser.getenv env "SFTP_HOST" (cfg_sftp_host cfg) in
  let user := HistoricalParser.getenv env "SFTP_USERNAME" (cfg_sftp_username cfg) in
  let pw := HistoricalParser.getenv env "SFTP_PASSWORD" (cfg_sftp_password cfg) in
  let path := deathlogs_path (default "" host) (default "unknown" (cfg_server_id cfg)) in
  (exists lines, HistoricalParser.get_sftp_csv_files env r cfg = Ok lines) /\
  (forall v, env !! "SFTP_PORT" = Some v -> int_of_str v = None ->
     HistoricalParser.get_sftp_csv_files env r cfg = Ok []) /\
  (truthy host && truthy user && truthy pw = false ->
   HistoricalParser.get_sftp_csv_files env r cfg = Ok []) /\
  (forall port, HistoricalParser.sftp_port_of env cfg = Ok port ->
     (exists e, ssh_connect r (default "" host) port (default "" user) (default "" pw)
                = Raise e) ->
     HistoricalParser.get_sftp_csv_files env r cfg = Ok []) /\
  ((exists e, listdir_attr r path = Raise e) ->
   HistoricalParser.get_sftp_csv_files env r cfg = Ok []) /\
  (forall items, listdir_attr r path = Ok items -> csv_only items = [] ->
     HistoricalParser.get_sftp_csv_files env r cfg = Ok []).
Proof.
  intros host user pw path. split; [apply try_except_all|].
  unfold HistoricalParser.get_sftp_csv_files, HistoricalParser.get_sftp_csv_files_body.
  fold host user pw.
  split.
  { intros v Hv Hint. unfold HistoricalParser.sftp_port_of. rewrite Hv, Hint. reflexivity. }
  destruct (HistoricalParser.sftp_port_of env cfg) as [port|e];
    [|repeat split; reflexivity].
  cbn [mbind exc_bind]. subst path.
  destruct host as [h|]; [|repeat split; reflexivity].
  destruct user as [u|]; [|repeat split; reflexivity].
  destruct pw as [p|]; [|repeat split; reflexivity].
  cbn [default from_option id].
  destruct (truthy (Some h) && truthy (Some u) && truthy (Some p)) eqn:Hall;
    [|repeat split; reflexivity].
  cbn [negb].
  split; [discriminate|].
  split.
  { intros port' [= <-] [e ->]. reflexivity. }
  destruct (ssh_connect r h port u p) as [[]|e]; [|repeat split; reflexivity].
  split.
  - intros [e ->]. destruct e; reflexivity.
  - intros items -> ->. reflexivity.
Qed.

End FetchFailures.

Lemma live_fetch_failures_witness :
  KillfeedParser.parse_server_killfeed (L := Fixture.lib) 7 configured
    (set_outcomes [] (World [] [] ∅ ∅ [] [] [] false unreachable_remote (one_file []) ∅
                        (fun _ => None)))
  = (Ok tt, World [] [] ∅ ∅ [] [] [] false unreachable_remote (one_file []) ∅
              (fun _ => None)).
Proof.
  destruct (live_fetch_failures (L := Fixture.lib)
              (World [] [] ∅ ∅ [] [] [] false unreachable_remote (one_file []) ∅
                 (fun _ => None)) 7 configured) as (_ & _ & Hconn & _ & _ & Hpass).
  apply Hpass; [reflexivity|]. apply Hconn. eexists. reflexivity.
Defined.

Lemma historical_fetch_failures_witness :
  HistoricalParser.get_sftp_csv_files (L := Fixture.lib) {["SFTP_PORT" := "ssh"]}
    archive_remote configured = Ok [].
Proof.
  destruct (historical_fetch_failures (L := Fixture.lib) {["SFTP_PORT" := "ssh"]}
              archive_remote configured) as (_ & Hport & _).
  apply (Hport "ssh"); reflexivity.
Defined.

(** ** The run over all servers *)

Section Run.
Context {L : PyLib}.

Lemma parse_server_killfeed_returns (g : Z) (cfg : server_config) (w : world) :
  KillfeedParser.parse_server_killfeed g cfg w
  = (Ok tt, (KillfeedParser.parse_server_killfeed g cfg w).2).
Proof.
  assert (Hr : io_returns (KillfeedParser.parse_server_killfeed g cfg)).
  { apply io_returns_try. intros e. apply io_returns_ret. }
  destruct (Hr w) as [[] Ha].
  destruct (KillfeedParser.parse_server_killfeed g cfg w) as [r w']. simpl in *.
  subst r. reflexivity.
Qed.

Lemma each_server_run (g : Z) (servers : list server_config) :
  forall w, each_server g servers w = (Ok tt, server_passes g servers w).
Proof.
  induction servers as [|cfg rest IH]; intros w; [reflexivity|].
  cbn [each_server]. rewrite bind_run, parse_server_killfeed_returns. apply IH.
Qed.

Lemma each_guild_run (guild_docs : list (option Z * list server_config)) :
  Forall (fun gd => is_Some gd.1) guild_docs ->
  forall w, each_guild guild_docs w = (Ok tt, guild_passes guild_docs w).
Proof.
  induction 1 as [|[gid servers] rest [g Hg] _ IH]; intros w; [reflexivity|].
  cbn [each_guild]. simpl in Hg. subst gid. rewrite bind_run. unfold io_lift at 1.
  cbn [of_option]. rewrite bind_run, each_server_run. apply IH.
Qed.

Lemma parse_server_killfeed_log (g : Z) (cfg : server_config) :
  io_rel log_grows (KillfeedParser.parse_server_killfeed g cfg).
Proof.
  pose proof ingest_lines_log.
  unfold KillfeedParser.parse_server_killfeed, KillfeedParser.fetch_latest. io_rel_tac.
  all: try (apply io_rel_pure; typeclasses eauto).
Qed.

Lemma killfeed_loop_guards (g : Z) (s key : string) (lines : list string) :
  forall n, io_rel same_guards (KillfeedParser.killfeed_loop g s key lines n).
Proof.
  assert (Hmark : forall line, io_rel same_guards (KillfeedParser.mark_parsed key line)).
  { intros line w. unfold KillfeedParser.mark_parsed, same_guards.
    destruct (parsed_lines w !! key); reflexivity. }
  induction lines as [|line rest IH]; intros n; simpl.
  - io_rel_tac.
  - unfold KillfeedParser.parsed_for. io_rel_tac.
    all: try (apply io_rel_pure; typeclasses eauto).
    all: destruct (parse_csv_line line); io_rel_tac.
Qed.

Lemma parse_server_killfeed_guards (g : Z) (cfg : server_config) :
  io_rel same_guards (KillfeedParser.parse_server_killfeed g cfg).
Proof.
  pose proof killfeed_loop_guards.
  unfold KillfeedParser.parse_server_killfeed, KillfeedParser.fetch_latest,
    KillfeedParser.ingest_lines.
  io_rel_tac.
  all: try (apply io_rel_pure; typeclasses eauto).
  all: unfold same_guards; destruct (parsed_lines _ !! _); reflexivity.
Qed.

Lemma server_passes_cons (g : Z) (cfg : server_config) (rest : list server_config)
    (w : world) :
  server_passes g (cfg :: rest) w
  = server_passes g rest (KillfeedParser.parse_server_killfeed g cfg w).2.
Proof. reflexivity. Qed.

Lemma server_passes_log (g : Z) (servers : list server_config) :
  forall w, log_grows w (server_passes g servers w) /\
            active_refreshes (server_passes g servers w) = active_refreshes w.
Proof.
  induction servers as [|cfg rest IH]; intros w; [split; reflexivity|].
  rewrite server_passes_cons.
  destruct (IH (KillfeedParser.parse_server_killfeed g cfg w).2) as [Hlog Hguards].
  split.
  - etransitivity; [|exact Hlog]. apply parse_server_killfeed_log.
  - rewrite Hguards. apply parse_server_killfeed_guards.
Qed.

Lemma guild_passes_cons (gd : option Z * list server_config)
    (rest : list (option Z * list server_config)) (w : world) :
  guild_passes (gd :: rest) w = guild_passes rest (server_passes (default 0 gd.1) gd.2 w).
Proof. reflexivity. Qed.

Lemma guild_passes_log (guild_docs : list (option Z * list server_config)) :
  forall w, log_grows w (guild_passes guild_docs w) /\
            active_refreshes (guild_passes guild_docs w) = active_refreshes w.
Proof.
  induction guild_docs as [|gd rest IH]; intros w; [split; reflexivity|].
  rewrite guild_passes_cons.
  destruct (IH (server_passes (default 0 gd.1) gd.2 w)) as [Hlog Hguards].
  destruct (server_passes_log (default 0 gd.1) gd.2 w) as [Hlog' Hguards'].
  split; [etransitivity; eassumption|congruence].
Qed.

Lemma each_guild_stops (before rest : list (option Z * list server_config))
    (servers : list server_config) :
  Forall (fun gd => is_Some gd.1) before ->
  forall w, each_guild (before ++ (None, servers) :: rest) w
            = (Raise KeyError, guild_passes before w).
Proof.
  induction 1 as [|[gid svs] before' [g Hg] _ IH]; intros w; [reflexivity|].
  cbn [app each_guild]. simpl in Hg. subst gid. rewrite bind_run. unfold io_lift at 1.
  cbn [of_option]. rewrite bind_run, each_server_run. apply IH.
Qed.

(** X28.  A run of the live parser over all the guilds always returns.
    When the store yields the guilds and each of them names its guild id,
    every server of every guild gets its pass, in order, whatever fails inside
    a pass: the run leaves the world the passes leave one after the other; it
    only adds to the log of events and leaves the guards of the refreshes
    alone.  A guild document without a guild id ends the run: the guilds
    before it have had their passes, those after it get none. *)
Theorem run_killfeed_parser_visits_all (w : world)
    (guild_docs : list (option Z * list server_config)) :
  (exists w', run_killfeed_parser guild_docs w = (Ok tt, w')) /\
  (next_fails w = false ->
   Forall (fun gd => is_Some gd.1) guild_docs ->
   let w0 := set_outcomes (tail (outcomes w)) w in
   run_killfeed_parser guild_docs w = (Ok tt, guild_passes guild_docs w0) /\
   kill_events w `prefix_of` kill_events (guild_passes guild_docs w0) /\
   active_refreshes (guild_passes guild_docs w0) = active_refreshes w) /\
  (forall before servers rest,
     next_fails w = false ->
     Forall (fun gd => is_Some gd.1) before ->
     guild_docs = before ++ (None, servers) :: rest ->
     run_killfeed_parser guild_docs w
     = (Ok tt, guild_passes before (set_outcomes (tail (outcomes w)) w))).
Proof.
  assert (Hcall : next_fails w = false ->
            external (fun w1 : world => (guild_docs, w1)) w
            = (Ok guild_docs, set_outcomes (tail (outcomes w)) w)).
  { unfold external, next_fails.
    destruct (outcomes w) as [|[|] o]; intros Hnext;
      [reflexivity|discriminate Hnext|reflexivity]. }
  split; [|split].
  - assert (Hr : io_returns (run_killfeed_parser guild_docs)).
    { apply io_returns_try. intros e. apply io_returns_ret. }
    destruct (Hr w) as [[] Ha]. destruct (run_killfeed_parser guild_docs w) as [r w'].
    simpl in Ha. subst r. eauto.
  - intros Hnext Hall w0. unfold run_killfeed_parser. rewrite try_run, bind_run.
    rewrite (Hcall Hnext). fold w0. rewrite (each_guild_run guild_docs Hall w0).
    split; [reflexivity|]. destruct (guild_passes_log guild_docs w0) as [Hlog Hguards].
    split; [exact Hlog|exact Hguards].
  - intros before servers rest Hnext Hall Hdocs.
    unfold run_killfeed_parser. rewrite try_run, bind_run, (Hcall Hnext).
    rewrite Hdocs at 1. rewrite (each_guild_stops before rest servers Hall). reflexivity.
Qed.

(** X29.  The refresh that follows the adding of a server always returns.
    It is the historical refresh run without a channel: it posts nothing,
    and when no refresh of the server is under way it ends with the guard of
    the server released. *)
Theorem auto_refresh_is_silent (w : world) (g : Z) (cfg : server_config) :
  let w' := (HistoricalParser.refresh_server_data g cfg None w).2 in
  auto_refresh_after_server_add g cfg w = (Ok tt, w') /\
  sent w' = sent w /\
  (default false (active_refreshes w !! HistoricalParser.refresh_key g cfg) = false ->
   active_refreshes w' !! HistoricalParser.refresh_key g cfg = Some false).
Proof.
  cbv zeta. split; [|split].
  - unfold auto_refresh_after_server_add. rewrite try_run, bind_run.
    destruct (HistoricalParser.refresh_server_data g cfg None w) as [[b|e] w'];
      reflexivity.
  - pose proof (refresh_run_posts g cfg None) as Hrun.
    assert (Hposts : io_rel (posts (refresh_notice None))
                       (HistoricalParser.refresh_server_data g cfg None)).
    { unfold HistoricalParser.refresh_server_data, HistoricalParser.refresh_enter.
      apply io_rel_bind; [typeclasses eauto| |intros [st|]; [apply Hrun|io_rel_tac]].
      intros w1. destruct (default false _); apply posts_refl; reflexivity. }
    destruct (Hposts w) as (new & Hsent & Hnew). rewrite Hsent.
    destruct Hnew as [|n new Hn _]; [apply app_nil_r|].
    destruct n; simpl in Hn; try contradiction; try discriminate.
    destruct Hn as [Hn _]. discriminate.
  - intros Hfree. unfold HistoricalParser.refresh_server_data.
    rewrite bind_run, refresh_enter_admitted by exact Hfree.
    match goal with |- context [HistoricalParser.refresh_run g cfg None ?t ?w1] =>
      destruct (refresh_run_releases g cfg None t w1) as (b & w' & Hrun & Hguard)
    end.
    { simpl. rewrite lookup_insert_eq. eauto. }
    rewrite Hrun. cbn [snd]. rewrite Hguard. apply lookup_insert_eq.
Qed.

End Run.

Lemma run_killfeed_parser_visits_all_witness :
  run_killfeed_parser (L := Fixture.lib) [(Some 7, [configured]); (Some 8, [configured])]
    (empty_world [alice_bob_line])
  = (Ok tt,
     guild_passes (L := Fixture.lib) [(Some 7, [configured]); (Some 8, [configured])]
       (empty_world [alice_bob_line])).
Proof.
  destruct (run_killfeed_parser_visits_all (L := Fixture.lib) (empty_world [alice_bob_line])
              [(Some 7, [configured]); (Some 8, [configured])]) as (_ & Hrun & _).
  destruct Hrun as [Hrun _]; [reflexivity| |exact Hrun].
  repeat constructor; eexists; reflexivity.
Defined.

Lemma auto_refresh_is_silent_witness :
  let w := stale_world [alice_bob_line] in
  let w' := (HistoricalParser.refresh_server_data (L := Fixture.lib) 7 configured None w).2 in
  auto_refresh_after_server_add (L := Fixture.lib) 7 configured w = (Ok tt, w') /\
  active_refreshes w' !! HistoricalParser.refresh_key 7 configured = Some false.
Proof.
  intros w w'.
  destruct (auto_refresh_is_silent (L := Fixture.lib) w 7 configured) as (Hrun & _ & Hguard).
  split; [exact Hrun|]. apply Hguard. reflexivity.
Defined.

